(** * mixing-api: the POST /mix pipeline of src/index.js

    A shallow embedding of the request handler of the audio mixing
    service (validation, stem download, ffmpeg argument construction,
    cleanup) and the properties of it that the specification states.

    JavaScript values are modelled as far as a decoded JSON body can
    produce them; strings are sequences of UTF-16 code units. *)

From Stdlib Require Import List NArith ZArith Bool Lia String Ascii.
From Stdlib Require DecimalNat.
Import ListNotations.

Set Implicit Arguments.

(* ================================================================== *)
(** ** JavaScript strings *)
(* ================================================================== *)

Module JSString.

(** A JavaScript string: its UTF-16 code units. *)
Definition jsstring := list N.

(** An ASCII literal of the source as a JavaScript string. *)
Definition str (s : string) : jsstring :=
  map N_of_ascii (list_ascii_of_string s).

Definition jsstring_eq_dec : forall a b : jsstring, {a = b} + {a <> b} :=
  list_eq_dec N.eq_dec.

(** [a === b] on strings. *)
Definition eqb (a b : jsstring) : bool :=
  if jsstring_eq_dec a b then true else false.

(** Decimal digits of a natural number, as [String(i)] prints an array
    index or a length. *)
Fixpoint uint_units (d : Decimal.uint) : jsstring :=
  match d with
  | Decimal.Nil => []
  | Decimal.D0 d => 48%N :: uint_units d
  | Decimal.D1 d => 49%N :: uint_units d
  | Decimal.D2 d => 50%N :: uint_units d
  | Decimal.D3 d => 51%N :: uint_units d
  | Decimal.D4 d => 52%N :: uint_units d
  | Decimal.D5 d => 53%N :: uint_units d
  | Decimal.D6 d => 54%N :: uint_units d
  | Decimal.D7 d => 55%N :: uint_units d
  | Decimal.D8 d => 56%N :: uint_units d
  | Decimal.D9 d => 57%N :: uint_units d
  end.

Definition dec (n : nat) : jsstring := uint_units (Nat.to_uint n).

(** [String.prototype.split] with a one-unit separator: the pieces
    between the occurrences of [sep]; never the empty list. *)
Fixpoint split (sep : N) (s : jsstring) : list jsstring :=
  match s with
  | [] => [[]]
  | c :: s' =>
      if N.eqb c sep then [] :: split sep s'
      else match split sep s' with
           | [] => [[c]]
           | p :: ps => (c :: p) :: ps
           end
  end.

(** ECMAScript WhiteSpace and LineTerminator code units, the ones
    [String.prototype.trim] removes. *)
Definition isWhiteSpace (c : N) : bool :=
  existsb (N.eqb c)
    [9; 10; 11; 12; 13; 32; 160; 5760;
     8192; 8193; 8194; 8195; 8196; 8197; 8198; 8199; 8200; 8201; 8202;
     8232; 8233; 8239; 8287; 12288; 65279]%N.

Fixpoint trimStart (s : jsstring) : jsstring :=
  match s with
  | [] => []
  | c :: s' => if isWhiteSpace c then trimStart s' else s
  end.

Definition trimEnd (s : jsstring) : jsstring := rev (trimStart (rev s)).

Definition trim (s : jsstring) : jsstring := trimEnd (trimStart s).

(** [Array.prototype.join] on strings. *)
Fixpoint join (sep : jsstring) (l : list jsstring) : jsstring :=
  match l with
  | [] => []
  | [x] => x
  | x :: rest => x ++ sep ++ join sep rest
  end.

End JSString.
Export JSString.

(* ================================================================== *)
(** ** Exceptions *)
(* ================================================================== *)

(** What a [throw] carries: the engine's TypeError or an [Error] built
    by the program or by a library, with its [message]. *)
Inductive JSError : Type :=
| TypeError (message : jsstring)
| Error (message : jsstring).

Definition error_message (e : JSError) : jsstring :=
  match e with
  | TypeError m => m
  | Error m => m
  end.

Inductive result (A : Type) : Type :=
| Ok (a : A)
| Throw (e : JSError).
Arguments Ok {A} a.
Arguments Throw {A} e.

Definition rbind {A B} (r : result A) (k : A -> result B) : result B :=
  match r with
  | Ok a => k a
  | Throw e => Throw e
  end.

Declare Scope result_scope.
Delimit Scope result_scope with result.
Notation "'let?' x ':=' r 'in' k" := (rbind r (fun x => k))
  (at level 10, x name, r at level 100, k at level 200) : result_scope.
Open Scope result_scope.

(* ================================================================== *)
(** ** JavaScript values of a decoded JSON body *)
(* ================================================================== *)

Module JSValues.

(** A Number, by the decimal digits ECMAScript's Number::toString
    prints: [Dec neg s e] is (-1)^neg * s * 10^e with [s] positive.
    A binary64 value is the [Dec] of its shortest round-trip decimal;
    the theorems below hold for every [Dec]. *)
Inductive JSNumber : Type :=
| NaN
| Infinity (neg : bool)
| Zero (neg : bool)
| Dec (neg : bool) (s : positive) (e : Z).

(** Own properties of an object are an association list, looked up by
    key from the front. *)
#[warnings="-register-all"]
Inductive JSValue : Type :=
| JUndefined
| JNull
| JBool (b : bool)
| JNum (n : JSNumber)
| JStr (s : jsstring)
| JArr (elems : list JSValue)
| JObj (props : list (jsstring * JSValue)).

(** The literal [1.0]. *)
Definition one : JSNumber := Dec false 1 0.

Fixpoint lookup (k : jsstring) (props : list (jsstring * JSValue))
  : option JSValue :=
  match props with
  | [] => None
  | (k', v) :: rest => if JSString.eqb k k' then Some v else lookup k rest
  end.

(** ToBoolean. *)
Definition truthy (v : JSValue) : bool :=
  match v with
  | JUndefined | JNull => false
  | JBool b => b
  | JNum NaN | JNum (Zero _) => false
  | JNum _ => true
  | JStr [] => false
  | JStr _ => true
  | JArr _ | JObj _ => true
  end.

(** [a || b] on values. *)
Definition or_else (a b : JSValue) : JSValue := if truthy a then a else b.

Inductive JSType := TUndefined | TObject | TBoolean | TNumber | TString.

Definition typeof (v : JSValue) : JSType :=
  match v with
  | JUndefined => TUndefined
  | JNull | JArr _ | JObj _ => TObject
  | JBool _ => TBoolean
  | JNum _ => TNumber
  | JStr _ => TString
  end.

Definition isArray (v : JSValue) : bool :=
  match v with JArr _ => true | _ => false end.

(** *** Number::toString (radix 10) *)

Fixpoint dropZeros (revDigits : jsstring) (z : nat) : jsstring * nat :=
  match revDigits with
  | 48%N :: rest => dropZeros rest (S z)
  | _ => (revDigits, z)
  end.

(** The digits of [s] without trailing zeros, and how many were cut. *)
Definition significand (s : positive) : jsstring * nat :=
  let (r, z) := dropZeros (rev (uint_units (Pos.to_uint s))) 0 in
  (rev r, z).

Definition exponentPart (c : Z) : jsstring :=
  str "e" ++ (if (c <? 0)%Z then str "-" else str "+")
          ++ dec (Z.to_nat (Z.abs c)).

Definition positiveToString (s : positive) (e : Z) : jsstring :=
  let (digits, z) := significand s in
  let k := Z.of_nat (List.length digits) in
  let n := (e + Z.of_nat z + k)%Z in
  if ((k <=? n) && (n <=? 21))%Z%bool then
    digits ++ repeat 48%N (Z.to_nat (n - k))
  else if ((0 <? n) && (n <=? 21))%Z%bool then
    firstn (Z.to_nat n) digits ++ str "." ++ skipn (Z.to_nat n) digits
  else if ((-6 <? n) && (n <=? 0))%Z%bool then
    str "0." ++ repeat 48%N (Z.to_nat (- n)) ++ digits
  else
    match digits with
    | [d] => [d] ++ exponentPart (n - 1)
    | d :: more => [d] ++ str "." ++ more ++ exponentPart (n - 1)
    | [] => []
    end.

Definition numberToString (x : JSNumber) : jsstring :=
  match x with
  | NaN => str "NaN"
  | Zero _ => str "0"
  | Infinity neg => (if neg then str "-" else []) ++ str "Infinity"
  | Dec neg s e => (if neg then str "-" else []) ++ positiveToString s e
  end.

(** *** ToString, as [String(v)] and a template literal apply it

    An array prints its elements joined by commas, [null] and
    [undefined] elements as the empty string. An ordinary object prints
    through [Object.prototype.toString] unless it has an own [toString]
    property: a decoded JSON value is never callable, so the own
    property hides the inherited method, [valueOf] returns the object
    itself, and OrdinaryToPrimitive throws a TypeError. *)
Definition cannotConvert : JSError :=
  TypeError (str "Cannot convert object to primitive value").

Fixpoint ToString (v : JSValue) : result jsstring :=
  match v with
  | JUndefined => Ok (str "undefined")
  | JNull => Ok (str "null")
  | JBool true => Ok (str "true")
  | JBool false => Ok (str "false")
  | JNum x => Ok (numberToString x)
  | JStr s => Ok s
  | JArr elems =>
      (fix joined (l : list JSValue) : result jsstring :=
         match l with
         | [] => Ok []
         | x :: rest =>
             let? s := match x with
                       | JUndefined | JNull => Ok []
                       | _ => ToString x
                       end in
             match rest with
             | [] => Ok s
             | _ => let? r := joined rest in Ok (s ++ str "," ++ r)
             end
         end) elems
  | JObj props =>
      match lookup (str "toString") props with
      | Some _ => Throw cannotConvert
      | None => Ok (str "[object Object]")
      end
  end.

(** *** Property reads

    [v[index]] for an array index. The prototypes of arrays, strings,
    numbers, booleans and ordinary objects hold no index property, so
    only own properties answer. Reading a property of [undefined] or
    [null] throws. *)
Definition cannotRead : JSError :=
  TypeError (str "Cannot read properties of undefined or null").

Definition getIndex (v : JSValue) (index : nat) : result JSValue :=
  match v with
  | JUndefined | JNull => Throw cannotRead
  | JArr elems => Ok (nth index elems JUndefined)
  | JStr s => Ok match nth_error s index with
                 | Some c => JStr [c]
                 | None => JUndefined
                 end
  | JObj props => Ok match lookup (dec index) props with
                     | Some x => x
                     | None => JUndefined
                     end
  | JBool _ | JNum _ => Ok JUndefined
  end.

(** [v.stems], [v.volumes], [v.url]: no built-in prototype and no array
    or string has a property of one of these three names, so the read
    is an own-property lookup on an ordinary object and [undefined]
    elsewhere. *)
Definition getField (v : JSValue) (name : jsstring) : result JSValue :=
  match v with
  | JUndefined | JNull => Throw cannotRead
  | JObj props => Ok match lookup name props with
                     | Some x => x
                     | None => JUndefined
                     end
  | _ => Ok JUndefined
  end.

End JSValues.
Export JSValues.

(* ================================================================== *)
(** ** mixAudioFiles: the ffmpeg argument list (index.js 58-85) *)
(* ================================================================== *)

Module Mixer.

(** [list.forEach((x, index) => ...)] updating a captured variable of
    type [S]; a throw in the callback leaves the loop. *)
Fixpoint forEach {A St} (f : St -> A -> nat -> result St)
    (l : list A) (index : nat) (acc : St) : result St :=
  match l with
  | [] => Ok acc
  | x :: rest => let? acc' := f acc x index in forEach f rest (S index) acc'
  end.

(** [list.map((x, index) => ...)] for a callback that cannot throw. *)
Fixpoint mapi {A B} (f : A -> nat -> B) (l : list A) (index : nat)
  : list B :=
  match l with
  | [] => []
  | x :: rest => f x index :: mapi f rest (S index)
  end.

(** The default parameter [volumes = []]: applies to [undefined] only. *)
Definition defaultVolumes (volumes : JSValue) : JSValue :=
  match volumes with
  | JUndefined => JArr []
  | _ => volumes
  end.

(** [const volume = volumes[index] || 1.0] *)
Definition volumeAt (volumes : JSValue) (index : nat) : result JSValue :=
  let? v := getIndex volumes index in Ok (or_else v (JNum one)).

(** The volume of a source as the template literal prints it. *)
Definition shownVolume (volumes : JSValue) (index : nat) : result jsstring :=
  let? volume := volumeAt volumes index in ToString volume.

(** Every volume read for [n] inputs can be printed: the condition
    under which the filter loop does not throw. *)
Definition printable (volumes : JSValue) (n : nat) : Prop :=
  forall index, index < n ->
    exists s, shownVolume (defaultVolumes volumes) index = Ok s.

(** [`[${index}:a]volume=${volume}[a${index}];`] *)
Definition gainFilter (index : nat) (volume : jsstring) : jsstring :=
  str "[" ++ dec index ++ str ":a]volume=" ++ volume
          ++ str "[a" ++ dec index ++ str "];".

(** [`[a${index}]`] *)
Definition mixInput (index : nat) : jsstring :=
  str "[a" ++ dec index ++ str "]".

(** [`amix=inputs=${inputFiles.length}:duration=longest[out]`] *)
Definition amix (inputs : nat) : jsstring :=
  str "amix=inputs=" ++ dec inputs ++ str ":duration=longest[out]".

(** The callback of the second loop, index.js 69-72. *)
Definition appendGain (volumes : JSValue) (filterComplex : jsstring)
    (_ : jsstring) (index : nat) : result jsstring :=
  let? volume := volumeAt volumes index in
  let? shown := ToString volume in
  Ok (filterComplex ++ gainFilter index shown).

Definition mixArgs (inputFiles : list jsstring) (outputFile : jsstring)
    (volumesArg : JSValue) : result (list jsstring) :=
  let volumes := defaultVolumes volumesArg in
  let? args :=
    forEach (fun (args : list jsstring) file _ =>
               Ok (args ++ [str "-i"; file]))
            inputFiles 0 [] in
  let? filterComplex :=
    forEach (appendGain volumes) inputFiles 0 [] in
  let mixInputs :=
    join [] (mapi (fun (_ : jsstring) index => mixInput index)
                  inputFiles 0) in
  let filterComplex :=
    filterComplex ++ mixInputs ++ amix (List.length inputFiles) in
  Ok (args ++ [str "-filter_complex"; filterComplex;
               str "-map"; str "[out]";
               str "-c:a"; str "mp3";
               str "-b:a"; str "192k";
               str "-y";
               outputFile]).

End Mixer.
Export Mixer.


(* ================================================================== *)
(** ** The request handler and its collaborators (index.js 35-55,
       110-121, 124-305) *)
(* ================================================================== *)

Module Server.

(** What [res] is asked to send. *)
Inductive Response : Type :=
| Json (status : nat) (body : list (jsstring * JSValue))
| Attachment (headers : list (jsstring * jsstring)) (path : jsstring).

(** What node-fetch answers: a rejected promise, or a response with its
    status line and the outcome of reading the body (its length). *)
Inductive FetchOutcome : Type :=
| Rejected (e : JSError)
| Resolved (status : nat) (statusText : jsstring) (buffer : result nat).

(** How the child process ends: an [error] event (or a throwing
    [spawn]), or [close] with an exit code ([None] is [null]); and
    whether the output file was written meanwhile. *)
Inductive FfmpegOutcome : Type :=
| SpawnError (e : JSError)
| Closed (code : option nat) (outputWritten : bool).

(** How [fs.writeFileSync] ends. It opens the path with flag [w]
    before it writes, so a write that throws may leave a new file
    behind. *)
Inductive WriteOutcome : Type :=
| Written
| WriteFailed (e : JSError) (fileLeft : bool).

(** What becomes of the file stream piped into [res]: it emits [end],
    and [pipe] ends the response; or it emits [error], and the response
    is never ended; or it emits neither ([res] is closed while the file
    is piped, and the handler listens on neither [res] nor [req]). *)
Inductive StreamOutcome : Type :=
| StreamEnd
| StreamError (e : JSError)
| StreamStalled.

(** The observable steps of one request, in order. *)
Inductive Event : Type :=
| EvDownloadFile (url filepath : jsstring)
| EvFetch (url : jsstring) (outcome : FetchOutcome)
| EvWriteFile (filepath : jsstring)
| EvSpawn (args : list jsstring)
| EvCleanup (files : list jsstring)
| EvUnlink (file : jsstring) (removed : bool)
| EvRespond (r : Response).

(** The environment of a request. Every collaborator answers as a
    function of the events of the request so far. *)
Record Env : Type := {
  tempDir : jsstring;
  pathJoin : jsstring -> jsstring -> jsstring;
  uuidv4 : jsstring;
  fetch : list Event -> jsstring -> FetchOutcome;
  writeFileSync : list Event -> jsstring -> WriteOutcome;
  unlinkSync : list Event -> jsstring -> option JSError;
  ffmpeg : list Event -> list jsstring -> FfmpegOutcome;
  pipe : list Event -> jsstring -> StreamOutcome
}.

(** The scratch directory (the paths that exist), the events so far and
    the handler's [tempFiles]. *)
Record State : Type := {
  disk : list jsstring;
  trace : list Event;
  tempFiles : list jsstring
}.

(** Computations that read and change the state and may throw. *)
Definition M (A : Type) : Type := State -> result A * State.

Definition ret {A} (a : A) : M A := fun s => (Ok a, s).

Definition bind {A B} (m : M A) (k : A -> M B) : M B :=
  fun s => match m s with
           | (Ok a, s') => k a s'
           | (Throw e, s') => (Throw e, s')
           end.

Definition throw {A} (e : JSError) : M A := fun s => (Throw e, s).

(** [try { body } catch (error) { handler }] *)
Definition tryCatch {A} (body : M A) (handler : JSError -> M A) : M A :=
  fun s => match body s with
           | (Ok a, s') => (Ok a, s')
           | (Throw e, s') => handler e s'
           end.

Definition lift {A} (r : result A) : M A := fun s => (r, s).

Definition emit (e : Event) : M unit :=
  fun s => (Ok tt, {| disk := disk s; trace := trace s ++ [e];
                      tempFiles := tempFiles s |}).

Definition history : M (list Event) := fun s => (Ok (trace s), s).

Definition existsSync (file : jsstring) : M bool :=
  fun s => (Ok (if in_dec jsstring_eq_dec file (disk s) then true
                else false), s).

Definition created (file : jsstring) : M unit :=
  fun s => (Ok tt, {| disk := if in_dec jsstring_eq_dec file (disk s)
                              then disk s else file :: disk s;
                      trace := trace s; tempFiles := tempFiles s |}).

Definition removed (file : jsstring) : M unit :=
  fun s => (Ok tt, {| disk := remove jsstring_eq_dec file (disk s);
                      trace := trace s; tempFiles := tempFiles s |}).

(** [tempFiles.push(file)] *)
Definition pushTempFile (file : jsstring) : M unit :=
  fun s => (Ok tt, {| disk := disk s; trace := trace s;
                      tempFiles := tempFiles s ++ [file] |}).

Definition getTempFiles : M (list jsstring) :=
  fun s => (Ok (tempFiles s), s).

Declare Scope m_scope.
Delimit Scope m_scope with m.
Notation "x <- c ;; k" := (bind c (fun x => k))
  (at level 61, c at next level, right associativity) : m_scope.
Notation "c ;; k" := (bind c (fun _ => k))
  (at level 61, right associativity) : m_scope.
Open Scope m_scope.

Section Handler.

Variable env : Env.

(** [response.ok] of node-fetch: a status from 200 to 299. *)
Definition ok (status : nat) : bool :=
  (200 <=? status) && (status <=? 299).

(** [downloadFile(url, filepath)], index.js 35-55. Both arguments are
    strings at the only call, so the two [typeof] tests are false. *)
Definition downloadFile (url filepath : jsstring) : M unit :=
  emit (EvDownloadFile url filepath) ;;
  if eqb (trim url) [] then
    throw (Error (str "Invalid URL for download: string - " ++ [34%N]
                      ++ url ++ [34%N]))
  else if eqb (trim filepath) [] then
    throw (Error (str "Invalid filepath for download: string - " ++ [34%N]
                      ++ filepath ++ [34%N]))
  else
    h <- history ;;
    let response := fetch env h url in
    emit (EvFetch url response) ;;
    match response with
    | Rejected e => throw e
    | Resolved status statusText buffer =>
        if negb (ok status) then
          throw (Error (str "Failed to download: " ++ dec status
                            ++ str " " ++ statusText))
        else
          match buffer with
          | Throw e => throw e
          | Ok _ =>
              h <- history ;;
              match writeFileSync env h filepath with
              | WriteFailed e fileLeft =>
                  (if fileLeft then created filepath else ret tt) ;;
                  throw e
              | Written => created filepath ;; emit (EvWriteFile filepath)
              end
          end
    end.

Definition showCode (code : option nat) : jsstring :=
  match code with
  | Some c => dec c
  | None => str "null"
  end.

(** [mixAudioFiles(inputFiles, outputFile, volumes)], index.js 58-107:
    the promise settles once, on the first of [error] and [close]. *)
Definition mixAudioFiles (inputFiles : list jsstring)
    (outputFile : jsstring) (volumes : JSValue) : M unit :=
  args <- lift (mixArgs inputFiles outputFile volumes) ;;
  emit (EvSpawn args) ;;
  h <- history ;;
  match ffmpeg env h args with
  | SpawnError e => throw e
  | Closed code outputWritten =>
      (if outputWritten then created outputFile else ret tt) ;;
      match code with
      | Some 0 => ret tt
      | _ => throw (Error (str "ffmpeg process exited with code "
                               ++ showCode code))
      end
  end.

(** [cleanup(files)], index.js 110-121. *)
Fixpoint cleanupEach (files : list jsstring) : M unit :=
  match files with
  | [] => ret tt
  | file :: rest =>
      present <- existsSync file ;;
      (if present then
         tryCatch
           (h <- history ;;
            match unlinkSync env h file with
            | Some e => emit (EvUnlink file false) ;; throw e
            | None => removed file ;; emit (EvUnlink file true)
            end)
           (fun _ => ret tt)
       else ret tt) ;;
      cleanupEach rest
  end.

Definition cleanup (files : list jsstring) : M unit :=
  emit (EvCleanup files) ;; cleanupEach files.

(** [res.status(status).json(fields)]: JSON.stringify leaves out the
    properties whose value is [undefined]. *)
Definition json (status : nat) (fields : list (jsstring * JSValue))
  : Response :=
  Json status
       (filter (fun kv => match snd kv with JUndefined => false | _ => true end)
               fields).

Definition respond (r : Response) : M unit := emit (EvRespond r).

Definition stemsRequired : Response :=
  json 400 [(str "error",
             JStr (str "stems array is required and must not be empty"))].

Definition invalidStem (requestId : jsstring) (i : nat) (stem : JSValue)
  : Response :=
  json 400 [(str "error",
             JStr (str "Invalid stem at index " ++ dec i
                   ++ str ". Expected string URL or object with url property"));
            (str "received", stem);
            (str "requestId", JStr requestId)].

Definition invalidUrl (requestId : jsstring) (i : nat) (stemUrl : JSValue)
  : Response :=
  json 400 [(str "error",
             JStr (str "Invalid URL at index " ++ dec i
                   ++ str ". Expected non-empty string"));
            (str "received", stemUrl);
            (str "requestId", JStr requestId)].

Definition failed (requestId : jsstring) (error : JSError) : Response :=
  json 500 [(str "error", JStr (str "Failed to mix audio files"));
            (str "details", JStr (error_message error));
            (str "requestId", JStr requestId)].

Definition notAFunction : JSError :=
  TypeError (str "stemUrl.trim is not a function").

(** One round of the validation loop, index.js 146-202: either the 400
    response the round returns with, or the trimmed URL it pushes. The
    diagnostics evaluate [String(stem)] (line 152), a template literal
    over [stem.url] (line 163) and [stemUrl.trim()] on a truthy
    [stemUrl] (line 191); each can throw. *)
Definition validateStem (requestId : jsstring) (i : nat) (stem : JSValue)
  : result (Response + jsstring) :=
  let? _ := ToString stem in
  let? resolved :=
    match typeof stem with
    | TString => Ok (inr stem)
    | TObject =>
        if truthy stem then
          let? url := getField stem (str "url") in
          if truthy url then let? _ := ToString url in Ok (inr url)
          else Ok (inl (invalidStem requestId i stem))
        else Ok (inl (invalidStem requestId i stem))
    | _ => Ok (inl (invalidStem requestId i stem))
    end in
  match resolved with
  | inl response => Ok (inl response)
  | inr stemUrl =>
      match stemUrl with
      | JStr url =>
          if eqb (trim url) [] then Ok (inl (invalidUrl requestId i stemUrl))
          else Ok (inr (trim url))
      | _ =>
          if truthy stemUrl then Throw notAFunction
          else Ok (inl (invalidUrl requestId i stemUrl))
      end
  end.

(** The validation loop from index [i] on. *)
Fixpoint validateStems (requestId : jsstring) (stems : list JSValue)
    (i : nat) (validatedStems : list jsstring)
  : result (Response + list jsstring) :=
  match stems with
  | [] => Ok (inr validatedStems)
  | stem :: rest =>
      let? v := validateStem requestId i stem in
      match v with
      | inl response => Ok (inl response)
      | inr url => validateStems requestId rest (S i) (validatedStems ++ [url])
      end
  end.

(** The extension of a validated URL, index.js 215-247. The URL is a
    string, so nothing in the [try] block throws. *)
Definition extension (stemUrl : jsstring) : jsstring :=
  let urlParts := split 46 stemUrl in
  if 1 <? List.length urlParts then
    let lastPart := last urlParts [] in
    if 0 <? List.length lastPart then hd [] (split 63 lastPart)
    else str "wav"
  else str "wav".

(** [`${requestId}_stem_${i}.${extension}`] *)
Definition filename (requestId : jsstring) (i : nat) (stemUrl : jsstring)
  : jsstring :=
  requestId ++ str "_stem_" ++ dec i ++ str "." ++ extension stemUrl.

(** The download loop from index [i] on, index.js 209-259. *)
Fixpoint downloadStems (validatedStems : list jsstring) (i : nat)
    (inputFiles : list jsstring) : M (list jsstring) :=
  match validatedStems with
  | [] => ret inputFiles
  | stemUrl :: rest =>
      let filepath :=
        pathJoin env (tempDir env) (filename (uuidv4 env) i stemUrl) in
      downloadFile stemUrl filepath ;;
      pushTempFile filepath ;;
      downloadStems rest (S i) (inputFiles ++ [filepath])
  end.

Definition elements (v : JSValue) : list JSValue :=
  match v with
  | JArr elems => elems
  | _ => []
  end.

Definition attachment (requestId outputPath : jsstring) : Response :=
  Attachment
    [(str "Content-Type", str "audio/mpeg");
     (str "Content-Disposition",
      str "attachment; filename=" ++ [34%N] ++ str "mixed_" ++ requestId
          ++ str ".mp3" ++ [34%N])]
    outputPath.

(** The handler once the stems are validated, index.js 207-293: the
    download loop, the mix and the response. The response is complete,
    and on record, when the file stream ends; [cleanup(tempFiles)] is
    called from the two callbacks of the stream only, after [end]
    (the delay of the timer is left out) and after [error]. *)
Definition downloadAndMix (validatedStems : list jsstring)
    (volumes : JSValue) : M unit :=
  let requestId := uuidv4 env in
  inputFiles <- downloadStems validatedStems 0 [] ;;
  let outputPath :=
    pathJoin env (tempDir env) (requestId ++ str "_mixed.mp3") in
  pushTempFile outputPath ;;
  mixAudioFiles inputFiles outputPath volumes ;;
  present <- existsSync outputPath ;;
  if negb present then
    throw (Error (str "Mixed audio file was not created"))
  else
    h <- history ;;
    match pipe env h outputPath with
    | StreamEnd =>
        respond (attachment requestId outputPath) ;;
        files <- getTempFiles ;; cleanup files
    | StreamError _ => files <- getTempFiles ;; cleanup files
    | StreamStalled => ret tt
    end.

(** The [try] block of the handler, index.js 131-293, on the decoded
    body. *)
Definition tryBlock (body : JSValue) : M unit :=
  let requestId := uuidv4 env in
  stems <- lift (getField body (str "stems")) ;;
  volumes <- lift (getField body (str "volumes")) ;;
  if negb (truthy stems) || negb (isArray stems)
     || (List.length (elements stems) =? 0)
  then respond stemsRequired
  else
    validated <- lift (validateStems requestId (elements stems) 0 []) ;;
    match validated with
    | inl response => respond response
    | inr validatedStems => downloadAndMix validatedStems volumes
    end.

(** The [catch] block, index.js 295-304. *)
Definition catchBlock (error : JSError) : M unit :=
  files <- getTempFiles ;;
  cleanup files ;;
  respond (failed (uuidv4 env) error).

(** The handler of POST /mix, index.js 124-305. *)
Definition mix (body : JSValue) : M unit :=
  tryCatch (tryBlock body) catchBlock.

(** A request against a scratch directory: the final state. *)
Definition handle (body : JSValue) (disk0 : list jsstring) : State :=
  snd (mix body {| disk := disk0; trace := []; tempFiles := [] |}).

End Handler.

(** A sample environment: every download answers 200 except the URLs
    of [failing], which answer 404; ffmpeg exits with 0 and writes its
    output; no file operation fails. *)
Definition sampleEnv (failing : list jsstring) : Env :=
  {| tempDir := str "/app/temp";
     pathJoin := fun a b => a ++ str "/" ++ b;
     uuidv4 := str "id";
     fetch := fun _ url =>
       if in_dec jsstring_eq_dec url failing
       then Resolved 404 (str "Not Found") (Ok 0)
       else Resolved 200 (str "OK") (Ok 4);
     writeFileSync := fun _ _ => Written;
     unlinkSync := fun _ _ => None;
     ffmpeg := fun _ _ => Closed (Some 0) true;
     pipe := fun _ _ => StreamEnd |}.

End Server.
Export Server.

(* ================================================================== *)
(** ** Vocabulary of the statements *)
(* ================================================================== *)

Module Observations.

(** A stem as the specification accepts it: a string that is not empty
    once trimmed, or an object whose [url] is such a string. *)
Definition acceptable (stem : JSValue) : bool :=
  match stem with
  | JStr s => negb (eqb (trim s) [])
  | JObj props =>
      match lookup (str "url") props with
      | Some (JStr u) => negb (eqb (trim u) [])
      | _ => false
      end
  | _ => false
  end.

(** The events of a download. *)
Definition isDownloadEvent (e : Event) : Prop :=
  match e with
  | EvDownloadFile _ _ | EvFetch _ _ | EvWriteFile _ => True
  | _ => False
  end.

Definition notFetch (e : Event) : Prop :=
  match e with
  | EvFetch _ _ => False
  | _ => True
  end.

(** A GET answered with a status outside 200-299. *)
Definition failedFetch (e : Event) : Prop :=
  match e with
  | EvFetch _ (Resolved status _ _) => ok status = false
  | _ => False
  end.

(** A computation that only adds events, all of them of kind [Q]. *)
Definition appends (Q : Event -> Prop) {A} (m : M A) : Prop :=
  forall s, exists ev, trace (snd (m s)) = trace s ++ ev /\ Forall Q ev.

End Observations.
Export Observations.

(* ================================================================== *)
(** ** The earlier variant of the handler kept in index.js (333-593) *)
(* ================================================================== *)

Module Earlier.

(** One round of the validation loop, index.js 463-493. Its
    diagnostics hand the values to [console] as they are. *)
Definition validateStem (requestId : jsstring) (i : nat) (stem : JSValue)
  : result (Response + jsstring) :=
  let? resolved :=
    match typeof stem with
    | TString => Ok (inr stem)
    | TObject =>
        if truthy stem then
          let? url := getField stem (str "url") in
          if truthy url then Ok (inr url)
          else Ok (inl (invalidStem requestId i stem))
        else Ok (inl (invalidStem requestId i stem))
    | _ => Ok (inl (invalidStem requestId i stem))
    end in
  match resolved with
  | inl response => Ok (inl response)
  | inr stemUrl =>
      match stemUrl with
      | JStr url =>
          if eqb (trim url) [] then Ok (inl (invalidUrl requestId i stemUrl))
          else Ok (inr (trim url))
      | _ => Ok (inl (invalidUrl requestId i stemUrl))
      end
  end.

(** The extension of a validated URL, index.js 502-510. *)
Definition extension (stemUrl : jsstring) : jsstring :=
  let urlParts := split 46 stemUrl in
  if 1 <? List.length urlParts then hd [] (split 63 (last urlParts []))
  else str "wav".

End Earlier.

(* ================================================================== *)
(** ** The oldest variant of the handler (unnamed/part_000) *)
(* ================================================================== *)

Module Oldest.

Definition notAFunction : JSError :=
  TypeError (str "stem.url.split is not a function").

(** [stem.url.split('.').pop() || 'wav'], part_000 161: the stems are
    not validated, and the extension is read off [stem.url] of each
    stem as it came. *)
Definition extension (stem : JSValue) : result jsstring :=
  let? url := getField stem (str "url") in
  match url with
  | JStr u =>
      match last (split 46 u) [] with
      | [] => Ok (str "wav")
      | lastPart => Ok lastPart
      end
  | JUndefined | JNull => Throw cannotRead
  | _ => Throw notAFunction
  end.

End Oldest.

(* ================================================================== *)
(** ** Vocabulary of the further statements *)
(* ================================================================== *)

Module Outcomes.

(** The responses, the processes started and the cleanup calls of a
    record of events, in order. *)
Definition responses (t : list Event) : list Response :=
  flat_map (fun e => match e with EvRespond r => [r] | _ => [] end) t.

Definition spawns (t : list Event) : list (list jsstring) :=
  flat_map (fun e => match e with EvSpawn args => [args] | _ => [] end) t.

Definition cleanups (t : list Event) : list (list jsstring) :=
  flat_map (fun e => match e with EvCleanup files => [files] | _ => [] end) t.

(** The calls of [downloadFile] of a record of events, in order. *)
Definition downloadCalls (t : list Event) : list (jsstring * jsstring) :=
  flat_map (fun e => match e with
                     | EvDownloadFile url filepath => [(url, filepath)]
                     | _ => []
                     end) t.

(** The paths the download loop gives the validated URLs from index [i]
    on, and the path of the mix. *)
Fixpoint scratchPaths (env : Env) (validatedStems : list jsstring) (i : nat)
  : list jsstring :=
  match validatedStems with
  | [] => []
  | stemUrl :: rest =>
      pathJoin env (tempDir env) (filename (uuidv4 env) i stemUrl)
      :: scratchPaths env rest (S i)
  end.

Definition outputPath (env : Env) : jsstring :=
  pathJoin env (tempDir env) (uuidv4 env ++ str "_mixed.mp3").

(** The URL a stem stands for, trimmed. *)
Definition trimmedUrl (stem : JSValue) : jsstring :=
  match stem with
  | JStr s => trim s
  | JObj props =>
      match lookup (str "url") props with
      | Some (JStr u) => trim u
      | _ => []
      end
  | _ => []
  end.

(** An acceptable stem whose diagnostics print: an object stem has no
    own [toString] property. *)
Definition wellFormed (stem : JSValue) : bool :=
  acceptable stem
  && match stem with
     | JObj props =>
         match lookup (str "toString") props with
         | Some _ => false
         | None => true
         end
     | _ => true
     end.

(** The gain of the input at [index] under an array of numbers: the
    entry when there is one and it is neither zero nor NaN, else 1. *)
Definition gainOf (xs : list JSNumber) (index : nat) : JSNumber :=
  match nth_error xs index with
  | Some x => if truthy (JNum x) then x else one
  | None => one
  end.

(** An environment in which nothing fails: every GET is answered in
    200-299 with a readable body, files are written and deleted, ffmpeg
    exits with 0 and leaves its output, the file stream ends, and no
    path is blank. *)
Record reliable (env : Env) : Prop := {
  fetch_ok : forall h url,
    exists status statusText n,
      fetch env h url = Resolved status statusText (Ok n)
      /\ ok status = true;
  write_ok : forall h path, writeFileSync env h path = Written;
  unlink_ok : forall h path, unlinkSync env h path = None;
  ffmpeg_ok : forall h args, ffmpeg env h args = Closed (Some 0) true;
  pipe_ok : forall h path, pipe env h path = StreamEnd;
  path_ok : forall a b, trim (pathJoin env a b) <> []
}.

(** A path at which a write that threw may have left a file. *)
Definition leftByFailedWrite (env : Env) (p : jsstring) : Prop :=
  exists h e, writeFileSync env h p = WriteFailed e true.

(** The sample environment with a full disk: every write throws and
    leaves the file it opened. *)
Definition fullDiskEnv : Env :=
  {| tempDir := tempDir (sampleEnv []);
     pathJoin := pathJoin (sampleEnv []);
     uuidv4 := uuidv4 (sampleEnv []);
     fetch := fetch (sampleEnv []);
     writeFileSync := fun _ _ =>
       WriteFailed (Error (str "ENOSPC: no space left on device, write"))
                   true;
     unlinkSync := unlinkSync (sampleEnv []);
     ffmpeg := ffmpeg (sampleEnv []);
     pipe := pipe (sampleEnv []) |}.

(** The sample environment with a file stream that fails while the mix
    is piped into the response. *)
Definition brokenStreamEnv : Env :=
  {| tempDir := tempDir (sampleEnv []);
     pathJoin := pathJoin (sampleEnv []);
     uuidv4 := uuidv4 (sampleEnv []);
     fetch := fetch (sampleEnv []);
     writeFileSync := writeFileSync (sampleEnv []);
     unlinkSync := unlinkSync (sampleEnv []);
     ffmpeg := ffmpeg (sampleEnv []);
     pipe := fun _ _ => StreamError (Error (str "EIO: i/o error, read")) |}.

(** The sample environment with a mixer that exits with code 1 and
    writes nothing. *)
Definition brokenMixerEnv : Env :=
  {| tempDir := tempDir (sampleEnv []);
     pathJoin := pathJoin (sampleEnv []);
     uuidv4 := uuidv4 (sampleEnv []);
     fetch := fetch (sampleEnv []);
     writeFileSync := writeFileSync (sampleEnv []);
     unlinkSync := unlinkSync (sampleEnv []);
     ffmpeg := fun _ _ => Closed (Some 1) false;
     pipe := pipe (sampleEnv []) |}.

End Outcomes.
Export Outcomes.

(* ================================================================== *)
(** ** Properties of the argument list *)
(* ================================================================== *)

Module MixerFacts.

Lemma rbind_Ok {A B} (r : result A) (k : A -> result B) (b : B) :
  rbind r k = Ok b -> exists a, r = Ok a /\ k a = Ok b.
Proof.
  destruct r as [a | e]; simpl; intros H.
  - exists a. split; [reflexivity | exact H].
  - discriminate H.
Qed.

(** The first loop lists the inputs in order, each behind [-i]. *)
Lemma forEach_inputs (l : list jsstring) :
  forall (i : nat) (acc : list jsstring),
    forEach (fun (args : list jsstring) file (_ : nat) =>
               Ok (args ++ [str "-i"; file])) l i acc
    = Ok (acc ++ flat_map (fun file => [str "-i"; file]) l).
Proof.
  induction l as [| file rest IH]; intros i acc; simpl.
  - now rewrite app_nil_r.
  - rewrite IH. now rewrite <- app_assoc.
Qed.

Lemma appendGain_shown volumes fc file index :
  appendGain volumes fc file index
  = let? s := shownVolume volumes index in Ok (fc ++ gainFilter index s).
Proof.
  unfold appendGain, shownVolume.
  destruct (volumeAt volumes index) as [v | e]; simpl; [| reflexivity].
  destruct (ToString v); reflexivity.
Qed.

(** What the second loop returns, when it returns. *)
Lemma forEach_gain_inv volumes (l : list jsstring) :
  forall (i : nat) (acc fc : jsstring),
    forEach (appendGain volumes) l i acc = Ok fc ->
    exists shown : list jsstring,
      List.length shown = List.length l
      /\ (forall j, j < List.length l ->
            shownVolume volumes (i + j) = Ok (nth j shown []))
      /\ fc = acc ++ List.concat (mapi (fun s index => gainFilter index s) shown i).
Proof.
  induction l as [| file rest IH]; intros i acc fc H; simpl in H.
  - exists []. inversion H; subst. simpl.
    repeat split; [intros j Hj; lia | now rewrite app_nil_r].
  - apply rbind_Ok in H. destruct H as (acc' & Hstep & Hrest).
    rewrite appendGain_shown in Hstep.
    apply rbind_Ok in Hstep. destruct Hstep as (s & Hs & Hacc).
    inversion Hacc; subst acc'; clear Hacc.
    apply IH in Hrest. destruct Hrest as (shown & Hlen & Hnth & Hfc).
    exists (s :: shown). simpl. split; [now rewrite Hlen |]. split.
    + intros [| j] Hj.
      * now rewrite Nat.add_0_r.
      * replace (i + S j) with (S i + j) by lia. apply Hnth. lia.
    + rewrite Hfc. now rewrite <- app_assoc.
Qed.

(** The second loop returns as soon as every volume it reads prints. *)
Lemma forEach_gain_total volumes (l : list jsstring) :
  forall (i : nat) (acc : jsstring),
    (forall j, j < List.length l ->
       exists s, shownVolume volumes (i + j) = Ok s) ->
    exists fc, forEach (appendGain volumes) l i acc = Ok fc.
Proof.
  induction l as [| file rest IH]; intros i acc H; simpl.
  - now exists acc.
  - rewrite appendGain_shown.
    destruct (H 0) as (s & Hs); [simpl; lia |].
    rewrite Nat.add_0_r in Hs. rewrite Hs. simpl.
    apply IH. intros j Hj.
    replace (S i + j) with (i + S j) by lia. apply H. simpl. lia.
Qed.

(** The loop reads [volumes] at the indices of its inputs only. *)
Lemma forEach_gain_ext volumes volumes' (l : list jsstring) :
  forall (i : nat) (acc : jsstring),
    (forall j, j < List.length l ->
       volumeAt volumes (i + j) = volumeAt volumes' (i + j)) ->
    forEach (appendGain volumes) l i acc
    = forEach (appendGain volumes') l i acc.
Proof.
  induction l as [| file rest IH]; intros i acc H; simpl.
  - reflexivity.
  - unfold appendGain at 1 3.
    specialize (H 0) as H0. rewrite Nat.add_0_r in H0.
    rewrite H0 by (simpl; lia).
    destruct (volumeAt volumes' i) as [v | e]; simpl; [| reflexivity].
    destruct (ToString v) as [s | e]; simpl; [| reflexivity].
    apply IH. intros j Hj.
    replace (S i + j) with (i + S j) by lia. apply H. simpl. lia.
Qed.

Lemma join_nil (l : list jsstring) : join [] l = List.concat l.
Proof.
  induction l as [| x rest IH]; simpl; [reflexivity |].
  destruct rest as [| y rest'].
  - simpl. now rewrite app_nil_r.
  - rewrite IH. reflexivity.
Qed.

Lemma mapi_mixInput (l : list jsstring) :
  forall i, mapi (fun (_ : jsstring) index => mixInput index) l i
            = map mixInput (seq i (List.length l)).
Proof.
  induction l as [| x rest IH]; intros i; simpl; [reflexivity |].
  now rewrite IH.
Qed.

(** [mixArgs] with its loops named. *)
Lemma mixArgs_unfold inputFiles outputFile volumes :
  mixArgs inputFiles outputFile volumes
  = let? fc := forEach (appendGain (defaultVolumes volumes)) inputFiles 0 [] in
    Ok (flat_map (fun file => [str "-i"; file]) inputFiles
        ++ [str "-filter_complex";
            fc ++ List.concat (map mixInput (seq 0 (List.length inputFiles)))
               ++ amix (List.length inputFiles);
            str "-map"; str "[out]"; str "-c:a"; str "mp3";
            str "-b:a"; str "192k"; str "-y"; outputFile]).
Proof.
  unfold mixArgs. rewrite forEach_inputs. simpl rbind at 1.
  rewrite join_nil, mapi_mixInput. reflexivity.
Qed.

(** Total form: when every volume read prints, [mixArgs] returns, and
    what it returns is the argument list below. *)
Lemma mixArgs_returns inputFiles outputFile volumes :
  printable volumes (List.length inputFiles) ->
  exists shown : list jsstring,
    List.length shown = List.length inputFiles
    /\ (forall index, index < List.length inputFiles ->
          shownVolume (defaultVolumes volumes) index
          = Ok (nth index shown []))
    /\ mixArgs inputFiles outputFile volumes
       = Ok (flat_map (fun file => [str "-i"; file]) inputFiles
             ++ [str "-filter_complex";
                 List.concat (mapi (fun s index => gainFilter index s) shown 0)
                   ++ List.concat
                        (map mixInput (seq 0 (List.length inputFiles)))
                   ++ amix (List.length inputFiles);
                 str "-map"; str "[out]"; str "-c:a"; str "mp3";
                 str "-b:a"; str "192k"; str "-y"; outputFile]).
Proof.
  intros Hp.
  destruct (forEach_gain_total (defaultVolumes volumes) inputFiles 0 [])
    as (fc & Hfc).
  { intros j Hj. simpl. apply Hp. exact Hj. }
  destruct (forEach_gain_inv _ _ _ _ Hfc) as (shown & Hlen & Hnth & Heq).
  exists shown. split; [exact Hlen |]. split.
  - intros index Hi. apply (Hnth index Hi).
  - rewrite mixArgs_unfold, Hfc. simpl. rewrite Heq. reflexivity.
Qed.

(** Numbers, strings, booleans, [null] and [undefined] always print. *)
Lemma ToString_primitive (v : JSValue) :
  match v with JArr _ | JObj _ => False | _ => True end ->
  exists s, ToString v = Ok s.
Proof.
  destruct v as [| | [|] | x | s | l | props]; simpl; intros H;
    try contradiction; eexists; reflexivity.
Qed.

(** An array of numbers, or no array at all, is printable. *)
Lemma numeric_printable (xs : list JSNumber) (n : nat) :
  printable (JArr (map JNum xs)) n /\ printable JUndefined n.
Proof.
  split; intros index _; unfold shownVolume, volumeAt; simpl.
  - destruct (nth_in_or_default index (map JNum xs) JUndefined) as [Hin | Hd].
    + apply in_map_iff in Hin. destruct Hin as (x & Hx & _).
      rewrite <- Hx. unfold or_else.
      destruct (truthy (JNum x)); eexists; reflexivity.
    + rewrite Hd. eexists; reflexivity.
  - destruct index; eexists; reflexivity.
Qed.

Lemma nth_firstn_lt {A} (d : A) :
  forall (n j : nat) (l : list A), j < n -> nth j (firstn n l) d = nth j l d.
Proof.
  induction n as [| n IH]; intros j l Hj; [lia |].
  destruct l as [| x l]; [now destruct j |].
  destruct j as [| j]; simpl; [reflexivity |].
  apply IH. lia.
Qed.

(** Only arrays and objects fail to print, and what is thrown then is
    the TypeError of the conversion to a primitive. *)
Lemma ToString_throws :
  forall (v : JSValue) (e : JSError),
    ToString v = Throw e -> e = cannotConvert /\ truthy v = true.
Proof.
  fix IH 1. intros v e H.
  destruct v as [| | b | x | s | elems | props]; simpl in H;
    try discriminate H.
  - destruct b; discriminate H.
  - split; [| reflexivity].
    revert elems e H. fix IHl 1. intros [| x rest] e H;
      [discriminate H |].
    destruct (match x with
              | JUndefined | JNull => Ok []
              | _ => ToString x
              end) as [s | e'] eqn:Hx; simpl in H.
    + match type of IHl with
      | forall elems e, ?f elems = _ -> _ =>
          assert (Hj : f rest = Throw e)
      end.
      { destruct rest as [| y rest']; [discriminate H |].
        match type of H with
        | rbind ?r _ = _ => destruct r as [r' | e'']; simpl in H
        end; [discriminate H | inversion H; reflexivity]. }
      exact (IHl rest e Hj).
    + inversion H; subst e'. clear H.
      assert (Hx' : ToString x = Throw e)
        by (destruct x; try discriminate Hx; exact Hx).
      exact (proj1 (IH x e Hx')).
  - destruct (lookup (str "toString") props); [| discriminate H].
    inversion H. split; reflexivity.
Qed.

(** Whatever reading and printing a volume throws is a TypeError. *)
Lemma shownVolume_throws volumes index e :
  shownVolume volumes index = Throw e -> exists msg, e = TypeError msg.
Proof.
  unfold shownVolume, volumeAt.
  destruct (getIndex volumes index) as [v | e0] eqn:Hg; simpl; intros H.
  - apply ToString_throws in H. destruct H as (-> & _).
    eexists. reflexivity.
  - inversion H; subst e0.
    destruct volumes; simpl in Hg; try discriminate Hg;
      inversion Hg; eexists; reflexivity.
Qed.

(** The second loop throws as soon as a volume it reads does not
    print: what it throws is the error of the first such volume. *)
Lemma forEach_gain_throws volumes (l : list jsstring) :
  forall (i : nat) (acc : jsstring) (j : nat) (e : JSError),
    j < List.length l ->
    shownVolume volumes (i + j) = Throw e ->
    exists e',
      forEach (appendGain volumes) l i acc = Throw e'
      /\ exists j', j' <= j /\ shownVolume volumes (i + j') = Throw e'.
Proof.
  induction l as [| file rest IH]; intros i acc j e Hj He; simpl in Hj;
    [lia |].
  simpl. rewrite appendGain_shown.
  destruct (shownVolume volumes i) as [s | e0] eqn:H0; simpl.
  - destruct j as [| j]; [rewrite Nat.add_0_r in He; congruence |].
    destruct (IH (S i) (acc ++ gainFilter i s) j e) as (e' & Hf & j' & Hle & Hs').
    + lia.
    + now replace (S i + j) with (i + S j) by lia.
    + exists e'. split; [exact Hf |]. exists (S j'). split; [lia |].
      now replace (i + S j') with (S i + j') by lia.
  - exists e0. split; [reflexivity |]. exists 0. split; [lia |].
    now rewrite Nat.add_0_r.
Qed.

(** C1 (divergence). A request with one stem and [volumes = [0]]: the
    entry at index 0 < M is the number 0, yet the gain written for the
    stem is 1, in [mixAudioFiles] and so in the process the handler
    starts. *)
Theorem zero_volume_plays_at_unity :
  let volumes := JArr [JNum (Zero false)] in
  getIndex volumes 0 = Ok (JNum (Zero false))
  /\ volumeAt volumes 0 = Ok (JNum one)
  /\ mixArgs [str "/app/temp/id_stem_0.wav"] (str "/app/temp/id_mixed.mp3")
             volumes
     = Ok [str "-i"; str "/app/temp/id_stem_0.wav";
           str "-filter_complex";
           str "[0:a]volume=1[a0];[a0]amix=inputs=1:duration=longest[out]";
           str "-map"; str "[out]"; str "-c:a"; str "mp3";
           str "-b:a"; str "192k"; str "-y"; str "/app/temp/id_mixed.mp3"]
  /\ In (EvSpawn
           [str "-i"; str "/app/temp/id_stem_0.wav";
            str "-filter_complex";
            str "[0:a]volume=1[a0];[a0]amix=inputs=1:duration=longest[out]";
            str "-map"; str "[out]"; str "-c:a"; str "mp3";
            str "-b:a"; str "192k"; str "-y"; str "/app/temp/id_mixed.mp3"])
        (trace (handle (sampleEnv [])
                       (JObj [(str "stems", JArr [JStr (str "https://x/a.wav")]);
                              (str "volumes", volumes)])
                       [])).
Proof.
  split; [reflexivity |]. split; [reflexivity |].
  split; [vm_compute; reflexivity |].
  vm_compute. do 3 right. left. reflexivity.
Qed.

(** C9 (counterexample). A truthy volume of type object that is not
    interpolated: an object with an own [toString] property has no
    string conversion, so the template literal throws and no argument
    list is built. *)
Lemma object_volume_without_conversion :
  truthy (JObj [(str "toString", JNum one)]) = true
  /\ mixArgs [str "f"] (str "o") (JArr [JObj [(str "toString", JNum one)]])
     = Throw cannotConvert
  /\ ~ (exists args,
          mixArgs [str "f"] (str "o")
                  (JArr [JObj [(str "toString", JNum one)]]) = Ok args).
Proof.
  repeat split. intros (args & H). discriminate H.
Qed.

(** C9 (amended). Whenever the volumes read for the inputs have a
    string conversion, the [-filter_complex] argument holds, at each
    index, [volume=1] for a falsy entry (among them the numbers 0 and
    -0, [null] and NaN) and the string conversion of the entry itself
    for a truthy one, of whatever type: nothing else is tested. Numbers
    of any sign and size and strings always convert, a string to
    itself. Whenever an entry read for an input has no string
    conversion, as every object with an own [toString] property,
    [mixAudioFiles] throws a TypeError: no argument list is built and
    no process is started. *)
Theorem falsy_volume_is_unity_truthy_is_printed :
  forall (inputFiles : list jsstring) (outputFile : jsstring)
         (volumes : JSValue),
    (printable volumes (List.length inputFiles) ->
     exists (args : list jsstring) (shown : list jsstring),
       mixArgs inputFiles outputFile volumes = Ok args
       /\ List.length shown = List.length inputFiles
       /\ nth_error args (2 * List.length inputFiles + 1)
          = Some (List.concat
                    (mapi (fun s index => gainFilter index s) shown 0)
                  ++ List.concat
                       (map mixInput (seq 0 (List.length inputFiles)))
                  ++ amix (List.length inputFiles))
       /\ (forall index, index < List.length inputFiles ->
             exists v,
               getIndex (defaultVolumes volumes) index = Ok v
               /\ (truthy v = false -> nth index shown [] = str "1")
               /\ (truthy v = true -> ToString v = Ok (nth index shown [])))
       /\ (forall neg, truthy (JNum (Zero neg)) = false)
       /\ truthy JNull = false
       /\ truthy (JNum NaN) = false
       /\ (forall x, ToString (JNum x) = Ok (numberToString x))
       /\ (forall s, ToString (JStr s) = Ok s)
       /\ (forall props, lookup (str "toString") props = None ->
             ToString (JObj props) = Ok (str "[object Object]")))
    /\ (forall (index : nat) (v : JSValue) (e : JSError),
          index < List.length inputFiles ->
          getIndex (defaultVolumes volumes) index = Ok v ->
          ToString v = Throw e ->
          exists msg,
            mixArgs inputFiles outputFile volumes = Throw (TypeError msg)
            /\ forall (env : Env) (s : State),
                 mixAudioFiles env inputFiles outputFile volumes s
                 = (Throw (TypeError msg), s))
    /\ (forall props x,
          lookup (str "toString") props = Some x ->
          truthy (JObj props) = true
          /\ ToString (JObj props) = Throw cannotConvert).
Proof.
  intros inputFiles outputFile volumes. split; [| split].
  - intros Hp.
    destruct (mixArgs_returns inputFiles outputFile Hp)
      as (shown & Hlen & Hnth & Hargs).
    eexists; exists shown. split; [exact Hargs |]. split; [exact Hlen |].
    split.
    { rewrite nth_error_app2.
      - rewrite (flat_map_constant_length (c := 2)) by reflexivity.
        replace (2 * List.length inputFiles + 1 - List.length inputFiles * 2)
          with 1 by lia.
        reflexivity.
      - rewrite (flat_map_constant_length (c := 2)) by reflexivity. lia. }
    split.
    { intros index Hi. specialize (Hnth index Hi).
      unfold shownVolume, volumeAt in Hnth.
      destruct (getIndex (defaultVolumes volumes) index) as [v | e];
        simpl in Hnth; [| discriminate Hnth].
      exists v. split; [reflexivity |]. unfold or_else in Hnth. split.
      - intros Hf. rewrite Hf in Hnth. simpl in Hnth.
        now inversion Hnth.
      - intros Ht. rewrite Ht in Hnth. exact Hnth. }
    repeat split; try reflexivity.
    intros props Hnone. simpl. now rewrite Hnone.
  - intros index v e Hi Hg Hs.
    destruct (@ToString_throws v e Hs) as (_ & Ht).
    assert (Hshown : shownVolume (defaultVolumes volumes) (0 + index)
                     = Throw e).
    { unfold shownVolume, volumeAt. simpl. rewrite Hg. simpl.
      unfold or_else. rewrite Ht. exact Hs. }
    destruct (@forEach_gain_throws (defaultVolumes volumes) inputFiles
                0 [] index e Hi Hshown) as (e' & Hf & j' & _ & Hs').
    destruct (@shownVolume_throws _ _ _ Hs') as (msg & ->).
    assert (Hargs : mixArgs inputFiles outputFile volumes
                    = Throw (TypeError msg)).
    { rewrite mixArgs_unfold, Hf. reflexivity. }
    exists msg. split; [exact Hargs |].
    intros env s. unfold mixAudioFiles, bind, lift. now rewrite Hargs.
  - intros props x Hl. split; [reflexivity |]. simpl. now rewrite Hl.
Qed.

(** C9 (amended), at a volumes array holding 0, null, NaN, 0.5, the string "2" and
    an empty object. *)
Lemma falsy_volume_is_unity_truthy_is_printed_witness :
  exists args : list jsstring,
    mixArgs (repeat (str "f") 6) (str "o")
            (JArr [JNum (Zero false); JNull; JNum NaN;
                   JNum (Dec false 5 (-1)); JStr (str "2"); JObj []])
    = Ok args
    /\ nth_error args 13
       = Some (str "[0:a]volume=1[a0];[1:a]volume=1[a1];[2:a]volume=1[a2];"
               ++ str "[3:a]volume=0.5[a3];[4:a]volume=2[a4];"
               ++ str "[5:a]volume=[object Object][a5];"
               ++ str "[a0][a1][a2][a3][a4][a5]"
               ++ str "amix=inputs=6:duration=longest[out]").
Proof.
  destruct (proj1 (@falsy_volume_is_unity_truthy_is_printed
                     (repeat (str "f") 6) (str "o")
                     (JArr [JNum (Zero false); JNull; JNum NaN;
                            JNum (Dec false 5 (-1)); JStr (str "2");
                            JObj []])))
    as (args & shown & Hargs & _).
  - intros index Hi. simpl in Hi.
    do 6 (destruct index as [| index]; [eexists; reflexivity |]).
    lia.
  - exists args. split; [exact Hargs |].
    vm_compute in Hargs. inversion Hargs. reflexivity.
Defined.

(** Two volumes arrays that agree on the indices of the inputs give
    the same argument list. *)
Lemma mixArgs_reads_prefix :
  forall (inputFiles : list jsstring) (outputFile : jsstring)
         (vols vols' : list JSValue),
    firstn (List.length inputFiles) vols
    = firstn (List.length inputFiles) vols' ->
    mixArgs inputFiles outputFile (JArr vols)
    = mixArgs inputFiles outputFile (JArr vols').
Proof.
  intros inputFiles outputFile vols vols' Heq.
  rewrite !mixArgs_unfold. simpl defaultVolumes.
  rewrite (forEach_gain_ext (JArr vols) (JArr vols')); [reflexivity |].
  intros j Hj. simpl. unfold volumeAt. simpl.
  rewrite <- (nth_firstn_lt JUndefined vols Hj).
  rewrite <- (nth_firstn_lt JUndefined vols' Hj).
  now rewrite Heq.
Qed.

End MixerFacts.

(* ================================================================== *)
(** ** Properties of cleanup *)
(* ================================================================== *)

Module CleanupFacts.

(** One pass over the list: it returns normally, attempts to unlink
    only files of the list that were on the disk, never adds a file, and
    leaves each file of the list either gone or with a failed attempt
    of its own on record. *)
Lemma cleanupEach_spec (env : Env) (files : list jsstring) :
  forall s : State,
    exists (unlinks : list Event) (d' : list jsstring),
      cleanupEach env files s
      = (Ok tt, {| disk := d'; trace := trace s ++ unlinks;
                   tempFiles := tempFiles s |})
      /\ incl d' (disk s)
      /\ (forall e, In e unlinks ->
            exists f r, e = EvUnlink f r /\ In f files /\ In f (disk s))
      /\ (forall f, In f files ->
            ~ In f d' \/ In (EvUnlink f false) unlinks).
Proof.
  induction files as [| file rest IH]; intros s.
  - exists [], (disk s). simpl. rewrite app_nil_r.
    destruct s; simpl. repeat split.
    + apply incl_refl.
    + intros e [].
    + intros f [].
  - simpl. unfold bind at 1. unfold existsSync at 1.
    destruct (in_dec jsstring_eq_dec file (disk s)) as [Hin | Hout].
    + unfold bind at 1. unfold tryCatch, bind at 1. unfold history at 1.
      destruct (unlinkSync env (trace s) file) as [err |] eqn:Hu.
      * (* the deletion fails and is caught *)
        unfold bind, emit, throw, ret. simpl.
        destruct (IH {| disk := disk s;
                        trace := trace s ++ [EvUnlink file false];
                        tempFiles := tempFiles s |})
          as (unlinks & d' & Heq & Hincl & Hev & Hgone).
        simpl in *. rewrite Heq.
        exists (EvUnlink file false :: unlinks), d'.
        rewrite <- app_assoc. simpl. repeat split.
        -- exact Hincl.
        -- intros e [He | He].
           ++ exists file, false. subst e. auto.
           ++ destruct (Hev e He) as (f & r & -> & Hf & Hd).
              exists f, r. auto.
        -- intros f [Hf | Hf].
           ++ subst f. right. now left.
           ++ destruct (Hgone f Hf) as [Hg | Hg]; [now left |].
              right. now right.
      * (* the deletion succeeds *)
        unfold bind, removed, emit, ret. simpl.
        destruct (IH {| disk := remove jsstring_eq_dec file (disk s);
                        trace := trace s ++ [EvUnlink file true];
                        tempFiles := tempFiles s |})
          as (unlinks & d' & Heq & Hincl & Hev & Hgone).
        simpl in *. rewrite Heq.
        exists (EvUnlink file true :: unlinks), d'.
        rewrite <- app_assoc. simpl. repeat split.
        -- intros x Hx. apply Hincl in Hx.
           apply in_remove in Hx. tauto.
        -- intros e [He | He].
           ++ exists file, true. subst e. auto.
           ++ destruct (Hev e He) as (f & r & -> & Hf & Hd).
              exists f, r. apply in_remove in Hd. tauto.
        -- intros f [Hf | Hf].
           ++ subst f. left. intros Hd. apply Hincl in Hd.
              now apply remove_In in Hd.
           ++ destruct (Hgone f Hf) as [Hg | Hg]; [now left |].
              right. now right.
    + (* the file is not there: skipped *)
      unfold bind at 1. unfold ret at 1.
      destruct (IH s) as (unlinks & d' & Heq & Hincl & Hev & Hgone).
      rewrite Heq. exists unlinks, d'. repeat split.
      * exact Hincl.
      * intros e He. destruct (Hev e He) as (f & r & -> & Hf & Hd).
        exists f, r. auto.
      * intros f [Hf | Hf].
        -- subst f. left. intros Hd. apply Hout. now apply Hincl.
        -- now apply Hgone.
Qed.

(** A pass over files that are all gone does nothing. *)
Lemma cleanupEach_absent (env : Env) (files : list jsstring) (s : State) :
  (forall f, In f files -> ~ In f (disk s)) ->
  cleanupEach env files s = (Ok tt, s).
Proof.
  induction files as [| file rest IH]; intros Habs; simpl; [reflexivity |].
  unfold bind at 1. unfold existsSync at 1.
  destruct (in_dec jsstring_eq_dec file (disk s)) as [Hin | Hout].
  - exfalso. apply (Habs file); [now left | exact Hin].
  - unfold bind at 1. unfold ret at 1. apply IH.
    intros f Hf. apply Habs. now right.
Qed.

Lemma cleanup_spec (env : Env) (files : list jsstring) (s : State) :
  exists (unlinks : list Event) (d' : list jsstring),
    cleanup env files s
    = (Ok tt, {| disk := d';
                 trace := trace s ++ EvCleanup files :: unlinks;
                 tempFiles := tempFiles s |})
    /\ incl d' (disk s)
    /\ (forall e, In e unlinks ->
          exists f r, e = EvUnlink f r /\ In f files /\ In f (disk s))
    /\ (forall f, In f files ->
          ~ In f d' \/ In (EvUnlink f false) unlinks).
Proof.
  unfold cleanup, bind, emit.
  destruct (cleanupEach_spec env files
              {| disk := disk s; trace := trace s ++ [EvCleanup files];
                 tempFiles := tempFiles s |})
    as (unlinks & d' & Heq & Hincl & Hev & Hgone).
  simpl in *. rewrite Heq. exists unlinks, d'.
  rewrite <- app_assoc. simpl. auto.
Qed.

(** C8. Cleanup always returns normally, on a first pass and on a
    second one over the same list. In each pass every file of the list
    ends up gone or with its own failed deletion on record, so a
    failure on one file does not stop the others; the second pass
    attempts only files that are still there, and when no deletion of
    the first pass failed it changes nothing. *)
Theorem cleanup_total_and_repeatable :
  forall (env : Env) (files : list jsstring) (s : State),
    let first := cleanup env files s in
    let second := cleanup env files (snd first) in
    fst first = Ok tt
    /\ fst second = Ok tt
    /\ exists tried tried' : list Event,
         trace (snd first) = trace s ++ EvCleanup files :: tried
         /\ trace (snd second)
            = trace (snd first) ++ EvCleanup files :: tried'
         /\ (forall f, In f files ->
               ~ In f (disk (snd first)) \/ In (EvUnlink f false) tried)
         /\ (forall e, In e tried' ->
               exists f r, e = EvUnlink f r /\ In f (disk (snd first)))
         /\ ((forall f, ~ In (EvUnlink f false) tried) ->
               tried' = [] /\ disk (snd second) = disk (snd first)).
Proof.
  intros env files s first second.
  destruct (cleanup_spec env files s)
    as (tried & d1 & H1 & Hincl1 & Hev1 & Hgone1).
  destruct (cleanup_spec env files (snd first))
    as (tried' & d2 & H2 & Hincl2 & Hev2 & Hgone2).
  subst second. unfold first in *. rewrite H1 in *. simpl in *.
  rewrite H2. simpl. repeat split.
  exists tried, tried'. repeat split.
  - exact Hgone1.
  - intros e He. destruct (Hev2 e He) as (f & r & -> & _ & Hd).
    exists f, r. auto.
  - assert (Habs : forall f, In f files -> ~ In f d1).
    { intros f Hf. destruct (Hgone1 f Hf) as [Hg | Hg]; [exact Hg |].
      exfalso. now apply (H f). }
    unfold cleanup, bind, emit in H2. simpl in H2.
    rewrite cleanupEach_absent in H2 by (simpl; exact Habs).
    inversion H2 as [[Hd Ht]].
    apply app_inv_head in Ht. now inversion Ht.
  - assert (Habs : forall f, In f files -> ~ In f d1).
    { intros f Hf. destruct (Hgone1 f Hf) as [Hg | Hg]; [exact Hg |].
      exfalso. now apply (H f). }
    unfold cleanup, bind, emit in H2. simpl in H2.
    rewrite cleanupEach_absent in H2 by (simpl; exact Habs).
    now inversion H2.
Qed.

End CleanupFacts.

(* ================================================================== *)
(** ** Properties of the extension and of validation *)
(* ================================================================== *)

Module ValidationFacts.

Lemma split_nonempty (sep : N) (s : jsstring) : split sep s <> [].
Proof.
  destruct s as [| c s']; simpl; [discriminate |].
  destruct (N.eqb c sep); [discriminate |].
  destruct (split sep s'); discriminate.
Qed.

Lemma split_no_sep (sep : N) (s : jsstring) :
  ~ In sep s -> split sep s = [s].
Proof.
  induction s as [| c s' IH]; intros Hn; simpl; [reflexivity |].
  destruct (N.eqb_spec c sep) as [-> | Hne].
  - exfalso. apply Hn. now left.
  - rewrite IH; [reflexivity |]. intros Hin. apply Hn. now right.
Qed.

Lemma split_app (sep : N) (u t : jsstring) :
  split sep (u ++ sep :: t) = split sep u ++ split sep t.
Proof.
  induction u as [| c u' IH]; simpl.
  - now rewrite N.eqb_refl.
  - destruct (N.eqb c sep); [now rewrite IH |].
    rewrite IH.
    destruct (split sep u') as [| p ps] eqn:Hs; [| reflexivity].
    now apply split_nonempty in Hs.
Qed.

Lemma last_app_single {A} (l : list A) (x d : A) : last (l ++ [x]) d = x.
Proof.
  induction l as [| y l IH]; simpl; [reflexivity |].
  destruct (l ++ [x]) eqn:H; [now destruct l | exact IH].
Qed.

(** The extension is what follows the last dot of the whole URL, up to
    the first question mark. *)
Lemma extension_after_last_dot (u t : jsstring) :
  ~ In 46%N t -> t <> [] ->
  extension (u ++ 46%N :: t) = hd [] (split 63 t).
Proof.
  intros Hn Ht. unfold extension.
  rewrite split_app, (split_no_sep 46 t Hn), last_app_single.
  rewrite length_app. simpl.
  destruct (split 46 u) as [| p ps] eqn:Hs; [now apply split_nonempty in Hs |].
  simpl. replace (1 <? S (List.length ps + 1)) with true
    by (symmetry; apply Nat.ltb_lt; lia).
  destruct t as [| c t']; [contradiction |]. reflexivity.
Qed.

(** A URL without any dot gets the default. *)
Lemma extension_no_dot (u : jsstring) :
  ~ In 46%N u -> extension u = str "wav".
Proof.
  intros Hn. unfold extension. now rewrite (split_no_sep 46 u Hn).
Qed.

(** A URL ending in [.flac?sig=abc] gets [flac]. *)
Lemma extension_flac (u : jsstring) :
  extension (u ++ str ".flac?sig=abc") = str "flac".
Proof.
  change (str ".flac?sig=abc") with (46%N :: str "flac?sig=abc").
  rewrite extension_after_last_dot; [reflexivity | | discriminate].
  vm_compute. intuition discriminate.
Qed.

(** C2 (divergence). The final path segment of
    [https://example.com/track] has no dot, yet the extension is taken
    after the dot of the host name: it is [com/track], not [wav], and
    the file name has a directory separator in it. *)
Theorem host_dot_taken_for_extension :
  ~ In 46%N (str "track")
  /\ extension (str "https://example.com/track") = str "com/track"
  /\ filename (str "id") 0 (str "https://example.com/track")
     = str "id_stem_0.com/track".
Proof.
  split; [vm_compute; intuition discriminate |].
  split; reflexivity.
Qed.

End ValidationFacts.

(* ================================================================== *)
(** ** Properties of the validation loop *)
(* ================================================================== *)

Module StemFacts.

Tactic Notation "split_result" hyp(H) "as" ident(v) ident(E) :=
  match type of H with
  | rbind ?r _ = _ =>
      destruct r as [v | ?] eqn:E; simpl in H; [| discriminate H]
  end.

(** A round that pushes a URL was given an acceptable stem. *)
Lemma validateStem_pushes rid i stem u :
  validateStem rid i stem = Ok (inr u) -> acceptable stem = true.
Proof.
  unfold validateStem. intros H. split_result H as shown0 Hshown0.
  destruct stem as [| | b | x | s | l | props]; simpl in H;
    try discriminate H.
  - (* a string *)
    simpl. destruct (eqb (trim s) []); [discriminate H | reflexivity].
  - (* an object *)
    simpl. destruct (lookup (str "url") props) as [url |];
      simpl in H; [| discriminate H].
    destruct (truthy url) eqn:Ht; simpl in H; [| discriminate H].
    destruct (ToString url) as [shown | err]; simpl in H;
      [| discriminate H].
    destruct url as [| | b | x | s | l | props']; simpl in Ht;
      try discriminate Ht; simpl in H; try rewrite Ht in H;
      try discriminate H.
    destruct (eqb (trim s) []); [discriminate H | reflexivity].
Qed.

(** A round that answers 400 was given a stem that is not acceptable,
    and answers with one of the two bodies, at its own index. *)
Lemma validateStem_answers rid i stem response :
  validateStem rid i stem = Ok (inl response) ->
  acceptable stem = false
  /\ (response = invalidStem rid i stem
      \/ exists u, response = invalidUrl rid i (JStr u)).
Proof.
  unfold validateStem. intros H. split_result H as shown0 Hshown0.
  destruct stem as [| | b | x | s | l | props]; simpl in H;
    try (inversion H; subst; split; [reflexivity | now left]).
  - (* a string *)
    simpl. destruct (eqb (trim s) []); inversion H; subst.
    split; [reflexivity | right; now exists s].
  - (* an object *)
    simpl. destruct (lookup (str "url") props) as [url |];
      simpl in H; [| inversion H; subst; split; [reflexivity | now left]].
    destruct (truthy url) eqn:Ht; simpl in H.
    + destruct (ToString url) as [shown | err]; simpl in H;
        [| discriminate H].
      destruct url as [| | b | x | s | l | props']; simpl in Ht;
        try discriminate Ht; simpl in H; try rewrite Ht in H;
        try discriminate H.
      destruct (eqb (trim s) []); inversion H; subst.
      split; [reflexivity | right; now exists s].
    + inversion H; subst. split; [| now left].
      destruct url as [| | b | x | [| c s] | l | props']; simpl in Ht;
        try reflexivity; discriminate Ht.
Qed.

(** The loop hands validated URLs on only when every stem is
    acceptable. *)
Lemma validateStems_passes rid stems :
  forall i acc validated,
    validateStems rid stems i acc = Ok (inr validated) ->
    forall stem, In stem stems -> acceptable stem = true.
Proof.
  induction stems as [| stem0 rest IH]; intros i acc validated H stem Hin.
  - destruct Hin.
  - simpl in H. split_result H as v Hv. destruct v as [response | u];
      [discriminate H |].
    destruct Hin as [<- | Hin].
    + eapply validateStem_pushes; eassumption.
    + eapply IH; eassumption.
Qed.

(** When the loop answers, it answers 400 at the first stem that is not
    acceptable. *)
Lemma validateStems_answers rid stems :
  forall i acc response,
    validateStems rid stems i acc = Ok (inl response) ->
    exists k stem,
      nth_error stems k = Some stem
      /\ acceptable stem = false
      /\ (forall j earlier, j < k -> nth_error stems j = Some earlier ->
            acceptable earlier = true)
      /\ (response = invalidStem rid (i + k) stem
          \/ exists u, response = invalidUrl rid (i + k) (JStr u)).
Proof.
  induction stems as [| stem0 rest IH]; intros i acc response H.
  - discriminate H.
  - simpl in H. split_result H as v Hv. destruct v as [r | u].
    + inversion H; subst r. clear H.
      apply validateStem_answers in Hv. destruct Hv as (Hbad & Hr).
      exists 0, stem0. rewrite Nat.add_0_r. repeat split; auto.
      intros j earlier Hj. lia.
    + apply validateStem_pushes in Hv.
      apply IH in H. destruct H as (k & stem & Hnth & Hbad & Hbefore & Hr).
      exists (S k), stem. replace (i + S k) with (S i + k) by lia.
      repeat split; auto.
      intros [| j] earlier Hj Hearlier; simpl in Hearlier.
      * now inversion Hearlier; subst.
      * eapply Hbefore; [| eassumption]. lia.
Qed.

(** Both bodies of the loop hold the three fields, the received value
    being a value of a decoded body. *)
Lemma validation_bodies rid i (stem : JSValue) (u : jsstring) :
  stem <> JUndefined ->
  invalidStem rid i stem
  = Json 400
      [(str "error",
        JStr (str "Invalid stem at index " ++ dec i
              ++ str ". Expected string URL or object with url property"));
       (str "received", stem); (str "requestId", JStr rid)]
  /\ invalidUrl rid i (JStr u)
     = Json 400
         [(str "error",
           JStr (str "Invalid URL at index " ++ dec i
                 ++ str ". Expected non-empty string"));
          (str "received", JStr u); (str "requestId", JStr rid)].
Proof.
  intros Hs. split; [| reflexivity].
  unfold invalidStem, json. simpl.
  destruct stem; try reflexivity. contradiction.
Qed.

End StemFacts.

(* ================================================================== *)
(** ** Properties of the handler *)
(* ================================================================== *)

Module HandlerFacts.

Import CleanupFacts StemFacts.

Section Appends.

Variable Q : Event -> Prop.

Lemma appends_ret {A} (a : A) : appends Q (ret a).
Proof. intros s. exists []. simpl. now rewrite app_nil_r. Qed.

Lemma appends_throw {A} (e : JSError) : appends Q (@throw A e).
Proof. intros s. exists []. simpl. now rewrite app_nil_r. Qed.

Lemma appends_lift {A} (r : result A) : appends Q (lift r).
Proof. intros s. exists []. simpl. now rewrite app_nil_r. Qed.

Lemma appends_history : appends Q history.
Proof. intros s. exists []. simpl. now rewrite app_nil_r. Qed.

Lemma appends_existsSync (f : jsstring) : appends Q (existsSync f).
Proof. intros s. exists []. simpl. now rewrite app_nil_r. Qed.

Lemma appends_created (f : jsstring) : appends Q (created f).
Proof. intros s. exists []. simpl. now rewrite app_nil_r. Qed.

Lemma appends_pushTempFile (f : jsstring) : appends Q (pushTempFile f).
Proof. intros s. exists []. simpl. now rewrite app_nil_r. Qed.

Lemma appends_getTempFiles : appends Q getTempFiles.
Proof. intros s. exists []. simpl. now rewrite app_nil_r. Qed.

Lemma appends_emit (e : Event) : Q e -> appends Q (emit e).
Proof. intros He s. exists [e]. simpl. auto. Qed.

Lemma appends_bind {A B} (m : M A) (k : A -> M B) :
  appends Q m -> (forall a, appends Q (k a)) -> appends Q (bind m k).
Proof.
  intros Hm Hk s. unfold bind.
  destruct (Hm s) as (ev & Heq & Hq).
  destruct (m s) as [[a | e] s']; simpl in *.
  - destruct (Hk a s') as (ev' & Heq' & Hq').
    exists (ev ++ ev'). rewrite Heq', Heq, app_assoc.
    split; [reflexivity | now apply Forall_app].
  - now exists ev.
Qed.

End Appends.

Lemma mixAudioFiles_appends env inputFiles outputFile volumes :
  appends notFetch (mixAudioFiles env inputFiles outputFile volumes).
Proof.
  unfold mixAudioFiles.
  apply appends_bind; [apply appends_lift | intros args].
  apply appends_bind; [apply appends_emit; exact I | intros _].
  apply appends_bind; [apply appends_history | intros h].
  destruct (ffmpeg env h args) as [e | code written];
    [apply appends_throw |].
  apply appends_bind.
  - destruct written; [apply appends_created | apply appends_ret].
  - intros _. destruct code as [[| c] |];
      [apply appends_ret | apply appends_throw | apply appends_throw].
Qed.

Lemma cleanup_appends env files : appends notFetch (cleanup env files).
Proof.
  intros s.
  destruct (cleanup_spec env files s) as (unlinks & d' & Heq & _ & Hev & _).
  rewrite Heq. simpl. eexists. split; [reflexivity |].
  constructor; [exact I |].
  apply Forall_forall. intros e He.
  destruct (Hev e He) as (f & r & -> & _). exact I.
Qed.

(** What the handler does once every stem is downloaded adds no GET. *)
Lemma afterDownloads_appends env requestId outputPath volumes inputFiles :
  appends notFetch
    (pushTempFile outputPath ;;
     mixAudioFiles env inputFiles outputPath volumes ;;
     present <- existsSync outputPath ;;
     if negb present then
       throw (Error (str "Mixed audio file was not created"))
     else
       h <- history ;;
       match pipe env h outputPath with
       | StreamEnd =>
           respond (attachment requestId outputPath) ;;
           files <- getTempFiles ;; cleanup env files
       | StreamError _ => files <- getTempFiles ;; cleanup env files
       | StreamStalled => ret tt
       end).
Proof.
  apply appends_bind; [apply appends_pushTempFile | intros _].
  apply appends_bind; [apply mixAudioFiles_appends | intros _].
  apply appends_bind; [apply appends_existsSync | intros present].
  destruct present; simpl; [| apply appends_throw].
  apply appends_bind; [apply appends_history | intros h].
  destruct (pipe env h outputPath); [| | apply appends_ret].
  - apply appends_bind; [apply appends_emit; exact I | intros _].
    apply appends_bind; [apply appends_getTempFiles | intros files].
    apply cleanup_appends.
  - apply appends_bind; [apply appends_getTempFiles | intros files].
    apply cleanup_appends.
Qed.

Ltac settle_events :=
  simpl; intros;
  repeat match goal with
         | H : _ \/ _ |- _ => destruct H
         | H : False |- _ => destruct H
         | H : EvWriteFile _ = _ |- _ => inversion H; clear H; subst
         | H : _ = EvWriteFile _ |- _ => inversion H; clear H; subst
         | H : _ = ?e, F : failedFetch ?e |- _ => subst e; simpl in F
         end;
  simpl in *; try contradiction; try congruence;
  try (split; reflexivity); try (eexists; reflexivity).

(** One download: it adds download events only and leaves [tempFiles]
    alone; it writes, if at all, its own path and then returns
    normally; a GET answered outside 200-299 makes it throw. *)
Lemma downloadFile_spec env url filepath (s : State) :
  exists (ev : list Event) (d' : list jsstring),
    snd (downloadFile env url filepath s)
    = {| disk := d'; trace := trace s ++ ev; tempFiles := tempFiles s |}
    /\ Forall isDownloadEvent ev
    /\ (forall p, In (EvWriteFile p) ev ->
          p = filepath /\ fst (downloadFile env url filepath s) = Ok tt)
    /\ (forall e, In e ev -> failedFetch e ->
          exists err, fst (downloadFile env url filepath s) = Throw err).
Proof.
  unfold downloadFile, bind, emit, history, throw, created. simpl.
  destruct (eqb (trim url) []); [| destruct (eqb (trim filepath) [])];
    simpl.
  1, 2: do 2 eexists; split; [reflexivity |];
        split; [repeat constructor |]; split; settle_events.
  destruct (fetch env (trace s ++ [EvDownloadFile url filepath]) url)
    as [err | status statusText buffer] eqn:Hf; simpl.
  - rewrite <- app_assoc. simpl. do 2 eexists. split; [reflexivity |].
    split; [repeat constructor |]. split; settle_events.
  - destruct (ok status) eqn:Hok; simpl.
    + destruct buffer as [len | err]; simpl.
      * destruct (writeFileSync env _ filepath) as [| err [|]]; simpl;
          rewrite <- ?app_assoc; simpl;
          (do 2 eexists; split; [reflexivity |]);
          (split; [repeat constructor |]); split; settle_events.
      * rewrite <- app_assoc. simpl. do 2 eexists.
        split; [reflexivity |]. split; [repeat constructor |].
        split; settle_events.
    + rewrite <- app_assoc. simpl. do 2 eexists.
      split; [reflexivity |]. split; [repeat constructor |].
      split; settle_events.
Qed.

Lemma downloadStems_cons env stemUrl rest i inputFiles (s : State) :
  downloadStems env (stemUrl :: rest) i inputFiles s
  = let filepath :=
      pathJoin env (tempDir env) (filename (uuidv4 env) i stemUrl) in
    match downloadFile env stemUrl filepath s with
    | (Ok _, s1) =>
        downloadStems env rest (S i) (inputFiles ++ [filepath])
          {| disk := disk s1; trace := trace s1;
             tempFiles := tempFiles s1 ++ [filepath] |}
    | (Throw e, s1) => (Throw e, s1)
    end.
Proof. reflexivity. Qed.

(** The download loop: it adds download events only; every path it
    wrote is among those it pushed onto [tempFiles]; a GET answered
    outside 200-299 makes it throw. *)
Lemma downloadStems_spec env (validatedStems : list jsstring) :
  forall (i : nat) (inputFiles : list jsstring) (s : State),
    exists (ev : list Event) (d' pushed : list jsstring),
      snd (downloadStems env validatedStems i inputFiles s)
      = {| disk := d'; trace := trace s ++ ev;
           tempFiles := tempFiles s ++ pushed |}
      /\ Forall isDownloadEvent ev
      /\ (forall p, In (EvWriteFile p) ev -> In p pushed)
      /\ (forall e, In e ev -> failedFetch e ->
            exists err,
              fst (downloadStems env validatedStems i inputFiles s)
              = Throw err).
Proof.
  induction validatedStems as [| stemUrl rest IH]; intros i inputFiles s.
  - exists [], (disk s), []. simpl. rewrite !app_nil_r.
    destruct s; simpl. repeat split; auto; intros ? [].
  - rewrite downloadStems_cons. cbv zeta.
    set (filepath := pathJoin env (tempDir env) _).
    destruct (downloadFile_spec env stemUrl filepath s)
      as (ev1 & d1 & Hs1 & Hev1 & Hw1 & Hf1).
    destruct (downloadFile env stemUrl filepath s) as [[[] | err] s1];
      simpl in Hs1, Hw1, Hf1; subst s1; simpl.
    + (* the download returned: push the path and go on *)
      destruct (IH (S i) (inputFiles ++ [filepath])
                   {| disk := d1; trace := trace s ++ ev1;
                      tempFiles := tempFiles s ++ [filepath] |})
        as (ev2 & d2 & pushed & Hs2 & Hev2 & Hw2 & Hf2).
      simpl in Hs2. exists (ev1 ++ ev2), d2, (filepath :: pushed).
      rewrite Hs2, <- !app_assoc. simpl. split; [reflexivity |].
      split; [now apply Forall_app |]. split.
      * intros p Hp. apply in_app_or in Hp. destruct Hp as [Hp | Hp].
        -- destruct (Hw1 p Hp) as (-> & _). now left.
        -- right. now apply Hw2.
      * intros e He Hfail. apply in_app_or in He. destruct He as [He | He].
        -- destruct (Hf1 e He Hfail) as (err & Herr). discriminate Herr.
        -- exact (Hf2 e He Hfail).
    + (* the download threw: the loop is left *)
      exists ev1, d1, []. rewrite app_nil_r.
      split; [reflexivity |]. split; [exact Hev1 |]. split.
      * intros p Hp. destruct (Hw1 p Hp) as (_ & Hok). discriminate Hok.
      * intros e He Hfail. now exists err.
Qed.

(** The [try] block either leaves no failed GET on record, or it threw
    out of the download loop: then the record holds download events
    only and every path written is in [tempFiles]. *)
Lemma tryBlock_spec env body disk0 (r : result unit) (s1 : State) :
  tryBlock env body {| disk := disk0; trace := []; tempFiles := [] |}
  = (r, s1) ->
  (forall e, In e (trace s1) -> ~ failedFetch e)
  \/ (exists err,
        r = Throw err
        /\ Forall isDownloadEvent (trace s1)
        /\ forall p, In (EvWriteFile p) (trace s1) -> In p (tempFiles s1)).
Proof.
  intros H. unfold tryBlock, downloadAndMix in H.
  unfold bind at 1 in H. unfold lift at 1 in H.
  destruct (getField body (str "stems")) as [stems | err];
    [| inversion H; subst; left; simpl; intros e []].
  unfold bind at 1 in H. unfold lift at 1 in H.
  destruct (getField body (str "volumes")) as [volumes | err];
    [| inversion H; subst; left; simpl; intros e []].
  destruct (negb (truthy stems) || negb (isArray stems)
            || (List.length (elements stems) =? 0)).
  { inversion H; subst. left. simpl. intros e [<- | []]. simpl. tauto. }
  unfold bind at 1 in H. unfold lift at 1 in H.
  destruct (validateStems (uuidv4 env) (elements stems) 0 [])
    as [[response | validatedStems] | err].
  { inversion H; subst. left. simpl. intros e [<- | []]. simpl. tauto. }
  2: { inversion H; subst. left. simpl. intros e []. }
  unfold bind at 1 in H.
  destruct (downloadStems_spec env validatedStems 0 []
              {| disk := disk0; trace := []; tempFiles := [] |})
    as (ev & d' & pushed & Hs & Hev & Hw & Hf).
  destruct (downloadStems env validatedStems 0 []
              {| disk := disk0; trace := []; tempFiles := [] |})
    as [[inputFiles | err] s2]; simpl in Hs, Hf; subst s2.
  - left.
    match type of H with
    | bind (pushTempFile ?p) ?k ?s = _ =>
        destruct (@afterDownloads_appends env (uuidv4 env) p volumes
                    inputFiles s) as (ev2 & Ht & Hq)
    end.
    rewrite H in Ht. simpl in Ht. rewrite Ht. intros e He Hfail.
    apply in_app_or in He. destruct He as [He | He].
    + destruct (Hf e He Hfail) as (err & Herr). discriminate Herr.
    + rewrite Forall_forall in Hq. specialize (Hq e He).
      destruct e; simpl in *; contradiction.
  - inversion H; subst. right. exists err. simpl. auto.
Qed.

(** The [catch] block: cleanup of [tempFiles], then the 500 response. *)
Lemma catchBlock_spec env (error : JSError) (s : State) :
  exists (unlinks : list Event) (d' : list jsstring),
    catchBlock env error s
    = (Ok tt,
       {| disk := d';
          trace := trace s ++ EvCleanup (tempFiles s) :: unlinks
                   ++ [EvRespond (failed (uuidv4 env) error)];
          tempFiles := tempFiles s |})
    /\ (forall e, In e unlinks -> exists f r, e = EvUnlink f r)
    /\ (forall f, In f (tempFiles s) ->
          ~ In f d' \/ In (EvUnlink f false) unlinks).
Proof.
  unfold catchBlock. unfold bind at 1. unfold getTempFiles at 1.
  unfold bind at 1.
  destruct (cleanup_spec env (tempFiles s) s)
    as (unlinks & d' & Heq & _ & Hev & Hgone).
  rewrite Heq. unfold respond, emit. simpl.
  exists unlinks, d'. rewrite <- app_assoc. simpl.
  split; [reflexivity |]. split; [| exact Hgone].
  intros e He. destruct (Hev e He) as (f & r & -> & _). now exists f, r.
Qed.

Lemma failed_body (requestId : jsstring) (error : JSError) :
  failed requestId error
  = Json 500 [(str "error", JStr (str "Failed to mix audio files"));
              (str "details", JStr (error_message error));
              (str "requestId", JStr requestId)].
Proof. reflexivity. Qed.

(** A request whose stems are missing, not an array or empty is
    answered at once. *)
Lemma handle_stemsRequired env body stems disk0 :
  getField body (str "stems") = Ok stems ->
  stems = JUndefined \/ isArray stems = false \/ stems = JArr [] ->
  handle env body disk0
  = {| disk := disk0; trace := [EvRespond stemsRequired];
       tempFiles := [] |}.
Proof.
  intros Hget Hbad. unfold handle, mix, tryCatch, tryBlock.
  unfold bind at 1. unfold lift at 1. rewrite Hget.
  assert (Hv : exists volumes,
             getField body (str "volumes") = Ok volumes).
  { destruct body; simpl in Hget; try discriminate Hget;
      eexists; reflexivity. }
  destruct Hv as (volumes & Hv).
  unfold bind at 1. unfold lift at 1. rewrite Hv.
  replace (negb (truthy stems) || negb (isArray stems)
           || (List.length (elements stems) =? 0)) with true.
  - reflexivity.
  - destruct Hbad as [-> | [Harr | ->]]; try reflexivity.
    rewrite Harr. simpl. now rewrite orb_true_r.
Qed.

(** A stems array with a stem that is not acceptable: nothing is
    downloaded, and the answer is the 400 of the first such stem unless
    a diagnostic of the loop threw first, which is answered with 500. *)
Lemma offending_stem_no_download env body stems disk0 stem :
  getField body (str "stems") = Ok (JArr stems) ->
  In stem stems -> acceptable stem = false ->
  (exists k bad,
     nth_error stems k = Some bad
     /\ acceptable bad = false
     /\ (forall j earlier, j < k -> nth_error stems j = Some earlier ->
           acceptable earlier = true)
     /\ (trace (handle env body disk0)
         = [EvRespond (invalidStem (uuidv4 env) k bad)]
         \/ exists u,
              trace (handle env body disk0)
              = [EvRespond (invalidUrl (uuidv4 env) k (JStr u))]))
  \/ (exists error,
        trace (handle env body disk0)
        = [EvCleanup []; EvRespond (failed (uuidv4 env) error)]).
Proof.
  intros Hget Hin Hbad.
  remember (handle env body disk0) as final eqn:Hfinal.
  unfold handle, mix, tryCatch, tryBlock in Hfinal.
  unfold bind at 1 in Hfinal. unfold lift at 1 in Hfinal.
  rewrite Hget in Hfinal.
  assert (Hv : exists volumes,
             getField body (str "volumes") = Ok volumes).
  { destruct body; simpl in Hget; try discriminate Hget;
      eexists; reflexivity. }
  destruct Hv as (volumes & Hv).
  unfold bind at 1 in Hfinal. unfold lift at 1 in Hfinal.
  rewrite Hv in Hfinal.
  destruct stems as [| stem0 rest]; [destruct Hin |].
  change (negb (truthy (JArr (stem0 :: rest)))
          || negb (isArray (JArr (stem0 :: rest)))
          || (List.length (elements (JArr (stem0 :: rest))) =? 0))
    with false in Hfinal.
  change (elements (JArr (stem0 :: rest))) with (stem0 :: rest) in Hfinal.
  cbv iota in Hfinal.
  unfold bind at 1 in Hfinal. unfold lift at 1 in Hfinal.
  destruct (validateStems (uuidv4 env) (stem0 :: rest) 0 [])
    as [[response | validated] | error] eqn:Hval.
  - left. apply validateStems_answers in Hval.
    destruct Hval as (k & bad & Hnth & Hb & Hbefore & Hr).
    exists k, bad. simpl in Hr. subst final. simpl.
    repeat split; auto.
    destruct Hr as [-> | (u & ->)]; [now left | right; now exists u].
  - exfalso.
    pose proof (validateStems_passes _ _ _ _ Hval stem Hin) as Hok.
    rewrite Hok in Hbad. discriminate Hbad.
  - right. exists error. subst final. reflexivity.
Qed.

(** [mixAudioFiles] starts one process, with the arguments built. *)
Lemma mixAudioFiles_spawns env inputFiles outputFile volumes args s :
  mixArgs inputFiles outputFile volumes = Ok args ->
  trace (snd (mixAudioFiles env inputFiles outputFile volumes s))
  = trace s ++ [EvSpawn args].
Proof.
  intros Hargs. unfold mixAudioFiles.
  unfold bind at 1. unfold lift at 1. rewrite Hargs.
  unfold bind at 1. unfold emit at 1.
  unfold bind at 1. unfold history at 1. simpl trace at 1.
  destruct (ffmpeg env _ args) as [e | code written]; [reflexivity |].
  destruct written, code as [[| c] |]; reflexivity.
Qed.

(** C3 (divergence). A body without [stems], and one with an empty
    [stems] array, are answered 400 with a body that holds [error]
    alone: neither [received] nor [requestId] is in it. *)
Theorem stems_required_body_has_error_only :
  forall (env : Env) (disk0 : list jsstring),
    trace (handle env (JObj []) disk0)
    = [EvRespond
         (Json 400
            [(str "error",
              JStr (str "stems array is required and must not be empty"))])]
    /\ trace (handle env (JObj [(str "stems", JArr [])]) disk0)
       = trace (handle env (JObj []) disk0)
    /\ lookup (str "requestId")
              [(str "error",
                JStr (str "stems array is required and must not be empty"))]
       = None
    /\ lookup (str "received")
              [(str "error",
                JStr (str "stems array is required and must not be empty"))]
       = None.
Proof.
  intros env disk0. repeat split; reflexivity.
Qed.

(** C4. When some GET of a request is answered with a status outside
    200-299, the events of the request are: download events, then the
    call of cleanup on a list that holds every path written, then
    deletions, then one response, with status 500. Each path written
    is gone afterwards unless its own deletion failed. *)
Theorem failed_download_cleans_up :
  forall (env : Env) (body : JSValue) (disk0 : list jsstring)
         (url : jsstring) (status : nat) (statusText : jsstring)
         (buffer : result nat),
    In (EvFetch url (Resolved status statusText buffer))
       (trace (handle env body disk0)) ->
    ok status = false ->
    exists (downloads : list Event) (files : list jsstring)
           (unlinks : list Event) (error : JSError),
      trace (handle env body disk0)
      = downloads ++ EvCleanup files :: unlinks
        ++ [EvRespond
              (Json 500
                 [(str "error", JStr (str "Failed to mix audio files"));
                  (str "details", JStr (error_message error));
                  (str "requestId", JStr (uuidv4 env))])]
      /\ Forall isDownloadEvent downloads
      /\ (forall p, In (EvWriteFile p) downloads -> In p files)
      /\ (forall e, In e unlinks -> exists f r, e = EvUnlink f r)
      /\ (forall p, In (EvWriteFile p) downloads ->
            ~ In p (disk (handle env body disk0))
            \/ In (EvUnlink p false) unlinks).
Proof.
  intros env body disk0 url status statusText buffer Hin Hstatus.
  remember (handle env body disk0) as final eqn:Hfinal.
  unfold handle, mix, tryCatch in Hfinal.
  destruct (tryBlock env body
              {| disk := disk0; trace := []; tempFiles := [] |})
    as [r s1] eqn:Htry.
  assert (Hfailed : failedFetch
                      (EvFetch url (Resolved status statusText buffer)))
    by exact Hstatus.
  destruct (tryBlock_spec _ _ _ Htry) as [Hnone | (err & -> & Hdl & Hw)].
  - (* no failed GET on record in the try block: impossible *)
    exfalso. destruct r as [[] | err].
    + subst final. simpl in Hin. exact (Hnone _ Hin Hfailed).
    + destruct (catchBlock_spec env err s1) as (unlinks & d' & Hc & Hu & _).
      rewrite Hc in Hfinal. subst final. simpl in Hin.
      apply in_app_or in Hin. destruct Hin as [Hin | [Hin | Hin]].
      * exact (Hnone _ Hin Hfailed).
      * discriminate Hin.
      * apply in_app_or in Hin. destruct Hin as [Hin | [Hin | []]].
        -- destruct (Hu _ Hin) as (f & r & Heq). discriminate Heq.
        -- discriminate Hin.
  - (* the download loop threw *)
    destruct (catchBlock_spec env err s1) as (unlinks & d' & Hc & Hu & Hgone).
    rewrite Hc in Hfinal. subst final. simpl.
    exists (trace s1), (tempFiles s1), unlinks, err.
    rewrite failed_body. repeat split; auto.
Qed.

(** C4, at two stems of which the second is answered 404. *)
Lemma failed_download_cleans_up_witness :
  exists (downloads : list Event) (files : list jsstring)
         (unlinks : list Event) (error : JSError),
    trace (handle (sampleEnv [str "https://x/b.wav"])
                  (JObj [(str "stems",
                          JArr [JStr (str "https://x/a.wav");
                                JStr (str "https://x/b.wav")])])
                  [])
    = downloads ++ EvCleanup files :: unlinks
      ++ [EvRespond
            (Json 500
               [(str "error", JStr (str "Failed to mix audio files"));
                (str "details", JStr (error_message error));
                (str "requestId", JStr (str "id"))])]
    /\ (forall p, In (EvWriteFile p) downloads -> In p files).
Proof.
  destruct (@failed_download_cleans_up
              (sampleEnv [str "https://x/b.wav"])
              (JObj [(str "stems",
                      JArr [JStr (str "https://x/a.wav");
                            JStr (str "https://x/b.wav")])])
              [] (str "https://x/b.wav") 404 (str "Not Found") (Ok 0))
    as (downloads & files & unlinks & error & Heq & _ & Hw & _).
  - vm_compute. tauto.
  - reflexivity.
  - exists downloads, files, unlinks, error. split; [exact Heq | exact Hw].
Defined.

(** C5 (divergence). The one stem of this request is an object whose
    [url] is the number 5, so it is not acceptable; the diagnostic of
    the invalid-URL branch calls [trim] on the number and throws, and
    the request is answered 500, not 400. Nothing is downloaded. *)
Theorem non_string_url_answered_500 :
  forall (env : Env) (disk0 : list jsstring),
    let stem := JObj [(str "url", JNum (Dec false 5 0))] in
    acceptable stem = false
    /\ trace (handle env (JObj [(str "stems", JArr [stem])]) disk0)
       = [EvCleanup [];
          EvRespond
            (Json 500
               [(str "error", JStr (str "Failed to mix audio files"));
                (str "details", JStr (str "stemUrl.trim is not a function"));
                (str "requestId", JStr (uuidv4 env))])].
Proof.
  intros env disk0. split; reflexivity.
Qed.

(** C6. A body whose [stems] is missing, not an array or an empty
    array is answered 400 at once: the response is the only event, so
    [downloadFile] is not called, and the disk is as it was. *)
Theorem missing_stems_answered_without_download :
  forall (env : Env) (body stems : JSValue) (disk0 : list jsstring),
    getField body (str "stems") = Ok stems ->
    stems = JUndefined \/ isArray stems = false \/ stems = JArr [] ->
    trace (handle env body disk0)
    = [EvRespond
         (Json 400
            [(str "error",
              JStr (str "stems array is required and must not be empty"))])]
    /\ (forall url filepath,
          ~ In (EvDownloadFile url filepath) (trace (handle env body disk0)))
    /\ disk (handle env body disk0) = disk0.
Proof.
  intros env body stems disk0 Hget Hbad.
  rewrite (handle_stemsRequired env body disk0 Hget Hbad). simpl.
  repeat split. intros url filepath [H | []]. discriminate H.
Qed.

(** C6, at a body whose [stems] is a string. *)
Lemma missing_stems_answered_without_download_witness :
  trace (handle (sampleEnv [])
                (JObj [(str "stems", JStr (str "https://x/a.wav"))]) [])
  = [EvRespond
       (Json 400
          [(str "error",
            JStr (str "stems array is required and must not be empty"))])].
Proof.
  apply (@missing_stems_answered_without_download
           (sampleEnv [])
           (JObj [(str "stems", JStr (str "https://x/a.wav"))])
           (JStr (str "https://x/a.wav")) []).
  - reflexivity.
  - right. left. reflexivity.
Defined.

(** C7. For input files in request order and volumes that print,
    [mixAudioFiles] builds the argument list below and starts one
    process with it: each input behind [-i] in order, one volume filter
    per input with the input's index, all of them merged by [amix]
    with [duration=longest], the mp3 codec at 192k, and [-y] right
    before the output path. *)
Theorem mixAudioFiles_builds_one_invocation :
  forall (env : Env) (inputFiles : list jsstring) (outputFile : jsstring)
         (volumes : JSValue) (s : State),
    inputFiles <> [] ->
    printable volumes (List.length inputFiles) ->
    exists (args : list jsstring) (shown : list jsstring),
      mixArgs inputFiles outputFile volumes = Ok args
      /\ List.length shown = List.length inputFiles
      /\ (forall index, index < List.length inputFiles ->
            shownVolume (defaultVolumes volumes) index
            = Ok (nth index shown []))
      /\ args
         = flat_map (fun file => [str "-i"; file]) inputFiles
           ++ [str "-filter_complex";
               List.concat
                 (mapi (fun volume index =>
                          str "[" ++ dec index ++ str ":a]volume=" ++ volume
                          ++ str "[a" ++ dec index ++ str "];") shown 0)
               ++ List.concat
                    (map (fun index => str "[a" ++ dec index ++ str "]")
                         (seq 0 (List.length inputFiles)))
               ++ str "amix=inputs=" ++ dec (List.length inputFiles)
               ++ str ":duration=longest[out]";
               str "-map"; str "[out]";
               str "-c:a"; str "mp3";
               str "-b:a"; str "192k";
               str "-y"; outputFile]
      /\ trace (snd (mixAudioFiles env inputFiles outputFile volumes s))
         = trace s ++ [EvSpawn args].
Proof.
  intros env inputFiles outputFile volumes s _ Hp.
  destruct (MixerFacts.mixArgs_returns inputFiles outputFile Hp)
    as (shown & Hlen & Hnth & Hargs).
  eexists. exists shown. split; [exact Hargs |].
  split; [exact Hlen |]. split; [exact Hnth |].
  split; [reflexivity |].
  now apply mixAudioFiles_spawns.
Qed.

(** C7, at two input files and the volumes [1, 0.5]. *)
Lemma mixAudioFiles_builds_one_invocation_witness :
  exists args : list jsstring,
    mixArgs [str "a.wav"; str "b.wav"] (str "out.mp3")
            (JArr [JNum one; JNum (Dec false 5 (-1))]) = Ok args
    /\ trace (snd (mixAudioFiles (sampleEnv [])
                     [str "a.wav"; str "b.wav"] (str "out.mp3")
                     (JArr [JNum one; JNum (Dec false 5 (-1))])
                     {| disk := []; trace := []; tempFiles := [] |}))
       = [EvSpawn args].
Proof.
  destruct (@mixAudioFiles_builds_one_invocation
              (sampleEnv []) [str "a.wav"; str "b.wav"] (str "out.mp3")
              (JArr [JNum one; JNum (Dec false 5 (-1))])
              {| disk := []; trace := []; tempFiles := [] |})
    as (args & shown & Hargs & _ & _ & _ & Htrace).
  - discriminate.
  - apply (proj1 (MixerFacts.numeric_printable [one; Dec false 5 (-1)] 2)).
  - exists args. split; [exact Hargs | exact Htrace].
Defined.

Lemma validateStems_length rid stems :
  forall i acc validated,
    validateStems rid stems i acc = Ok (inr validated) ->
    List.length validated = List.length acc + List.length stems.
Proof.
  induction stems as [| stem rest IH]; intros i acc validated H; simpl in H.
  - inversion H; subst. simpl. lia.
  - split_result H as v Hv. destruct v as [response | u];
      [discriminate H |].
    apply IH in H. rewrite H, length_app. simpl. lia.
Qed.

Lemma downloadStems_length env (validatedStems : list jsstring) :
  forall i inputFiles s files s',
    downloadStems env validatedStems i inputFiles s = (Ok files, s') ->
    List.length files
    = List.length inputFiles + List.length validatedStems.
Proof.
  induction validatedStems as [| stemUrl rest IH];
    intros i inputFiles s files s' H.
  - inversion H; subst. simpl. lia.
  - rewrite downloadStems_cons in H. cbv zeta in H.
    destruct (downloadFile env stemUrl _ s) as [[[] | err] s1];
      [| discriminate H].
    apply IH in H. rewrite H, length_app. simpl. lia.
Qed.

Lemma mixAudioFiles_reads_prefix env inputFiles outputFile vols vols' :
  firstn (List.length inputFiles) vols
  = firstn (List.length inputFiles) vols' ->
  mixAudioFiles env inputFiles outputFile (JArr vols)
  = mixAudioFiles env inputFiles outputFile (JArr vols').
Proof.
  intros Heq. unfold mixAudioFiles.
  now rewrite (MixerFacts.mixArgs_reads_prefix inputFiles outputFile
                 vols vols' Heq).
Qed.

Lemma downloadAndMix_reads_prefix env validatedStems vols vols' s :
  firstn (List.length validatedStems) vols
  = firstn (List.length validatedStems) vols' ->
  downloadAndMix env validatedStems (JArr vols) s
  = downloadAndMix env validatedStems (JArr vols') s.
Proof.
  intros Heq. unfold downloadAndMix.
  unfold bind at 1. symmetry. unfold bind at 1. symmetry.
  destruct (downloadStems env validatedStems 0 [] s)
    as [[inputFiles | err] s1] eqn:Hd; [| reflexivity].
  apply downloadStems_length in Hd. simpl in Hd.
  unfold bind at 1. symmetry. unfold bind at 1. symmetry.
  destruct (pushTempFile _ s1) as [[[] | err] s2]; [| reflexivity].
  rewrite <- Hd in Heq.
  unfold bind at 1. symmetry. unfold bind at 1. symmetry.
  now rewrite (mixAudioFiles_reads_prefix env inputFiles _ vols vols' Heq).
Qed.

(** C10. Two requests with the same stems whose volumes arrays agree
    on the indices of the stems are handled alike, event for event; and
    for as many input files as there are stems the two arrays give the
    same ffmpeg arguments. The entries from index N on are not read. *)
Theorem surplus_volumes_unread :
  forall (env : Env) (body body' : JSValue) (stems vols vols' : list JSValue)
         (disk0 : list jsstring),
    getField body (str "stems") = Ok (JArr stems) ->
    getField body' (str "stems") = Ok (JArr stems) ->
    getField body (str "volumes") = Ok (JArr vols) ->
    getField body' (str "volumes") = Ok (JArr vols') ->
    firstn (List.length stems) vols = firstn (List.length stems) vols' ->
    handle env body disk0 = handle env body' disk0
    /\ forall (inputFiles : list jsstring) (outputFile : jsstring),
         List.length inputFiles = List.length stems ->
         mixArgs inputFiles outputFile (JArr vols)
         = mixArgs inputFiles outputFile (JArr vols').
Proof.
  intros env body body' stems vols vols' disk0 Hs Hs' Hv Hv' Heq. split.
  - unfold handle, mix, tryCatch.
    replace (tryBlock env body'
               {| disk := disk0; trace := []; tempFiles := [] |})
      with (tryBlock env body
              {| disk := disk0; trace := []; tempFiles := [] |});
      [reflexivity |].
    unfold tryBlock.
    unfold bind at 1. unfold lift at 1. rewrite Hs.
    unfold bind at 1. unfold lift at 1. rewrite Hv.
    symmetry.
    unfold bind at 1. unfold lift at 1. rewrite Hs'.
    unfold bind at 1. unfold lift at 1. rewrite Hv'.
    change (elements (JArr stems)) with stems.
    destruct (negb (truthy (JArr stems)) || negb (isArray (JArr stems))
              || (List.length stems =? 0)); [reflexivity |].
    unfold bind at 1. symmetry. unfold bind at 1. unfold lift.
    destruct (validateStems (uuidv4 env) stems 0 [])
      as [[response | validatedStems] | err] eqn:Hval; try reflexivity.
    apply validateStems_length in Hval. simpl in Hval.
    apply downloadAndMix_reads_prefix. now rewrite Hval.
  - intros inputFiles outputFile Hlen.
    apply MixerFacts.mixArgs_reads_prefix. now rewrite Hlen.
Qed.

(** C10, at two stems and the volumes [0.5, 2, 3, 4] against [0.5, 2]. *)
Lemma surplus_volumes_unread_witness :
  handle (sampleEnv [])
         (JObj [(str "stems", JArr [JStr (str "https://x/a.wav");
                                   JStr (str "https://x/b.wav")]);
                (str "volumes",
                 JArr [JNum (Dec false 5 (-1)); JNum (Dec false 2 0);
                       JNum (Dec false 3 0); JNum (Dec false 4 0)])])
         []
  = handle (sampleEnv [])
           (JObj [(str "stems", JArr [JStr (str "https://x/a.wav");
                                     JStr (str "https://x/b.wav")]);
                  (str "volumes",
                   JArr [JNum (Dec false 5 (-1)); JNum (Dec false 2 0)])])
           [].
Proof.
  apply (@surplus_volumes_unread
           (sampleEnv [])
           (JObj [(str "stems", JArr [JStr (str "https://x/a.wav");
                                     JStr (str "https://x/b.wav")]);
                  (str "volumes",
                   JArr [JNum (Dec false 5 (-1)); JNum (Dec false 2 0);
                         JNum (Dec false 3 0); JNum (Dec false 4 0)])])
           (JObj [(str "stems", JArr [JStr (str "https://x/a.wav");
                                     JStr (str "https://x/b.wav")]);
                  (str "volumes",
                   JArr [JNum (Dec false 5 (-1)); JNum (Dec false 2 0)])])
           [JStr (str "https://x/a.wav"); JStr (str "https://x/b.wav")]
           [JNum (Dec false 5 (-1)); JNum (Dec false 2 0);
            JNum (Dec false 3 0); JNum (Dec false 4 0)]
           [JNum (Dec false 5 (-1)); JNum (Dec false 2 0)]
           []); reflexivity.
Defined.

End HandlerFacts.

(* ================================================================== *)
(** ** Further properties of strings, extensions and file names *)
(* ================================================================== *)

Module NameFacts.

Import ValidationFacts.

Lemma trimStart_idempotent (s : jsstring) :
  trimStart (trimStart s) = trimStart s.
Proof.
  induction s as [| c s IH]; simpl; [reflexivity |].
  destruct (isWhiteSpace c) eqn:Hc; [exact IH |].
  simpl. now rewrite Hc.
Qed.

Lemma trimStart_head (s : jsstring) :
  trimStart s = []
  \/ exists c t, trimStart s = c :: t /\ isWhiteSpace c = false.
Proof.
  induction s as [| c s IH]; simpl; [now left |].
  destruct (isWhiteSpace c) eqn:Hc; [exact IH |].
  right. now exists c, s.
Qed.

Lemma trimStart_snoc (l : jsstring) (c : N) :
  isWhiteSpace c = false -> trimStart (l ++ [c]) = trimStart l ++ [c].
Proof.
  intros Hc. induction l as [| x l IH]; simpl.
  - now rewrite Hc.
  - destruct (isWhiteSpace x); [exact IH | reflexivity].
Qed.

Lemma trimEnd_cons (c : N) (t : jsstring) :
  isWhiteSpace c = false -> trimEnd (c :: t) = c :: trimEnd t.
Proof.
  intros Hc. unfold trimEnd. simpl.
  rewrite (trimStart_snoc (rev t) c Hc), rev_app_distr. reflexivity.
Qed.

Lemma trimEnd_idempotent (s : jsstring) : trimEnd (trimEnd s) = trimEnd s.
Proof.
  unfold trimEnd. now rewrite rev_involutive, trimStart_idempotent.
Qed.

(** Trimming a trimmed string changes nothing. *)
Lemma trim_idempotent (s : jsstring) : trim (trim s) = trim s.
Proof.
  unfold trim.
  destruct (trimStart_head s) as [He | (c & t & He & Hc)]; rewrite He.
  - reflexivity.
  - rewrite (trimEnd_cons c t Hc). simpl. rewrite Hc.
    rewrite <- (trimEnd_cons c t Hc). apply trimEnd_idempotent.
Qed.

Lemma split_pieces (sep : N) (s : jsstring) :
  forall p, In p (split sep s) -> ~ In sep p.
Proof.
  induction s as [| c s IH]; simpl; intros p Hp.
  - destruct Hp as [<- | []]. intros [].
  - destruct (N.eqb_spec c sep) as [-> | Hne].
    + destruct Hp as [<- | Hp]; [intros [] | now apply IH].
    + destruct (split sep s) as [| q qs] eqn:Hs;
        [now apply split_nonempty in Hs |].
      destruct Hp as [<- | Hp].
      * intros [Hc | Hq]; [now apply Hne |].
        apply (IH q); [now left | exact Hq].
      * apply IH. now right.
Qed.

Lemma last_In {A} (l : list A) (d : A) : l <> [] -> In (last l d) l.
Proof.
  induction l as [| x l IH]; intros Hl; [contradiction |].
  destruct l as [| y l']; [now left |].
  right. apply IH. discriminate.
Qed.

Lemma hd_split_In (sep : N) (s : jsstring) :
  In (hd [] (split sep s)) (split sep s).
Proof.
  destruct (split sep s) eqn:Hs; [now apply split_nonempty in Hs |].
  now left.
Qed.

(** A string with a separator splits at its last occurrence. *)
Lemma last_occurrence (sep : N) (u : jsstring) :
  In sep u -> exists p t, u = p ++ sep :: t /\ ~ In sep t.
Proof.
  induction u as [| c u IH]; intros Hin; [destruct Hin |].
  destruct (in_dec N.eq_dec sep u) as [Hu | Hu].
  - destruct (IH Hu) as (p & t & -> & Ht). now exists (c :: p), t.
  - destruct Hin as [-> | Hin]; [| contradiction]. now exists [], u.
Qed.

(** X1. The extension of any URL: [wav] when the URL has no dot or ends
    in its last dot; otherwise what follows the last dot up to the
    first question mark, which may be empty. *)
Theorem extension_by_last_dot :
  forall u : jsstring,
    (~ In 46%N u /\ extension u = str "wav")
    \/ exists p t,
         u = p ++ 46%N :: t
         /\ ~ In 46%N t
         /\ extension u
            = match t with
              | [] => str "wav"
              | _ => hd [] (split 63 t)
              end.
Proof.
  intros u. destruct (in_dec N.eq_dec 46%N u) as [Hin | Hout].
  - right. destruct (last_occurrence _ _ Hin) as (p & t & -> & Ht).
    exists p, t. split; [reflexivity |]. split; [exact Ht |].
    destruct t as [| c t'].
    + unfold extension. rewrite split_app. simpl.
      rewrite last_app_single, length_app. simpl.
      destruct (split 46 p) as [| q qs] eqn:Hs;
        [now apply split_nonempty in Hs |].
      simpl. replace (1 <? S (List.length qs + 1)) with true
        by (symmetry; apply Nat.ltb_lt; lia).
      reflexivity.
    + apply extension_after_last_dot; [exact Ht | discriminate].
  - left. split; [exact Hout | now apply extension_no_dot].
Qed.

(** X2. The extension never holds a dot or a question mark. *)
Theorem extension_has_no_dot_no_query :
  forall u : jsstring,
    ~ In 46%N (extension u) /\ ~ In 63%N (extension u).
Proof.
  intros u. unfold extension.
  destruct (1 <? List.length (split 46 u));
    [| split; vm_compute; intuition discriminate].
  destruct (0 <? List.length (last (split 46 u) []));
    [| split; vm_compute; intuition discriminate].
  assert (Hlast : ~ In 46%N (last (split 46 u) [])).
  { apply (split_pieces 46 u). apply last_In. apply split_nonempty. }
  split.
  - intros Hin. apply Hlast. clear Hlast.
    revert Hin. generalize (last (split 46 u) []). intros l.
    induction l as [| c l IH]; simpl; [intros [] |].
    destruct (N.eqb_spec c 63) as [-> | Hne]; simpl; [intros [] |].
    destruct (split 63 l) as [| q qs] eqn:Hs;
      [now apply split_nonempty in Hs |].
    simpl in *. intros [Hc | Hq]; [now left | right; now apply IH].
  - apply (split_pieces 63 (last (split 46 u) [])). apply hd_split_In.
Qed.

(** X3. The earlier variant computes the same extension except for a
    URL that ends in a dot, where it yields the empty extension and the
    current one yields [wav]. *)
Theorem earlier_extension_differs_at_trailing_dot :
  forall u : jsstring,
    Earlier.extension u = extension u
    \/ (exists p, u = p ++ [46%N])
       /\ Earlier.extension u = []
       /\ extension u = str "wav".
Proof.
  intros u. destruct (in_dec N.eq_dec 46%N u) as [Hin | Hout].
  - destruct (last_occurrence _ _ Hin) as (p & t & -> & Ht).
    unfold Earlier.extension, extension.
    rewrite split_app, (split_no_sep 46 t Ht), last_app_single, length_app.
    destruct (split 46 p) as [| q qs] eqn:Hs;
      [now apply split_nonempty in Hs |].
    simpl List.length.
    replace (1 <? S (List.length qs) + 1) with true
      by (symmetry; apply Nat.ltb_lt; lia).
    destruct t as [| c t']; [| now left].
    right. split; [now exists p |]. split; reflexivity.
  - left. unfold Earlier.extension, extension.
    now rewrite (split_no_sep 46 u Hout).
Qed.

Lemma uint_units_digits (d : Decimal.uint) :
  forall c, In c (uint_units d) -> (48 <= c <= 57)%N.
Proof.
  induction d; simpl; intros c Hc; try contradiction;
    (destruct Hc as [<- | Hc]; [lia | now apply IHd]).
Qed.

Lemma uint_units_injective (d d' : Decimal.uint) :
  uint_units d = uint_units d' -> d = d'.
Proof.
  revert d'. induction d; intros d' H; destruct d'; simpl in H;
    try discriminate H; try reflexivity;
    inversion H; f_equal; now apply IHd.
Qed.

Lemma dec_injective (i j : nat) : dec i = dec j -> i = j.
Proof.
  unfold dec. intros H. apply uint_units_injective in H.
  rewrite <- (DecimalNat.Unsigned.of_to i), <- (DecimalNat.Unsigned.of_to j).
  now rewrite H.
Qed.

Lemma dec_no_dot (i : nat) : ~ In 46%N (dec i).
Proof.
  intros Hin. apply uint_units_digits in Hin. lia.
Qed.

Lemma app_same_length {A} (a b x y : list A) :
  List.length a = List.length b -> a ++ x = b ++ y -> a = b /\ x = y.
Proof.
  revert b. induction a as [| c a IH]; intros [| d b] Hl H;
    simpl in *; try discriminate Hl.
  - now split.
  - inversion H; subst. destruct (IH b) as (-> & ->); auto.
Qed.

Lemma before_separator (sep : N) (a b x y : jsstring) :
  ~ In sep a -> ~ In sep b -> a ++ sep :: x = b ++ sep :: y ->
  a = b /\ x = y.
Proof.
  revert b. induction a as [| c a IH]; intros [| d b] Ha Hb H; simpl in *.
  - inversion H. now split.
  - inversion H; subst. exfalso. apply Hb. now left.
  - inversion H; subst. exfalso. apply Ha. now left.
  - inversion H; subst. destruct (IH b) as (-> & ->); auto.
Qed.

(** X4. Scratch file names do not collide: two names built from
    request ids of the same length are equal only for the same id, the
    same index and the same extension. *)
Theorem filename_injective :
  forall (requestId requestId' : jsstring) (i j : nat)
         (stemUrl stemUrl' : jsstring),
    List.length requestId = List.length requestId' ->
    filename requestId i stemUrl = filename requestId' j stemUrl' ->
    requestId = requestId' /\ i = j
    /\ extension stemUrl = extension stemUrl'.
Proof.
  intros rid rid' i j u u' Hlen H. unfold filename in H.
  apply (app_same_length _ _ _ _ Hlen) in H. destruct H as (-> & H).
  apply app_inv_head in H.
  change (str "." ++ extension u) with (46%N :: extension u) in H.
  change (str "." ++ extension u') with (46%N :: extension u') in H.
  apply before_separator in H; try apply dec_no_dot.
  destruct H as (Hd & He). apply dec_injective in Hd. auto.
Qed.

(** X4, at two URLs with the same extension under one id and index. *)
Lemma filename_injective_witness :
  str "id" = str "id" /\ 0 = 0
  /\ extension (str "https://x/a.wav")
     = extension (str "https://y/b.wav?k=1").
Proof.
  apply (@filename_injective (str "id") (str "id") 0 0
           (str "https://x/a.wav") (str "https://y/b.wav?k=1"));
    reflexivity.
Defined.

(** X20. The oldest variant computes an extension only for an object
    stem whose [url] is a string; a plain string stem throws. Its
    extension is all that follows the last dot, query string included,
    so that the current extension is the oldest one cut at the first
    question mark; and for a URL without any dot the oldest variant
    takes the whole URL for the extension where the current one takes
    [wav]. *)
Theorem oldest_extension_keeps_the_query :
  forall (stem : JSValue) (e : jsstring),
    Oldest.extension stem = Ok e ->
    exists props u,
      stem = JObj props
      /\ lookup (str "url") props = Some (JStr u)
      /\ e <> []
      /\ ~ In 46%N e
      /\ (In 46%N u -> extension u = hd [] (split 63 e))
      /\ (~ In 46%N u -> u <> [] -> e = u /\ extension u = str "wav").
Proof.
  intros stem e H. unfold Oldest.extension in H.
  destruct stem as [| | b | x | s | l | props]; simpl in H;
    try discriminate H.
  destruct (lookup (str "url") props) as [[| | b | x | u | l | props'] |]
    eqn:Hl; simpl in H; try discriminate H.
  exists props, u. split; [reflexivity |]. split; [exact Hl |].
  assert (Hwav : ~ In 46%N (str "wav"))
    by (vm_compute; intuition discriminate).
  destruct (in_dec N.eq_dec 46%N u) as [Hin | Hout].
  - destruct (last_occurrence _ _ Hin) as (p & t & -> & Ht).
    rewrite split_app, (split_no_sep 46 t Ht), last_app_single in H.
    destruct t as [| c t'].
    + inversion H; subst e. split; [discriminate |].
      split; [exact Hwav |]. split; [| tauto].
      intros _. unfold extension. rewrite split_app. simpl.
      rewrite last_app_single, length_app. simpl.
      destruct (split 46 p) as [| q qs] eqn:Hs;
        [now apply split_nonempty in Hs |].
      simpl. replace (1 <? S (List.length qs + 1)) with true
        by (symmetry; apply Nat.ltb_lt; lia).
      reflexivity.
    + inversion H; subst e. split; [discriminate |].
      split; [exact Ht |]. split; [| tauto].
      intros _. apply extension_after_last_dot; [exact Ht | discriminate].
  - rewrite (split_no_sep 46 u Hout) in H. simpl in H.
    destruct u as [| c u'].
    + inversion H; subst e. split; [discriminate |].
      split; [exact Hwav |]. split; [tauto |]. intros _ Hne.
      now contradiction Hne.
    + inversion H; subst e. split; [discriminate |].
      split; [exact Hout |]. split; [tauto |]. intros _ _.
      split; [reflexivity | now apply extension_no_dot].
Qed.

(** X20, at an object stem whose URL carries a query string. *)
Lemma oldest_extension_keeps_the_query_witness :
  exists props u,
    JObj [(str "url", JStr (str "https://x/a.wav?k=1"))] = JObj props
    /\ lookup (str "url") props = Some (JStr u)
    /\ str "wav?k=1" <> []
    /\ ~ In 46%N (str "wav?k=1")
    /\ (In 46%N u -> extension u = hd [] (split 63 (str "wav?k=1")))
    /\ (~ In 46%N u -> u <> [] ->
        str "wav?k=1" = u /\ extension u = str "wav").
Proof.
  apply (@oldest_extension_keeps_the_query
           (JObj [(str "url", JStr (str "https://x/a.wav?k=1"))])
           (str "wav?k=1")).
  reflexivity.
Defined.

End NameFacts.

(* ================================================================== *)
(** ** Further properties of the validation loop *)
(* ================================================================== *)

Module LoopFacts.

Import StemFacts NameFacts.

Lemma eqb_false (a b : jsstring) : eqb a b = false -> a <> b.
Proof.
  unfold eqb. destruct (jsstring_eq_dec a b); [discriminate | auto].
Qed.

Lemma eqb_false_iff (a b : jsstring) : a <> b -> eqb a b = false.
Proof.
  unfold eqb. destruct (jsstring_eq_dec a b); [contradiction | auto].
Qed.

(** The URL a round pushes is the trimmed URL of its stem, and the
    stem is well formed. *)
Lemma validateStem_pushes_url rid i stem u :
  validateStem rid i stem = Ok (inr u) ->
  u = trimmedUrl stem /\ u <> [] /\ wellFormed stem = true.
Proof.
  unfold validateStem, wellFormed. intros H.
  split_result H as shown0 Hshown0.
  destruct stem as [| | b | x | s | l | props]; simpl in H;
    try discriminate H.
  - simpl. destruct (eqb (trim s) []) eqn:He; [discriminate H |].
    inversion H; subst. apply eqb_false in He. auto.
  - simpl in Hshown0. simpl.
    destruct (lookup (str "toString") props); [discriminate Hshown0 |].
    destruct (lookup (str "url") props) as [url |];
      simpl in H; [| discriminate H].
    destruct (truthy url) eqn:Ht; simpl in H; [| discriminate H].
    destruct (ToString url) as [shown | err]; simpl in H;
      [| discriminate H].
    destruct url as [| | b | x | s | l | props']; simpl in Ht;
      try discriminate Ht; simpl in H; try rewrite Ht in H;
      try discriminate H.
    destruct (eqb (trim s) []) eqn:He; [discriminate H |].
    inversion H; subst. apply eqb_false in He. auto.
Qed.

(** A round over a well-formed stem pushes its trimmed URL. *)
Lemma validateStem_wellFormed rid i stem :
  wellFormed stem = true ->
  validateStem rid i stem = Ok (inr (trimmedUrl stem)).
Proof.
  unfold wellFormed, validateStem. intros H.
  apply andb_true_iff in H. destruct H as (Ha & Hw).
  destruct stem as [| | b | x | s | l | props]; simpl in Ha;
    try discriminate Ha.
  - simpl. apply negb_true_iff in Ha. now rewrite Ha.
  - simpl. destruct (lookup (str "toString") props);
      [discriminate Hw |].
    simpl. destruct (lookup (str "url") props) as [[| | | | u | |] |];
      try discriminate Ha.
    apply negb_true_iff in Ha.
    assert (Hu : u <> []).
    { intros ->. apply eqb_false in Ha. now apply Ha. }
    destruct u as [| c u']; [contradiction |].
    simpl. now rewrite Ha.
Qed.

Lemma validateStems_pushes rid stems :
  forall i acc validated,
    validateStems rid stems i acc = Ok (inr validated) ->
    validated = acc ++ map trimmedUrl stems
    /\ forallb wellFormed stems = true.
Proof.
  induction stems as [| stem rest IH]; intros i acc validated H;
    simpl in H.
  - inversion H; subst. simpl. now rewrite app_nil_r.
  - split_result H as v Hv. destruct v as [response | u];
      [discriminate H |].
    apply validateStem_pushes_url in Hv. destruct Hv as (-> & _ & Hw).
    apply IH in H. destruct H as (-> & Hrest).
    simpl. rewrite Hw, Hrest, <- app_assoc. auto.
Qed.

Lemma validateStems_wellFormed rid stems :
  forall i acc,
    forallb wellFormed stems = true ->
    validateStems rid stems i acc = Ok (inr (acc ++ map trimmedUrl stems)).
Proof.
  induction stems as [| stem rest IH]; intros i acc H; simpl.
  - now rewrite app_nil_r.
  - simpl in H. apply andb_true_iff in H. destruct H as (Hw & Hrest).
    rewrite (validateStem_wellFormed rid i stem Hw). simpl.
    rewrite (IH (S i) (acc ++ [trimmedUrl stem]) Hrest).
    now rewrite <- app_assoc.
Qed.

Lemma wellFormed_trimmed stem :
  wellFormed stem = true ->
  trimmedUrl stem <> [] /\ trim (trimmedUrl stem) = trimmedUrl stem.
Proof.
  intros H. unfold wellFormed in H. apply andb_true_iff in H.
  destruct H as (Ha & _).
  destruct stem as [| | b | x | s | l | props]; simpl in Ha;
    try discriminate Ha; simpl.
  - apply negb_true_iff, eqb_false in Ha.
    split; [exact Ha | apply trim_idempotent].
  - destruct (lookup (str "url") props) as [[| | | | u | |] |];
      try discriminate Ha.
    apply negb_true_iff, eqb_false in Ha.
    split; [exact Ha | apply trim_idempotent].
Qed.

(** X5. The validation loop passes exactly the lists of well-formed
    stems, and what it hands to the download loop is the list of their
    trimmed URLs, in the order of the stems. *)
Theorem validation_passes_wellformed_in_order :
  forall (requestId : jsstring) (stems : list JSValue)
         (validated : list jsstring),
    validateStems requestId stems 0 [] = Ok (inr validated)
    <-> forallb wellFormed stems = true
        /\ validated = map trimmedUrl stems.
Proof.
  intros rid stems validated. split.
  - intros H. apply validateStems_pushes in H. simpl in H. tauto.
  - intros (Hw & ->). now rewrite (validateStems_wellFormed rid stems 0 []).
Qed.

(** X6. Every URL that passes validation is non-empty and has no white
    space at either end, so trimming it again changes nothing; there is
    one per stem. *)
Theorem validated_urls_are_trimmed :
  forall (requestId : jsstring) (stems : list JSValue)
         (validated : list jsstring),
    validateStems requestId stems 0 [] = Ok (inr validated) ->
    List.length validated = List.length stems
    /\ Forall (fun url => url <> [] /\ trim url = url) validated.
Proof.
  intros rid stems validated H.
  apply validateStems_pushes in H. destruct H as (-> & Hw). simpl.
  split; [apply length_map |].
  apply Forall_forall. intros url Hin.
  apply in_map_iff in Hin. destruct Hin as (stem & <- & Hin).
  apply wellFormed_trimmed.
  rewrite forallb_forall in Hw. now apply Hw.
Qed.

(** X6, at a string stem and an object stem with white space around
    their URLs. *)
Lemma validated_urls_are_trimmed_witness :
  List.length [str "https://x/a.wav"; str "https://x/b.wav"] = 2
  /\ Forall (fun url => url <> [] /\ trim url = url)
            [str "https://x/a.wav"; str "https://x/b.wav"].
Proof.
  apply (@validated_urls_are_trimmed (str "id")
           [JStr (str "  https://x/a.wav ");
            JObj [(str "url", JStr (str " https://x/b.wav  "))]]
           [str "https://x/a.wav"; str "https://x/b.wav"]).
  reflexivity.
Defined.

(** X7. When the validation loop answers, the body of its 400 holds an
    error message, the received value and the request id, for stems of
    a decoded body (none of them [undefined]). *)
Theorem validation_answer_has_three_fields :
  forall (requestId : jsstring) (stems : list JSValue) (response : Response),
    validateStems requestId stems 0 [] = Ok (inl response) ->
    ~ In JUndefined stems ->
    exists (message : jsstring) (received : JSValue),
      response
      = Json 400 [(str "error", JStr message);
                  (str "received", received);
                  (str "requestId", JStr requestId)].
Proof.
  intros rid stems response H Hdef.
  apply validateStems_answers in H.
  destruct H as (k & bad & Hnth & _ & _ & Hr).
  assert (Hbad : bad <> JUndefined).
  { intros ->. apply Hdef. eapply nth_error_In. eassumption. }
  destruct (validation_bodies rid (0 + k) [] Hbad) as (Hstem & _).
  destruct Hr as [-> | (u & ->)].
  - rewrite Hstem. eexists. eexists. reflexivity.
  - destruct (validation_bodies rid (0 + k) u Hbad) as (_ & Hurl).
    rewrite Hurl. eexists. eexists. reflexivity.
Qed.

(** X7, at a stems array whose second element is a number. *)
Lemma validation_answer_has_three_fields_witness :
  exists (message : jsstring) (received : JSValue),
    invalidStem (str "id") 1 (JNum (Dec false 5 0))
    = Json 400 [(str "error", JStr message);
                (str "received", received);
                (str "requestId", JStr (str "id"))].
Proof.
  apply (@validation_answer_has_three_fields (str "id")
           [JStr (str "https://x/a.wav"); JNum (Dec false 5 0)]).
  - reflexivity.
  - simpl. intuition discriminate.
Defined.

(** X8. The earlier variant of the round never throws: it pushes the
    trimmed URL of every acceptable stem and answers 400 to every
    other stem; and whenever the current round returns, the earlier
    one returns the same. *)
Theorem earlier_round_decides_every_stem :
  forall (requestId : jsstring) (i : nat) (stem : JSValue),
    (acceptable stem = true ->
       Earlier.validateStem requestId i stem = Ok (inr (trimmedUrl stem)))
    /\ (acceptable stem = false ->
          Earlier.validateStem requestId i stem
          = Ok (inl (invalidStem requestId i stem))
          \/ exists url,
               Earlier.validateStem requestId i stem
               = Ok (inl (invalidUrl requestId i url)))
    /\ (forall outcome,
          validateStem requestId i stem = Ok outcome ->
          Earlier.validateStem requestId i stem = Ok outcome).
Proof.
  intros rid i stem. split; [| split].
  - intros Ha. unfold Earlier.validateStem.
    destruct stem as [| | b | x | s | l | props]; simpl in Ha;
      try discriminate Ha; simpl.
    + apply negb_true_iff in Ha. now rewrite Ha.
    + destruct (lookup (str "url") props) as [[| | | | u | |] |];
        try discriminate Ha.
      apply negb_true_iff in Ha.
      assert (Hu : u <> []).
      { intros ->. apply eqb_false in Ha. now apply Ha. }
      destruct u as [| c u']; [contradiction |].
      simpl. now rewrite Ha.
  - intros Ha. unfold Earlier.validateStem.
    destruct stem as [| | b | x | s | l | props]; simpl in Ha; simpl;
      try (now left).
    + apply negb_false_iff in Ha. rewrite Ha. right. now eexists.
    + destruct (lookup (str "url") props) as [url |]; simpl;
        [| now left].
      destruct (truthy url) eqn:Ht; simpl; [| now left].
      destruct url as [| | b | x | u | l | props']; simpl in Ht;
        try discriminate Ht; try (right; now eexists).
      apply negb_false_iff in Ha. rewrite Ha. right. now eexists.
  - intros outcome H. unfold validateStem in H.
    split_result H as shown0 Hshown0. unfold Earlier.validateStem.
    destruct stem as [| | b | x | s | l | props]; simpl in H; simpl;
      try exact H.
    destruct (lookup (str "url") props) as [url |]; simpl in H; simpl;
      [| exact H].
    destruct (truthy url) eqn:Ht; simpl in H; simpl; [| exact H].
    destruct (ToString url) as [shown | err]; simpl in H;
      [| discriminate H].
    destruct url as [| | b | x | u | l | props']; simpl in Ht;
      try discriminate Ht; simpl in H; try rewrite Ht in H;
      try discriminate H.
    exact H.
Qed.

(** X8, at a string stem with white space around its URL. *)
Lemma earlier_round_decides_every_stem_witness :
  Earlier.validateStem (str "id") 0 (JStr (str " https://x/a.wav "))
  = Ok (inr (str "https://x/a.wav")).
Proof.
  apply (proj1 (@earlier_round_decides_every_stem
                  (str "id") 0 (JStr (str " https://x/a.wav ")))).
  reflexivity.
Defined.

End LoopFacts.

(* ================================================================== *)
(** ** Further properties of the argument list *)
(* ================================================================== *)

Module GainFacts.

Import MixerFacts.

Lemma shownVolume_numeric (xs : list JSNumber) :
  forall index,
    shownVolume (JArr (map JNum xs)) index
    = Ok (numberToString (gainOf xs index)).
Proof.
  unfold shownVolume, volumeAt, gainOf.
  induction xs as [| x xs IH]; intros [| index]; try reflexivity.
  - cbn [map getIndex nth nth_error rbind]. unfold or_else.
    destruct (truthy (JNum x)); reflexivity.
  - apply IH.
Qed.

Lemma mapi_by_index {B} (f : nat -> jsstring -> B) (g : nat -> jsstring)
    (shown : list jsstring) :
  forall i0,
    (forall j, j < List.length shown -> nth j shown [] = g (i0 + j)) ->
    mapi (fun s index => f index s) shown i0
    = map (fun index => f index (g index)) (seq i0 (List.length shown)).
Proof.
  induction shown as [| s rest IH]; intros i0 H; simpl; [reflexivity |].
  f_equal.
  - specialize (H 0). simpl in H. rewrite Nat.add_0_r in H.
    rewrite H by lia. reflexivity.
  - apply IH. intros j Hj. specialize (H (S j)). simpl in H.
    replace (S i0 + j) with (i0 + S j) by lia. apply H. lia.
Qed.

(** X9. Under an array of numbers the gain of each input is the entry
    at its index when that entry is neither zero nor NaN, and 1
    otherwise, also past the end of the array; the call never throws.
    Leaving the volumes out is the same as passing an empty array. *)
Theorem numeric_volumes_gain_table :
  forall (inputFiles : list jsstring) (outputFile : jsstring)
         (xs : list JSNumber),
    mixArgs inputFiles outputFile (JArr (map JNum xs))
    = Ok (flat_map (fun file => [str "-i"; file]) inputFiles
          ++ [str "-filter_complex";
              List.concat
                (map (fun index =>
                        gainFilter index (numberToString (gainOf xs index)))
                     (seq 0 (List.length inputFiles)))
              ++ List.concat (map mixInput (seq 0 (List.length inputFiles)))
              ++ amix (List.length inputFiles);
              str "-map"; str "[out]"; str "-c:a"; str "mp3";
              str "-b:a"; str "192k"; str "-y"; outputFile])
    /\ mixArgs inputFiles outputFile JUndefined
       = mixArgs inputFiles outputFile (JArr []).
Proof.
  intros inputFiles outputFile xs. split; [| reflexivity].
  destruct (mixArgs_returns inputFiles outputFile
              (proj1 (numeric_printable xs (List.length inputFiles))))
    as (shown & Hlen & Hnth & Hargs).
  assert (Hm : mapi (fun s index => gainFilter index s) shown 0
               = map (fun index =>
                        gainFilter index (numberToString (gainOf xs index)))
                     (seq 0 (List.length inputFiles))).
  { rewrite <- Hlen.
    apply (mapi_by_index gainFilter
             (fun index => numberToString (gainOf xs index))).
    intros j Hj. rewrite Hlen in Hj. specialize (Hnth j Hj).
    simpl defaultVolumes in Hnth. rewrite shownVolume_numeric in Hnth.
    now inversion Hnth. }
  rewrite Hargs, Hm. reflexivity.
Qed.

End GainFacts.

(* ================================================================== *)
(** ** The paths through a request *)
(* ================================================================== *)

Module PathFacts.

Import CleanupFacts StemFacts HandlerFacts NameFacts LoopFacts.

(** [downloadFile] either writes its file after a GET answered in
    200-299; or throws with the disk as it was, after one GET at most;
    or throws out of a write that left the file behind. *)
Lemma downloadFile_cases env url filepath (s : State) :
  (exists status statusText n,
     ok status = true
     /\ downloadFile env url filepath s
        = (Ok tt,
           {| disk := if in_dec jsstring_eq_dec filepath (disk s)
                      then disk s else filepath :: disk s;
              trace := trace s
                       ++ [EvDownloadFile url filepath;
                           EvFetch url (Resolved status statusText (Ok n));
                           EvWriteFile filepath];
              tempFiles := tempFiles s |}))
  \/ (exists e ev,
        downloadFile env url filepath s
        = (Throw e,
           {| disk := disk s;
              trace := trace s ++ EvDownloadFile url filepath :: ev;
              tempFiles := tempFiles s |})
        /\ (ev = [] \/ exists outcome, ev = [EvFetch url outcome]))
  \/ (exists e status statusText n h,
        ok status = true
        /\ writeFileSync env h filepath = WriteFailed e true
        /\ downloadFile env url filepath s
           = (Throw e,
              {| disk := if in_dec jsstring_eq_dec filepath (disk s)
                         then disk s else filepath :: disk s;
                 trace := trace s
                          ++ [EvDownloadFile url filepath;
                              EvFetch url (Resolved status statusText (Ok n))];
                 tempFiles := tempFiles s |})).
Proof.
  unfold downloadFile, bind, emit, history, throw, created, ret. simpl.
  destruct (eqb (trim url) []);
    [right; left; do 2 eexists; split; [reflexivity | now left] |].
  destruct (eqb (trim filepath) []);
    [right; left; do 2 eexists; split; [reflexivity | now left] |].
  simpl.
  destruct (fetch env (trace s ++ [EvDownloadFile url filepath]) url)
    as [err | status statusText [n | err]] eqn:Hf; simpl.
  - right; left. rewrite <- app_assoc. simpl. do 2 eexists.
    split; [reflexivity | right; now eexists].
  - destruct (ok status) eqn:Hok; simpl.
    + destruct (writeFileSync env _ filepath) as [| err [|]] eqn:Hw; simpl.
      * left. exists status, statusText, n. split; [exact Hok |].
        rewrite <- !app_assoc. reflexivity.
      * right; right. exists err, status, statusText, n. eexists.
        split; [exact Hok |]. split; [exact Hw |].
        rewrite <- !app_assoc. reflexivity.
      * right; left. rewrite <- app_assoc. simpl. do 2 eexists.
        split; [reflexivity | right; now eexists].
    + right; left. rewrite <- app_assoc. simpl. do 2 eexists.
      split; [reflexivity | right; now eexists].
  - destruct (ok status) eqn:Hok; simpl;
      right; left; rewrite <- app_assoc; simpl; do 2 eexists;
      (split; [reflexivity | right; now eexists]).
Qed.

Lemma firstn_cons_S {A} (x : A) (l : list A) (k : nat) :
  x :: firstn k l = firstn (S k) (x :: l).
Proof. reflexivity. Qed.

(** The download loop: it adds download events only; the paths it
    pushed are the first ones of the loop's paths, each written; what is
    new on the disk afterwards is a path it pushed or, when the loop
    threw, a scratch path at which a failed write left a file; its
    calls of [downloadFile] are the first pairs of URL and path; when it
    returns, it pushed them all and returns them behind [inputFiles]. *)
Lemma downloadStems_outcome env (validatedStems : list jsstring) :
  forall (i : nat) (inputFiles : list jsstring) (s : State),
    exists (ev : list Event) (pushed d' : list jsstring),
      snd (downloadStems env validatedStems i inputFiles s)
      = {| disk := d'; trace := trace s ++ ev;
           tempFiles := tempFiles s ++ pushed |}
      /\ Forall isDownloadEvent ev
      /\ (forall p, In p d' ->
            In p (disk s) \/ In p pushed
            \/ (leftByFailedWrite env p
                /\ In p (scratchPaths env validatedStems i)
                /\ exists e,
                     fst (downloadStems env validatedStems i inputFiles s)
                     = Throw e))
      /\ (forall p, In p pushed <-> In (EvWriteFile p) ev)
      /\ (exists k, pushed = firstn k (scratchPaths env validatedStems i))
      /\ (exists n,
            downloadCalls ev
            = firstn n (combine validatedStems
                                (scratchPaths env validatedStems i)))
      /\ match fst (downloadStems env validatedStems i inputFiles s) with
         | Ok files =>
             files = inputFiles ++ scratchPaths env validatedStems i
             /\ pushed = scratchPaths env validatedStems i
             /\ downloadCalls ev
                = combine validatedStems (scratchPaths env validatedStems i)
         | Throw _ => True
         end.
Proof.
  induction validatedStems as [| stemUrl rest IH]; intros i inputFiles s.
  - exists [], [], (disk s). simpl. rewrite !app_nil_r.
    destruct s; simpl. repeat split; auto; try tauto.
    + now exists 0.
    + now exists 0.
  - rewrite downloadStems_cons. cbv zeta. simpl scratchPaths.
    set (filepath := pathJoin env (tempDir env) _).
    destruct (downloadFile_cases env stemUrl filepath s)
      as [(status & statusText & n & Hok & Hd)
         | [(e & ev1 & Hd & Hev1)
           | (e & status & statusText & n & h & Hok & Hleft & Hd)]];
      rewrite Hd; simpl.
    + match goal with
      | |- context [downloadStems env rest (S i) ?inp ?st] =>
          destruct (IH (S i) inp st)
            as (ev2 & pushed & d2 & Hs2 & Hev2 & Hd2 & Hw2 & Hk & Hn & Hr)
      end.
      simpl in Hs2, Hd2.
      exists ([EvDownloadFile stemUrl filepath;
               EvFetch stemUrl (Resolved status statusText (Ok n));
               EvWriteFile filepath] ++ ev2), (filepath :: pushed), d2.
      rewrite Hs2, <- !app_assoc. simpl. split; [reflexivity |].
      split; [repeat constructor; exact Hev2 |]. split.
      { intros p Hp. destruct (Hd2 p Hp) as [H | [H | (Hl & Hin & Hthrew)]].
        - destruct (in_dec jsstring_eq_dec filepath (disk s)) as [Hi | Ho];
            simpl in H; intuition (subst; auto).
        - auto.
        - right; right. auto. }
      split.
      { intros p. simpl. rewrite Hw2. split.
        - intros [<- | Hp]; [right; right; now left | do 3 right; exact Hp].
        - intros [H | [H | [H | H]]]; try discriminate H;
            [inversion H; now left | now right]. }
      split.
      { destruct Hk as (k & ->). exists (S k). reflexivity. }
      split.
      { destruct Hn as (m & ->). exists (S m). reflexivity. }
      destruct (fst (downloadStems env rest (S i)
                       (inputFiles ++ [filepath]) _)) as [files | err];
        [| exact I].
      destruct Hr as (-> & -> & Hcalls). rewrite <- app_assoc.
      repeat split. simpl. now rewrite Hcalls.
    + exists (EvDownloadFile stemUrl filepath :: ev1), [], (disk s).
      rewrite app_nil_r. split; [reflexivity |].
      split.
      { destruct Hev1 as [-> | (outcome & ->)]; repeat constructor. }
      split; [intros p; simpl; tauto |].
      split.
      { intros p. simpl. split; [intros [] |].
        destruct Hev1 as [-> | (outcome & ->)]; simpl;
          intuition discriminate. }
      split; [now exists 0 |].
      split; [| exact I].
      exists 1. destruct Hev1 as [-> | (outcome & ->)]; reflexivity.
    + exists [EvDownloadFile stemUrl filepath;
              EvFetch stemUrl (Resolved status statusText (Ok n))], [].
      eexists. rewrite app_nil_r. split; [reflexivity |].
      split; [repeat constructor |].
      split.
      { intros p Hp.
        destruct (in_dec jsstring_eq_dec filepath (disk s)) as [Hi | Ho];
          [now left |].
        destruct Hp as [<- | Hp]; [| now left].
        right; right. split; [now exists h, e |].
        split; [now left | now exists e]. }
      split; [intros p; simpl; intuition discriminate |].
      split; [now exists 0 |].
      split; [| exact I].
      now exists 1.
Qed.

(** [mixAudioFiles] throws before starting anything when the arguments
    cannot be built; otherwise it starts one process and returns
    normally exactly on exit code 0. *)
Lemma mixAudioFiles_cases env inputFiles outputFile volumes (s : State) :
  (exists e,
     mixArgs inputFiles outputFile volumes = Throw e
     /\ mixAudioFiles env inputFiles outputFile volumes s = (Throw e, s))
  \/ (exists args,
        mixArgs inputFiles outputFile volumes = Ok args
        /\ match ffmpeg env (trace s ++ [EvSpawn args]) args with
           | SpawnError e =>
               mixAudioFiles env inputFiles outputFile volumes s
               = (Throw e,
                  {| disk := disk s; trace := trace s ++ [EvSpawn args];
                     tempFiles := tempFiles s |})
           | Closed code written =>
               mixAudioFiles env inputFiles outputFile volumes s
               = (match code with
                  | Some 0 => Ok tt
                  | _ => Throw (Error (str "ffmpeg process exited with code "
                                          ++ showCode code))
                  end,
                  {| disk := if written
                             then if in_dec jsstring_eq_dec outputFile (disk s)
                                  then disk s else outputFile :: disk s
                             else disk s;
                     trace := trace s ++ [EvSpawn args];
                     tempFiles := tempFiles s |})
           end).
Proof.
  unfold mixAudioFiles, bind, lift, emit, history, created, ret, throw.
  destruct (mixArgs inputFiles outputFile volumes) as [args | e];
    [right | left; now exists e].
  exists args. split; [reflexivity |]. simpl.
  destruct (ffmpeg env (trace s ++ [EvSpawn args]) args)
    as [e | code written]; [reflexivity |].
  destruct written, code as [[| c] |]; reflexivity.
Qed.

(** The ways through the handler once the stems are validated. *)
Lemma downloadAndMix_paths env validatedStems volumes (s : State) :
  (exists e s1,
     downloadStems env validatedStems 0 [] s = (Throw e, s1)
     /\ downloadAndMix env validatedStems volumes s = (Throw e, s1))
  \/ (exists files s1,
        downloadStems env validatedStems 0 [] s = (Ok files, s1)
        /\ ((exists e s3,
               mixAudioFiles env files (outputPath env) volumes
                 {| disk := disk s1; trace := trace s1;
                    tempFiles := tempFiles s1 ++ [outputPath env] |}
               = (Throw e, s3)
               /\ downloadAndMix env validatedStems volumes s
                  = (Throw e, s3))
            \/ (exists s3,
                  mixAudioFiles env files (outputPath env) volumes
                    {| disk := disk s1; trace := trace s1;
                       tempFiles := tempFiles s1 ++ [outputPath env] |}
                  = (Ok tt, s3)
                  /\ ~ In (outputPath env) (disk s3)
                  /\ downloadAndMix env validatedStems volumes s
                     = (Throw (Error (str "Mixed audio file was not created")),
                        s3))
            \/ (exists s3,
                  mixAudioFiles env files (outputPath env) volumes
                    {| disk := disk s1; trace := trace s1;
                       tempFiles := tempFiles s1 ++ [outputPath env] |}
                  = (Ok tt, s3)
                  /\ In (outputPath env) (disk s3)
                  /\ downloadAndMix env validatedStems volumes s
                     = match pipe env (trace s3) (outputPath env) with
                       | StreamEnd =>
                           cleanup env (tempFiles s3)
                             {| disk := disk s3;
                                trace := trace s3
                                         ++ [EvRespond
                                               (attachment (uuidv4 env)
                                                           (outputPath env))];
                                tempFiles := tempFiles s3 |}
                       | StreamError _ => cleanup env (tempFiles s3) s3
                       | StreamStalled => (Ok tt, s3)
                       end))).
Proof.
  unfold outputPath.
  remember (downloadAndMix env validatedStems volumes s) as r eqn:Hr.
  unfold downloadAndMix in Hr. unfold bind at 1 in Hr.
  destruct (downloadStems env validatedStems 0 [] s)
    as [[files | e] s1]; [right | left; now exists e, s1].
  exists files, s1. split; [reflexivity |].
  unfold bind at 1 in Hr. unfold pushTempFile at 1 in Hr.
  cbv beta iota in Hr. unfold bind at 1 in Hr.
  destruct (mixAudioFiles env files _ volumes _) as [[[] | e] s3];
    [| left; now exists e, s3].
  right. unfold bind at 1 in Hr. unfold existsSync at 1 in Hr.
  cbv beta iota in Hr.
  destruct (in_dec jsstring_eq_dec _ (disk s3)) as [Hin | Hout].
  - right. exists s3. split; [reflexivity |]. split; [exact Hin |].
    rewrite Hr. clear Hr. change (negb true) with false. cbv beta iota.
    unfold bind at 1. unfold history at 1. cbv beta iota.
    destruct (pipe env (trace s3) _); reflexivity.
  - left. exists s3. split; [reflexivity |]. split; [exact Hout |].
    exact Hr.
Qed.

(** The ways through the handler: it throws before any download and
    the catch block answers; or it answers 400 at once; or it validates
    the stems and goes on to download and mix, the catch block
    answering if that throws. *)
Lemma handle_paths env body disk0 :
  (exists e,
     handle env body disk0
     = snd (catchBlock env e
              {| disk := disk0; trace := []; tempFiles := [] |}))
  \/ (exists response,
        handle env body disk0
        = {| disk := disk0; trace := [EvRespond response];
             tempFiles := [] |}
        /\ (response = stemsRequired
            \/ exists stems,
                 getField body (str "stems") = Ok (JArr stems)
                 /\ validateStems (uuidv4 env) stems 0 []
                    = Ok (inl response)))
  \/ (exists stems volumes validatedStems,
        getField body (str "stems") = Ok (JArr stems)
        /\ stems <> []
        /\ getField body (str "volumes") = Ok volumes
        /\ validateStems (uuidv4 env) stems 0 [] = Ok (inr validatedStems)
        /\ handle env body disk0
           = match downloadAndMix env validatedStems volumes
                     {| disk := disk0; trace := []; tempFiles := [] |}
             with
             | (Ok _, s) => s
             | (Throw e, s) => snd (catchBlock env e s)
             end).
Proof.
  remember (handle env body disk0) as final eqn:Hfinal.
  unfold handle, mix, tryCatch, tryBlock in Hfinal.
  unfold bind at 1 in Hfinal. unfold lift at 1 in Hfinal.
  destruct (getField body (str "stems")) as [stems | e];
    [| left; now exists e].
  unfold bind at 1 in Hfinal. unfold lift at 1 in Hfinal.
  destruct (getField body (str "volumes")) as [volumes | e];
    [| left; now exists e].
  destruct (negb (truthy stems) || negb (isArray stems)
            || (List.length (elements stems) =? 0)) eqn:Hcond.
  { right. left. exists stemsRequired. split; [exact Hfinal | now left]. }
  apply orb_false_iff in Hcond. destruct Hcond as (Hcond & Hlen).
  apply orb_false_iff in Hcond. destruct Hcond as (_ & Harr).
  destruct stems as [| | | | | elems |]; try discriminate Harr.
  simpl elements in *.
  assert (Hne : elems <> []) by (intros ->; discriminate Hlen).
  unfold bind at 1 in Hfinal. unfold lift at 1 in Hfinal.
  destruct (validateStems (uuidv4 env) elems 0 [])
    as [[response | validatedStems] | e] eqn:Hval.
  - right. left. exists response. split; [exact Hfinal |].
    right. now exists elems.
  - right. right. exists elems, volumes, validatedStems.
    repeat split; auto.
    rewrite Hfinal.
    destruct (downloadAndMix env validatedStems volumes _) as [[[] | e] s1];
      reflexivity.
  - left. now exists e.
Qed.

(** The catch block before any download: no file is touched. *)
Lemma catchBlock_at_start env (e : JSError) disk0 :
  snd (catchBlock env e {| disk := disk0; trace := []; tempFiles := [] |})
  = {| disk := disk0;
       trace := [EvCleanup []; EvRespond (failed (uuidv4 env) e)];
       tempFiles := [] |}.
Proof. reflexivity. Qed.

Lemma downloadStems_facts env validatedStems i inputFiles s r s1 :
  downloadStems env validatedStems i inputFiles s = (r, s1) ->
  exists (ev : list Event) (pushed : list jsstring),
    trace s1 = trace s ++ ev
    /\ tempFiles s1 = tempFiles s ++ pushed
    /\ Forall isDownloadEvent ev
    /\ (forall p, In p (disk s1) ->
          In p (disk s) \/ In p pushed
          \/ (leftByFailedWrite env p
              /\ In p (scratchPaths env validatedStems i)
              /\ exists e, r = Throw e))
    /\ (forall p, In p pushed <-> In (EvWriteFile p) ev)
    /\ (exists k, pushed = firstn k (scratchPaths env validatedStems i))
    /\ (exists n,
          downloadCalls ev
          = firstn n (combine validatedStems
                              (scratchPaths env validatedStems i)))
    /\ match r with
       | Ok files =>
           files = inputFiles ++ scratchPaths env validatedStems i
           /\ pushed = scratchPaths env validatedStems i
           /\ downloadCalls ev
              = combine validatedStems (scratchPaths env validatedStems i)
       | Throw _ => True
       end.
Proof.
  intros H.
  destruct (downloadStems_outcome env validatedStems i inputFiles s)
    as (ev & pushed & d' & Hs & Hev & Hd & Hw & Hk & Hn & Hr).
  rewrite H in Hs, Hd, Hr. simpl in Hs, Hd, Hr. subst s1. simpl.
  exists ev, pushed. repeat split; auto; apply Hw.
Qed.

Lemma mixAudioFiles_facts env inputFiles outputFile volumes s r s' :
  mixAudioFiles env inputFiles outputFile volumes s = (r, s') ->
  tempFiles s' = tempFiles s
  /\ (forall p, In p (disk s') -> In p (disk s) \/ p = outputFile)
  /\ ((exists e,
         mixArgs inputFiles outputFile volumes = Throw e
         /\ r = Throw e /\ trace s' = trace s)
      \/ (exists args,
            mixArgs inputFiles outputFile volumes = Ok args
            /\ trace s' = trace s ++ [EvSpawn args]
            /\ match ffmpeg env (trace s ++ [EvSpawn args]) args with
               | SpawnError e => r = Throw e
               | Closed (Some 0) written =>
                   r = Ok tt /\ (written = true -> In outputFile (disk s'))
               | Closed code _ =>
                   r = Throw (Error (str "ffmpeg process exited with code "
                                        ++ showCode code))
               end)).
Proof.
  intros H.
  destruct (mixAudioFiles_cases env inputFiles outputFile volumes s)
    as [(e & Hargs & Heq) | (args & Hargs & Heq)].
  - rewrite Heq in H. inversion H; subst. repeat split; auto.
    left. now exists e.
  - destruct (ffmpeg env (trace s ++ [EvSpawn args]) args)
      as [e | code written] eqn:Hf;
      rewrite Heq in H; inversion H; subst; simpl.
    + repeat split; auto. right. exists args. rewrite Hf. auto.
    + split; [reflexivity |]. split.
      * intros p. destruct written; [| auto].
        destruct (in_dec jsstring_eq_dec outputFile (disk s)); [auto |].
        simpl. intros [<- | Hp]; auto.
      * right. exists args. rewrite Hf.
        split; [exact Hargs |]. split; [reflexivity |].
        destruct code as [[| c] |]; try reflexivity.
        split; [reflexivity |]. intros ->.
        destruct (in_dec jsstring_eq_dec outputFile (disk s));
          [assumption | now left].
Qed.

(** One pass of cleanup, in full: besides what [cleanupEach_spec]
    says, a deletion on record as failed was refused by [unlinkSync],
    and a file outside the list is neither removed nor added. *)
Lemma cleanupEach_full (env : Env) (files : list jsstring) :
  forall s : State,
    exists (unlinks : list Event) (d' : list jsstring),
      cleanupEach env files s
      = (Ok tt, {| disk := d'; trace := trace s ++ unlinks;
                   tempFiles := tempFiles s |})
      /\ incl d' (disk s)
      /\ (forall e, In e unlinks ->
            exists f removed,
              e = EvUnlink f removed /\ In f files
              /\ (removed = false -> exists h, unlinkSync env h f <> None))
      /\ (forall f, In f files ->
            ~ In f d' \/ In (EvUnlink f false) unlinks)
      /\ (forall p, ~ In p files -> In p (disk s) -> In p d').
Proof.
  induction files as [| file rest IH]; intros s.
  - exists [], (disk s). simpl. rewrite app_nil_r.
    destruct s; simpl.
    repeat split; auto; try apply incl_refl; intros ? [].
  - simpl. unfold bind at 1. unfold existsSync at 1.
    destruct (in_dec jsstring_eq_dec file (disk s)) as [Hin | Hout].
    + unfold bind at 1. unfold tryCatch, bind at 1. unfold history at 1.
      destruct (unlinkSync env (trace s) file) as [err |] eqn:Hu.
      * unfold bind, emit, throw, ret. simpl.
        destruct (IH {| disk := disk s;
                        trace := trace s ++ [EvUnlink file false];
                        tempFiles := tempFiles s |})
          as (unlinks & d' & Heq & Hincl & Hev & Hgone & Hkeep).
        simpl in *. rewrite Heq.
        exists (EvUnlink file false :: unlinks), d'.
        rewrite <- app_assoc. simpl. repeat split.
        -- exact Hincl.
        -- intros e [He | He].
           ++ exists file, false. subst e. repeat split; auto.
              intros _. exists (trace s). now rewrite Hu.
           ++ destruct (Hev e He) as (f & r & -> & Hf & Hr).
              exists f, r. auto.
        -- intros f [Hf | Hf].
           ++ subst f. right. now left.
           ++ destruct (Hgone f Hf) as [Hg | Hg]; [now left |].
              right. now right.
        -- intros p Hp Hd. apply Hkeep; [tauto | exact Hd].
      * unfold bind, removed, emit, ret. simpl.
        destruct (IH {| disk := remove jsstring_eq_dec file (disk s);
                        trace := trace s ++ [EvUnlink file true];
                        tempFiles := tempFiles s |})
          as (unlinks & d' & Heq & Hincl & Hev & Hgone & Hkeep).
        simpl in *. rewrite Heq.
        exists (EvUnlink file true :: unlinks), d'.
        rewrite <- app_assoc. simpl. repeat split.
        -- intros x Hx. apply Hincl in Hx.
           apply in_remove in Hx. tauto.
        -- intros e [He | He].
           ++ exists file, true. subst e. repeat split; auto.
              intros Hr. discriminate Hr.
           ++ destruct (Hev e He) as (f & r & -> & Hf & Hr).
              exists f, r. auto.
        -- intros f [Hf | Hf].
           ++ subst f. left. intros Hd. apply Hincl in Hd.
              now apply remove_In in Hd.
           ++ destruct (Hgone f Hf) as [Hg | Hg]; [now left |].
              right. now right.
        -- intros p Hp Hd. apply Hkeep; [tauto |].
           apply in_in_remove; [| exact Hd]. intros ->. tauto.
    + unfold bind at 1. unfold ret at 1.
      destruct (IH s) as (unlinks & d' & Heq & Hincl & Hev & Hgone & Hkeep).
      rewrite Heq. exists unlinks, d'. repeat split.
      * exact Hincl.
      * intros e He. destruct (Hev e He) as (f & r & -> & Hf & Hr).
        exists f, r. auto.
      * intros f [Hf | Hf].
        -- subst f. left. intros Hd. apply Hout. now apply Hincl.
        -- now apply Hgone.
      * intros p Hp Hd. apply Hkeep; [simpl in Hp; tauto | exact Hd].
Qed.

Lemma cleanup_facts env files s r s' :
  cleanup env files s = (r, s') ->
  r = Ok tt
  /\ tempFiles s' = tempFiles s
  /\ exists unlinks : list Event,
       trace s' = trace s ++ EvCleanup files :: unlinks
       /\ incl (disk s') (disk s)
       /\ (forall e, In e unlinks ->
             exists f removed,
               e = EvUnlink f removed /\ In f files
               /\ (removed = false -> exists h, unlinkSync env h f <> None))
       /\ (forall f, In f files ->
             ~ In f (disk s') \/ In (EvUnlink f false) unlinks)
       /\ (forall p, ~ In p files -> In p (disk s) -> In p (disk s')).
Proof.
  intros H. unfold cleanup, bind, emit in H.
  destruct (cleanupEach_full env files
              {| disk := disk s; trace := trace s ++ [EvCleanup files];
                 tempFiles := tempFiles s |})
    as (unlinks & d' & Heq & Hincl & Hev & Hgone & Hkeep).
  simpl in *. rewrite Heq in H. inversion H; subst. simpl.
  split; [reflexivity |]. split; [reflexivity |].
  exists unlinks. rewrite <- app_assoc. simpl. auto.
Qed.

Lemma catchBlock_facts env (error : JSError) s :
  exists unlinks : list Event,
    trace (snd (catchBlock env error s))
    = trace s ++ EvCleanup (tempFiles s) :: unlinks
      ++ [EvRespond (failed (uuidv4 env) error)]
    /\ incl (disk (snd (catchBlock env error s))) (disk s)
    /\ (forall e, In e unlinks ->
          exists f removed,
            e = EvUnlink f removed /\ In f (tempFiles s)
            /\ (removed = false -> exists h, unlinkSync env h f <> None))
    /\ (forall f, In f (tempFiles s) ->
          ~ In f (disk (snd (catchBlock env error s)))
          \/ In (EvUnlink f false) unlinks).
Proof.
  destruct (cleanup env (tempFiles s) s) as [r s'] eqn:Hc.
  assert (Heq : catchBlock env error s
                = (Ok tt,
                   {| disk := disk s';
                      trace := trace s'
                               ++ [EvRespond (failed (uuidv4 env) error)];
                      tempFiles := tempFiles s' |})).
  { unfold catchBlock, bind, getTempFiles. rewrite Hc.
    apply cleanup_facts in Hc. destruct Hc as (-> & _). reflexivity. }
  rewrite Heq. simpl.
  apply cleanup_facts in Hc.
  destruct Hc as (_ & _ & unlinks & Ht & Hincl & Hev & Hgone & _).
  exists unlinks. rewrite Ht, <- app_assoc. simpl. auto.
Qed.

(** The record of a request whose stems passed validation: download
    events [dl]; then, if a download threw, cleanup of the paths pushed
    so far and the 500; else, if the arguments cannot be built, cleanup
    and the 500; else one process, and either cleanup and the 500, or
    what the file stream brings: the attachment and cleanup when it
    ends, cleanup alone when it fails, nothing when it does neither.
    [ran] tells whether cleanup was called. Whatever is on the disk
    afterwards was there before, or failed to be deleted, or was left by
    a failed write of the download loop, or is a file of a request whose
    cleanup was never called; and each file handed to cleanup is gone
    or failed to be deleted. *)
Lemma request_shape env validatedStems volumes disk0 final :
  final
  = match downloadAndMix env validatedStems volumes
            {| disk := disk0; trace := []; tempFiles := [] |}
    with
    | (Ok _, s) => s
    | (Throw e, s) => snd (catchBlock env e s)
    end ->
  exists (dl : list Event) (pushed files : list jsstring)
         (unlinks : list Event) (ran : bool),
    Forall isDownloadEvent dl
    /\ (exists k, pushed = firstn k (scratchPaths env validatedStems 0))
    /\ (forall p, In p pushed <-> In (EvWriteFile p) dl)
    /\ (exists n,
          downloadCalls dl
          = firstn n (combine validatedStems
                              (scratchPaths env validatedStems 0)))
    /\ (forall e, In e unlinks ->
          exists f removed,
            e = EvUnlink f removed /\ In f files
            /\ (removed = false -> exists h, unlinkSync env h f <> None))
    /\ (forall p, In p (disk final) ->
          In p disk0 \/ In (EvUnlink p false) unlinks
          \/ (leftByFailedWrite env p
              /\ In p (scratchPaths env validatedStems 0))
          \/ (ran = false /\ In p files))
    /\ (ran = true ->
        forall f, In f files ->
          ~ In f (disk final) \/ In (EvUnlink f false) unlinks)
    /\ ((files = pushed
         /\ ran = true
         /\ exists e s1,
              downloadStems env validatedStems 0 []
                {| disk := disk0; trace := []; tempFiles := [] |}
              = (Throw e, s1)
              /\ trace final
                 = dl ++ EvCleanup files :: unlinks
                   ++ [EvRespond (failed (uuidv4 env) e)])
        \/ (pushed = scratchPaths env validatedStems 0
            /\ files = pushed ++ [outputPath env]
            /\ downloadCalls dl
               = combine validatedStems (scratchPaths env validatedStems 0)
            /\ ((exists e,
                   mixArgs pushed (outputPath env) volumes = Throw e
                   /\ ran = true
                   /\ trace final
                      = dl ++ EvCleanup files
                        :: unlinks ++ [EvRespond (failed (uuidv4 env) e)])
                \/ (exists args,
                      mixArgs pushed (outputPath env) volumes = Ok args
                      /\ ((exists e,
                             ran = true
                             /\ trace final
                                = dl ++ EvSpawn args :: EvCleanup files
                                  :: unlinks
                                  ++ [EvRespond (failed (uuidv4 env) e)]
                             /\ match ffmpeg env (dl ++ [EvSpawn args]) args
                                with
                                | SpawnError e' => e = e'
                                | Closed (Some 0) written =>
                                    e = Error
                                          (str "Mixed audio file was not created")
                                    /\ written = false
                                | Closed code _ =>
                                    e = Error
                                          (str "ffmpeg process exited with code "
                                           ++ showCode code)
                                end)
                          \/ (exists written,
                                ffmpeg env (dl ++ [EvSpawn args]) args
                                = Closed (Some 0) written
                                /\ match pipe env (dl ++ [EvSpawn args])
                                              (outputPath env)
                                   with
                                   | StreamEnd =>
                                       ran = true
                                       /\ trace final
                                          = dl ++ [EvSpawn args;
                                                   EvRespond
                                                     (attachment
                                                        (uuidv4 env)
                                                        (outputPath env));
                                                   EvCleanup files]
                                            ++ unlinks
                                   | StreamError _ =>
                                       ran = true
                                       /\ trace final
                                          = dl ++ [EvSpawn args;
                                                   EvCleanup files]
                                            ++ unlinks
                                   | StreamStalled =>
                                       ran = false
                                       /\ unlinks = []
                                       /\ trace final = dl ++ [EvSpawn args]
                                   end)))))).
Proof.
  intros ->.
  destruct (downloadAndMix_paths env validatedStems volumes
              {| disk := disk0; trace := []; tempFiles := [] |})
    as [(e & s1 & Hds & Hdm)
       | (input & s1 & Hds
          & [(e & s3 & Hmix & Hdm)
            | [(s3 & Hmix & Hout & Hdm) | (s3 & Hmix & Hin & Hdm)]])];
    rewrite Hdm; clear Hdm;
    pose proof Hds as Hthrew;
    apply downloadStems_facts in Hds;
    destruct Hds as (dl & pushed & Ht1 & Htf1 & Hev & Hd1 & Hw & Hk & Hn & Hr);
    simpl in Ht1, Htf1, Hd1, Hr.
  - (* a download threw *)
    destruct (catchBlock_facts env e s1) as (unlinks & Ht & Hincl & Hu & Hgone).
    exists dl, pushed, pushed, unlinks, true. rewrite Ht, Ht1.
    rewrite Htf1 in Hu, Hgone.
    repeat split; auto; try apply Hw.
    + intros p Hp. pose proof (Hincl p Hp) as Hp1.
      apply Hd1 in Hp1.
      destruct Hp1 as [Hp1 | [Hp1 | (Hl & Hs & _)]]; [now left | | auto].
      destruct (Hgone p Hp1); [contradiction | auto].
    + left. split; [reflexivity |]. split; [reflexivity |].
      exists e, s1. rewrite Htf1. auto.
  - (* the mix threw *)
    destruct Hr as (-> & -> & Hcalls).
    apply mixAudioFiles_facts in Hmix. simpl in Hmix.
    destruct Hmix as (Htf3 & Hd3 & Hmix).
    destruct (catchBlock_facts env e s3) as (unlinks & Ht & Hincl & Hu & Hgone).
    rewrite Htf3, Htf1 in Hu, Hgone. simpl in Hu, Hgone.
    exists dl, (scratchPaths env validatedStems 0),
      (scratchPaths env validatedStems 0 ++ [outputPath env]), unlinks, true.
    rewrite Ht, Htf3, Htf1.
    repeat split; auto; try apply Hw.
    + intros p Hp. pose proof (Hincl p Hp) as Hp3.
      assert (Hp1 : In p disk0
                    \/ In p (scratchPaths env validatedStems 0
                             ++ [outputPath env])).
      { apply Hd3 in Hp3. destruct Hp3 as [Hp3 | ->].
        - apply Hd1 in Hp3.
          destruct Hp3 as [Hp3 | [Hp3 | (_ & _ & e0 & He0)]];
            [now left | right; apply in_or_app; now left
            | discriminate He0].
        - right. apply in_or_app. right. now left. }
      destruct Hp1 as [Hp1 | Hp1]; [now left |].
      destruct (Hgone p Hp1); [contradiction | auto].
    + right. repeat split; auto.
      destruct Hmix as [(e' & Hargs & He & Ht3) | (args & Hargs & Ht3 & Hf)].
      * left. exists e. inversion He; subst e'. rewrite Ht3, Ht1.
        split; [exact Hargs |]. split; reflexivity.
      * right. exists args. split; [exact Hargs |]. left. exists e.
        split; [reflexivity |].
        rewrite Ht3, Ht1, <- app_assoc. split; [reflexivity |].
        rewrite Ht1 in Hf.
        destruct (ffmpeg env (dl ++ [EvSpawn args]) args)
          as [e' | [[| c] |] written];
          try (now inversion Hf); destruct Hf as (Hf & _); discriminate Hf.
  - (* the output file is missing *)
    destruct Hr as (-> & -> & Hcalls).
    apply mixAudioFiles_facts in Hmix. simpl in Hmix.
    destruct Hmix as (Htf3 & Hd3 & Hmix).
    destruct (catchBlock_facts env
                (Error (str "Mixed audio file was not created")) s3)
      as (unlinks & Ht & Hincl & Hu & Hgone).
    rewrite Htf3, Htf1 in Hu, Hgone. simpl in Hu, Hgone.
    exists dl, (scratchPaths env validatedStems 0),
      (scratchPaths env validatedStems 0 ++ [outputPath env]), unlinks, true.
    rewrite Ht, Htf3, Htf1.
    repeat split; auto; try apply Hw.
    + intros p Hp. pose proof (Hincl p Hp) as Hp3.
      assert (Hp1 : In p disk0
                    \/ In p (scratchPaths env validatedStems 0
                             ++ [outputPath env])).
      { apply Hd3 in Hp3. destruct Hp3 as [Hp3 | ->].
        - apply Hd1 in Hp3.
          destruct Hp3 as [Hp3 | [Hp3 | (_ & _ & e0 & He0)]];
            [now left | right; apply in_or_app; now left
            | discriminate He0].
        - right. apply in_or_app. right. now left. }
      destruct Hp1 as [Hp1 | Hp1]; [now left |].
      destruct (Hgone p Hp1); [contradiction | auto].
    + right. repeat split; auto.
      destruct Hmix as [(e' & Hargs & He & Ht3) | (args & Hargs & Ht3 & Hf)];
        [discriminate He |].
      right. exists args. split; [exact Hargs |]. left.
      exists (Error (str "Mixed audio file was not created")).
      split; [reflexivity |].
      rewrite Ht3, Ht1, <- app_assoc. split; [reflexivity |].
      rewrite Ht1 in Hf.
      destruct (ffmpeg env (dl ++ [EvSpawn args]) args)
        as [e' | [[| c] |] written];
        try discriminate Hf.
      split; [reflexivity |]. destruct Hf as (_ & Hf).
      destruct written; [| reflexivity].
      exfalso. apply Hout. now apply Hf.
  - (* the file is piped into the response *)
    destruct Hr as (-> & -> & Hcalls).
    apply mixAudioFiles_facts in Hmix. simpl in Hmix.
    destruct Hmix as (Htf3 & Hd3 & Hmix).
    assert (Hd13 : forall p, In p (disk s3) ->
                     In p disk0
                     \/ In p (scratchPaths env validatedStems 0
                              ++ [outputPath env])).
    { intros p Hp3. apply Hd3 in Hp3. destruct Hp3 as [Hp3 | ->].
      - apply Hd1 in Hp3.
        destruct Hp3 as [Hp3 | [Hp3 | (_ & _ & e0 & He0)]];
          [now left | right; apply in_or_app; now left
          | discriminate He0].
      - right. apply in_or_app. right. now left. }
    destruct Hmix as [(e' & Hargs & He & Ht3) | (args & Hargs & Ht3 & Hf)];
      [discriminate He |].
    rewrite Ht1 in Hf, Ht3. simpl in Ht3.
    destruct (ffmpeg env (dl ++ [EvSpawn args]) args)
      as [e' | [[| c] |] written] eqn:Hff;
      try discriminate Hf.
    rewrite Ht3.
    destruct (pipe env (dl ++ [EvSpawn args]) (outputPath env)) eqn:Hpipe.
    + destruct (cleanup env (tempFiles s3) _) as [r s5] eqn:Hc.
      apply cleanup_facts in Hc. simpl in Hc.
      destruct Hc as (-> & _ & unlinks & Ht & Hincl & Hu & Hgone & _).
      rewrite Htf3, Htf1 in Hu, Hgone, Ht. simpl in Hu, Hgone, Ht.
      exists dl, (scratchPaths env validatedStems 0),
        (scratchPaths env validatedStems 0 ++ [outputPath env]), unlinks, true.
      repeat split; auto; try apply Hw.
      * intros p Hp. pose proof (Hincl p Hp) as Hp3.
        destruct (Hd13 p Hp3) as [Hp1 | Hp1]; [now left |].
        destruct (Hgone p Hp1); [contradiction | auto].
      * right. repeat split; auto.
        right. exists args. split; [exact Hargs |]. right.
        exists written. split; [exact Hff |]. rewrite Hpipe.
        split; [reflexivity |].
        simpl. rewrite Ht, <- !app_assoc. reflexivity.
    + destruct (cleanup env (tempFiles s3) s3) as [r s5] eqn:Hc.
      apply cleanup_facts in Hc. simpl in Hc.
      destruct Hc as (-> & _ & unlinks & Ht & Hincl & Hu & Hgone & _).
      rewrite Htf3, Htf1 in Hu, Hgone, Ht. simpl in Hu, Hgone, Ht.
      exists dl, (scratchPaths env validatedStems 0),
        (scratchPaths env validatedStems 0 ++ [outputPath env]), unlinks, true.
      repeat split; auto; try apply Hw.
      * intros p Hp. pose proof (Hincl p Hp) as Hp3.
        destruct (Hd13 p Hp3) as [Hp1 | Hp1]; [now left |].
        destruct (Hgone p Hp1); [contradiction | auto].
      * right. repeat split; auto.
        right. exists args. split; [exact Hargs |]. right.
        exists written. split; [exact Hff |]. rewrite Hpipe.
        split; [reflexivity |].
        simpl. rewrite Ht, Ht3, <- !app_assoc. reflexivity.
    + exists dl, (scratchPaths env validatedStems 0),
        (scratchPaths env validatedStems 0 ++ [outputPath env]), [], false.
      simpl.
      repeat split; auto; try apply Hw.
      * intros e0 [].
      * intros p Hp. destruct (Hd13 p Hp) as [Hp1 | Hp1]; [now left |].
        do 3 right. auto.
      * intros Hfalse. discriminate Hfalse.
      * right. repeat split; auto.
        right. exists args. split; [exact Hargs |]. right.
        exists written. split; [exact Hff |]. rewrite Hpipe.
        rewrite Ht3. auto.
Qed.

End PathFacts.

(* ================================================================== *)
(** ** Properties of whole requests *)
(* ================================================================== *)

Module RequestFacts.

Import CleanupFacts StemFacts HandlerFacts NameFacts LoopFacts PathFacts.

Lemma responses_app a b : responses (a ++ b) = responses a ++ responses b.
Proof. apply flat_map_app. Qed.

Lemma spawns_app a b : spawns (a ++ b) = spawns a ++ spawns b.
Proof. apply flat_map_app. Qed.

Lemma cleanups_app a b : cleanups (a ++ b) = cleanups a ++ cleanups b.
Proof. apply flat_map_app. Qed.

Lemma downloadCalls_app a b :
  downloadCalls (a ++ b) = downloadCalls a ++ downloadCalls b.
Proof. apply flat_map_app. Qed.

Lemma In_responses r t : In (EvRespond r) t <-> In r (responses t).
Proof.
  unfold responses. rewrite in_flat_map. split.
  - intros H. exists (EvRespond r). split; [exact H | now left].
  - intros (e & He & Hr). destruct e; simpl in Hr; try contradiction.
    destruct Hr as [<- | []]. exact He.
Qed.

Lemma In_spawns args t : In (EvSpawn args) t <-> In args (spawns t).
Proof.
  unfold spawns. rewrite in_flat_map. split.
  - intros H. exists (EvSpawn args). split; [exact H | now left].
  - intros (e & He & Hr). destruct e; simpl in Hr; try contradiction.
    destruct Hr as [<- | []]. exact He.
Qed.

(** Download events hold no response, no process and no cleanup. *)
Lemma downloads_quiet dl :
  Forall isDownloadEvent dl ->
  responses dl = [] /\ spawns dl = [] /\ cleanups dl = [].
Proof.
  induction 1 as [| e dl He _ IH]; [auto |].
  destruct IH as (Hr & Hs & Hc).
  destruct e; simpl in He; try contradiction; simpl; auto.
Qed.

(** Deletions hold no response, no process, no cleanup call and no
    download. *)
Lemma unlinks_quiet (P : jsstring -> bool -> Prop) unlinks :
  (forall e, In e unlinks -> exists f removed, e = EvUnlink f removed
                                               /\ P f removed) ->
  responses unlinks = [] /\ spawns unlinks = [] /\ cleanups unlinks = []
  /\ downloadCalls unlinks = [].
Proof.
  induction unlinks as [| e rest IH]; intros H; [auto |].
  destruct IH as (Hr & Hs & Hc & Hd).
  { intros e' He'. apply H. now right. }
  destruct (H e) as (f & removed & -> & _); [now left |].
  simpl. auto.
Qed.

Lemma scratchPaths_length env validatedStems :
  forall i,
    List.length (scratchPaths env validatedStems i)
    = List.length validatedStems.
Proof.
  induction validatedStems as [| u rest IH]; intros i; simpl;
    [reflexivity | now rewrite IH].
Qed.

(** The handler past validation. *)
Lemma handle_after_validation env body stems volumes validatedStems disk0 :
  getField body (str "stems") = Ok (JArr stems) ->
  stems <> [] ->
  getField body (str "volumes") = Ok volumes ->
  validateStems (uuidv4 env) stems 0 [] = Ok (inr validatedStems) ->
  handle env body disk0
  = match downloadAndMix env validatedStems volumes
            {| disk := disk0; trace := []; tempFiles := [] |}
    with
    | (Ok _, s) => s
    | (Throw e, s) => snd (catchBlock env e s)
    end.
Proof.
  intros Hs Hne Hv Hval.
  remember (handle env body disk0) as final eqn:Hfinal.
  unfold handle, mix, tryCatch, tryBlock in Hfinal.
  unfold bind at 1 in Hfinal. unfold lift at 1 in Hfinal.
  rewrite Hs in Hfinal.
  unfold bind at 1 in Hfinal. unfold lift at 1 in Hfinal.
  rewrite Hv in Hfinal.
  destruct stems as [| stem0 rest]; [contradiction |].
  change (negb (truthy (JArr (stem0 :: rest)))
          || negb (isArray (JArr (stem0 :: rest)))
          || (List.length (elements (JArr (stem0 :: rest))) =? 0))
    with false in Hfinal.
  change (elements (JArr (stem0 :: rest))) with (stem0 :: rest) in Hfinal.
  cbv iota in Hfinal.
  unfold bind at 1 in Hfinal. unfold lift at 1 in Hfinal.
  rewrite Hval in Hfinal. rewrite Hfinal.
  destruct (downloadAndMix env validatedStems volumes _) as [[[] | e] s1];
    reflexivity.
Qed.

(** The responses, processes and cleanup calls of the record of a
    request whose stems passed validation, by the way it took. *)
Lemma request_summary env validatedStems volumes disk0 final :
  final
  = match downloadAndMix env validatedStems volumes
            {| disk := disk0; trace := []; tempFiles := [] |}
    with
    | (Ok _, s) => s
    | (Throw e, s) => snd (catchBlock env e s)
    end ->
  exists (pushed files : list jsstring) (ran : bool),
    (exists k, pushed = firstn k (scratchPaths env validatedStems 0))
    /\ (forall p, In p pushed <-> In (EvWriteFile p) (trace final))
    /\ (exists n,
          downloadCalls (trace final)
          = firstn n (combine validatedStems
                              (scratchPaths env validatedStems 0)))
    /\ cleanups (trace final) = (if ran then [files] else [])
    /\ (forall f removed, In (EvUnlink f removed) (trace final) ->
          In f files
          /\ (removed = false -> exists h, unlinkSync env h f <> None))
    /\ (forall p, In p (disk final) ->
          In p disk0 \/ In (EvUnlink p false) (trace final)
          \/ (leftByFailedWrite env p
              /\ In p (scratchPaths env validatedStems 0))
          \/ (ran = false /\ In p files))
    /\ (ran = true ->
        forall f, In f files ->
          ~ In f (disk final) \/ In (EvUnlink f false) (trace final))
    /\ ((files = pushed
         /\ ran = true
         /\ spawns (trace final) = []
         /\ exists e s1,
              downloadStems env validatedStems 0 []
                {| disk := disk0; trace := []; tempFiles := [] |}
              = (Throw e, s1)
              /\ responses (trace final) = [failed (uuidv4 env) e])
        \/ (pushed = scratchPaths env validatedStems 0
            /\ files = pushed ++ [outputPath env]
            /\ downloadCalls (trace final)
               = combine validatedStems (scratchPaths env validatedStems 0)
            /\ ((exists e,
                   mixArgs pushed (outputPath env) volumes = Throw e
                   /\ ran = true
                   /\ spawns (trace final) = []
                   /\ responses (trace final) = [failed (uuidv4 env) e])
                \/ (exists args,
                      mixArgs pushed (outputPath env) volumes = Ok args
                      /\ spawns (trace final) = [args]
                      /\ exists dl,
                           Forall isDownloadEvent dl
                           /\ (exists rest,
                                 trace final = dl ++ EvSpawn args :: rest)
                           /\ (forall p, In p pushed ->
                                 In (EvWriteFile p) dl)
                           /\ downloadCalls dl
                              = combine validatedStems
                                        (scratchPaths env validatedStems 0)
                           /\ match ffmpeg env (dl ++ [EvSpawn args]) args
                              with
                              | SpawnError e =>
                                  ran = true
                                  /\ responses (trace final)
                                     = [failed (uuidv4 env) e]
                              | Closed (Some 0) written =>
                                  (written = false
                                   /\ ran = true
                                   /\ responses (trace final)
                                      = [failed (uuidv4 env)
                                           (Error
                                              (str "Mixed audio file was not created"))])
                                  \/ match pipe env (dl ++ [EvSpawn args])
                                                (outputPath env)
                                     with
                                     | StreamEnd =>
                                         ran = true
                                         /\ responses (trace final)
                                            = [attachment (uuidv4 env)
                                                          (outputPath env)]
                                     | StreamError _ =>
                                         ran = true
                                         /\ responses (trace final) = []
                                     | StreamStalled =>
                                         ran = false
                                         /\ responses (trace final) = []
                                     end
                              | Closed code _ =>
                                  ran = true
                                  /\ responses (trace final)
                                     = [failed (uuidv4 env)
                                          (Error
                                             (str "ffmpeg process exited with code "
                                              ++ showCode code))]
                              end)))).
Proof.
  intros Hfinal.
  destruct (request_shape env validatedStems volumes disk0 Hfinal)
    as (dl & pushed & files & unlinks & ran & Hdl & Hk & Hw & Hn & Hu
        & Hdisk & Hgone & Hcase).
  destruct (downloads_quiet Hdl) as (Hdr & Hds & Hdc).
  assert (Hud' : forall f removed, In (EvUnlink f removed) dl -> False).
  { intros f removed Hin. rewrite Forall_forall in Hdl.
    exact (Hdl _ Hin). }
  exists pushed, files, ran.
  destruct Hcase
    as [(Hfiles & Hran & e & s1 & Hthrew & Ht)
       | (Hpushed & Hfiles & Hcalls
          & [(e & Hargs & Hran & Ht)
            | (args & Hargs
               & [(e & Hran & Ht & Hf) | (written & Hff & Hp)])])];
    [| |
     | destruct (pipe env (dl ++ [EvSpawn args]) (outputPath env))
         as [| e |] eqn:Hpipe;
       [destruct Hp as (Hran & Ht) | destruct Hp as (Hran & Ht)
       | destruct Hp as (Hran & Hnil & Ht); subst unlinks]];
    subst ran;
    destruct (unlinks_quiet
                (fun f removed =>
                   In f files
                   /\ (removed = false ->
                       exists h, unlinkSync env h f <> None))
                _ Hu) as (Hur & Hus & Huc & Hud);
    match type of Hu with
    | forall e0, In e0 ?l -> _ =>
        assert (Hwd : forall p, ~ In (EvWriteFile p) l)
          by (intros p Hp'; destruct (Hu _ Hp') as (f' & r' & Heq' & _);
              discriminate Heq');
        assert (Huf : forall f removed, In (EvUnlink f removed) l ->
                        In f files
                        /\ (removed = false ->
                            exists h, unlinkSync env h f <> None))
          by (intros f removed Hin'; destruct (Hu _ Hin')
                as (f' & r' & Heq' & Hf'); inversion Heq'; subst;
              exact Hf')
    end;
    rewrite Ht;
    (split; [exact Hk |]);
    (split;
     [intros p; rewrite Hw, !in_app_iff; simpl; rewrite ?in_app_iff; simpl;
      split; [tauto |];
      intros H; repeat (destruct H as [H | H]); try discriminate H;
      try assumption; try contradiction; exfalso; eapply Hwd; eassumption |]);
    (split;
     [destruct Hn as (n & Hn); exists n;
      rewrite ?downloadCalls_app; simpl;
      rewrite ?downloadCalls_app, ?Hud; simpl;
      rewrite ?app_nil_r; exact Hn |]);
    (split;
     [rewrite ?cleanups_app; simpl; rewrite ?cleanups_app, ?Hdc, ?Huc;
      reflexivity |]);
    (split;
     [intros f removed; rewrite !in_app_iff; simpl; rewrite ?in_app_iff;
      simpl;
      intros H; repeat (destruct H as [H | H]); try discriminate H;
      try contradiction;
      solve [exfalso; eapply Hud'; eassumption | apply Huf; assumption] |]);
    (split;
     [intros p Hp'; destruct (Hdisk p Hp') as [H | [H | [H | H]]];
      [now left
      | right; left; rewrite !in_app_iff; simpl; rewrite ?in_app_iff; tauto
      | right; right; left; exact H
      | do 3 right; exact H] |]);
    (split;
     [intros Hran';
      first [discriminate Hran'
            | intros f Hf';
              destruct (Hgone Hran' f Hf') as [H | H]; [now left | right];
              rewrite !in_app_iff; simpl; rewrite ?in_app_iff; tauto] |]).
  - left. split; [exact Hfiles |]. split; [reflexivity |]. split.
    + rewrite spawns_app. simpl. rewrite spawns_app, Hds, Hus. reflexivity.
    + exists e, s1. split; [exact Hthrew |].
      rewrite responses_app. simpl. rewrite responses_app, Hdr, Hur.
      reflexivity.
  - right. split; [exact Hpushed |]. split; [exact Hfiles |]. split.
    { rewrite downloadCalls_app. simpl. rewrite downloadCalls_app, Hud.
      simpl. now rewrite app_nil_r. }
    left. exists e. split; [exact Hargs |]. split; [reflexivity |]. split.
    + rewrite spawns_app. simpl. rewrite spawns_app, Hds, Hus. reflexivity.
    + rewrite responses_app. simpl. rewrite responses_app, Hdr, Hur.
      reflexivity.
  - right. split; [exact Hpushed |]. split; [exact Hfiles |]. split.
    { rewrite downloadCalls_app. simpl. rewrite downloadCalls_app, Hud.
      simpl. now rewrite app_nil_r. }
    right. exists args. split; [exact Hargs |]. split.
    { rewrite spawns_app. simpl. rewrite spawns_app, Hds, Hus. reflexivity. }
    exists dl. split; [exact Hdl |]. split; [now eexists |].
    split; [intros p Hp'; now apply Hw |]. split; [exact Hcalls |].
    assert (Hresp : responses
                      (dl ++ EvSpawn args :: EvCleanup files :: unlinks
                       ++ [EvRespond (failed (uuidv4 env) e)])
                    = [failed (uuidv4 env) e]).
    { rewrite responses_app. simpl. rewrite responses_app, Hdr, Hur.
      reflexivity. }
    rewrite Hresp.
    destruct (ffmpeg env (dl ++ [EvSpawn args]) args)
      as [e' | [[| c] |] written]; try (now subst e).
    destruct Hf as (-> & ->). left. auto.
  - right. split; [exact Hpushed |]. split; [exact Hfiles |]. split.
    { rewrite downloadCalls_app. simpl. rewrite Hud.
      now rewrite app_nil_r. }
    right. exists args. split; [exact Hargs |]. split.
    { rewrite spawns_app. simpl. rewrite Hds, Hus. reflexivity. }
    exists dl. split; [exact Hdl |]. split; [now eexists |].
    split; [intros p Hp'; now apply Hw |]. split; [exact Hcalls |].
    rewrite Hff, Hpipe. right. split; [reflexivity |].
    rewrite responses_app. simpl. rewrite Hdr, Hur. reflexivity.
  - right. split; [exact Hpushed |]. split; [exact Hfiles |]. split.
    { rewrite downloadCalls_app. simpl. rewrite Hud.
      now rewrite app_nil_r. }
    right. exists args. split; [exact Hargs |]. split.
    { rewrite spawns_app. simpl. rewrite Hds, Hus. reflexivity. }
    exists dl. split; [exact Hdl |]. split; [now eexists |].
    split; [intros p Hp'; now apply Hw |]. split; [exact Hcalls |].
    rewrite Hff, Hpipe. right. split; [reflexivity |].
    rewrite responses_app. simpl. rewrite Hdr, Hur. reflexivity.
  - right. split; [exact Hpushed |]. split; [exact Hfiles |]. split.
    { rewrite downloadCalls_app. simpl. now rewrite app_nil_r. }
    right. exists args. split; [exact Hargs |]. split.
    { rewrite spawns_app. simpl. rewrite Hds. reflexivity. }
    exists dl. split; [exact Hdl |]. split; [now eexists |].
    split; [intros p Hp'; now apply Hw |]. split; [exact Hcalls |].
    rewrite Hff, Hpipe. right. split; [reflexivity |].
    rewrite responses_app. simpl. rewrite Hdr. reflexivity.
Qed.

(** X10. A file that is on the disk after a request was there before,
    unless its deletion failed during cleanup, or a write of the
    download loop threw and left it (such a path is not among the
    temporary files, so cleanup does not try it), or the file stream of
    the response neither ended nor failed, so that cleanup was never
    called. *)
Theorem files_left_behind_have_a_cause :
  forall (env : Env) (body : JSValue) (disk0 : list jsstring) (p : jsstring),
    In p (disk (handle env body disk0)) ->
    In p disk0
    \/ In (EvUnlink p false) (trace (handle env body disk0))
    \/ leftByFailedWrite env p
    \/ (cleanups (trace (handle env body disk0)) = []
        /\ exists h, pipe env h (outputPath env) = StreamStalled).
Proof.
  intros env body disk0 p Hp.
  destruct (handle_paths env body disk0)
    as [(e & Hh) | [(r & Hh & _)
                   | (stems & volumes & vs & _ & _ & _ & _ & Hh)]].
  - rewrite Hh, catchBlock_at_start in Hp. now left.
  - rewrite Hh in Hp. now left.
  - destruct (request_summary env vs volumes disk0 Hh)
      as (pushed & files & ran & _ & _ & _ & Hc & _ & Hdisk & _ & Hcase).
    destruct (Hdisk p Hp) as [H | [H | [(H & _) | (-> & H)]]]; auto.
    do 3 right. split; [exact Hc |].
    destruct Hcase
      as [(_ & Hran & _)
         | (_ & _ & _
            & [(e & _ & Hran & _)
              | (args & _ & _ & dl & _ & _ & _ & _ & Hr)])];
      try discriminate Hran.
    exists (dl ++ [EvSpawn args]).
    destruct (ffmpeg env (dl ++ [EvSpawn args]) args)
      as [e | [[| c] |] written];
      try (destruct Hr as (Hran & _); discriminate Hran).
    destruct Hr as [(_ & Hran & _) | Hr]; [discriminate Hran |].
    destruct (pipe env (dl ++ [EvSpawn args]) (outputPath env));
      [destruct Hr as (Hran & _); discriminate Hran
      | destruct Hr as (Hran & _); discriminate Hran
      | reflexivity].
Qed.

(** X10, at a request with one stem against a full disk: the write
    throws, the file it left is not handed to cleanup and stays. *)
Lemma files_left_behind_have_a_cause_witness :
  In (str "/app/temp/id_stem_0.wav")
     (disk (handle fullDiskEnv
                   (JObj [(str "stems", JArr [JStr (str "https://x/a.wav")])])
                   []))
  /\ cleanups
       (trace (handle fullDiskEnv
                      (JObj [(str "stems",
                              JArr [JStr (str "https://x/a.wav")])])
                      []))
     = [[]]
  /\ (In (str "/app/temp/id_stem_0.wav") []
      \/ In (EvUnlink (str "/app/temp/id_stem_0.wav") false)
            (trace (handle fullDiskEnv
                           (JObj [(str "stems",
                                   JArr [JStr (str "https://x/a.wav")])])
                           []))
      \/ leftByFailedWrite fullDiskEnv (str "/app/temp/id_stem_0.wav")
      \/ (cleanups
            (trace (handle fullDiskEnv
                           (JObj [(str "stems",
                                   JArr [JStr (str "https://x/a.wav")])])
                           []))
          = []
          /\ exists h,
               pipe fullDiskEnv h (outputPath fullDiskEnv) = StreamStalled)).
Proof.
  split; [vm_compute; left; reflexivity |].
  split; [reflexivity |].
  apply (@files_left_behind_have_a_cause fullDiskEnv
           (JObj [(str "stems", JArr [JStr (str "https://x/a.wav")])])
           [] (str "/app/temp/id_stem_0.wav")).
  vm_compute. left. reflexivity.
Defined.

(** X11. A request is answered at most once. Either there is one
    response: a 400 with nothing else on record, or, with exactly one
    call of cleanup, the 500 of the catch block or the attachment. Or
    there is none: the mix was made and its file piped into the
    response, but the file stream failed, and cleanup was called once,
    or it neither ended nor failed, and cleanup was not called. *)
Theorem at_most_one_response_per_request :
  forall (env : Env) (body : JSValue) (disk0 : list jsstring),
    (exists response : Response,
       responses (trace (handle env body disk0)) = [response]
       /\ ((exists fields,
              response = Json 400 fields
              /\ trace (handle env body disk0) = [EvRespond response])
           \/ (exists files,
                 cleanups (trace (handle env body disk0)) = [files]
                 /\ ((exists e, response = failed (uuidv4 env) e)
                     \/ response
                        = attachment (uuidv4 env) (outputPath env)))))
    \/ (responses (trace (handle env body disk0)) = []
        /\ exists dl args,
             Forall isDownloadEvent dl
             /\ spawns (trace (handle env body disk0)) = [args]
             /\ ((exists e files,
                    pipe env (dl ++ [EvSpawn args]) (outputPath env)
                    = StreamError e
                    /\ cleanups (trace (handle env body disk0)) = [files])
                 \/ (pipe env (dl ++ [EvSpawn args]) (outputPath env)
                     = StreamStalled
                     /\ cleanups (trace (handle env body disk0)) = []))).
Proof.
  intros env body disk0.
  destruct (handle_paths env body disk0)
    as [(e & Hh) | [(r & Hh & Hr)
                   | (stems & volumes & vs & _ & _ & _ & _ & Hh)]].
  - left. rewrite Hh, catchBlock_at_start. simpl.
    exists (failed (uuidv4 env) e). split; [reflexivity |].
    right. exists []. split; [reflexivity |]. left. now exists e.
  - left. rewrite Hh. simpl. exists r. split; [reflexivity |]. left.
    destruct Hr as [-> | (stems & _ & Hval)].
    + eexists. split; reflexivity.
    + apply validateStems_answers in Hval.
      destruct Hval as (k & bad & _ & _ & _ & [-> | (u & ->)]);
        eexists; split; reflexivity.
  - destruct (request_summary env vs volumes disk0 Hh)
      as (pushed & files & ran & _ & _ & _ & Hc & _ & _ & _ & Hcase).
    destruct Hcase
      as [(_ & -> & _ & e & s1 & _ & Hr)
         | (_ & _ & _
            & [(e & _ & -> & _ & Hr)
              | (args & _ & Hsp & dl & Hdl & _ & _ & _ & Hr)])].
    + left. exists (failed (uuidv4 env) e). split; [exact Hr |].
      right. exists files. split; [exact Hc |]. left. now exists e.
    + left. exists (failed (uuidv4 env) e). split; [exact Hr |].
      right. exists files. split; [exact Hc |]. left. now exists e.
    + destruct (ffmpeg env (dl ++ [EvSpawn args]) args)
        as [e | [[| c] |] written].
      * destruct Hr as (-> & Hr). left. eexists. split; [exact Hr |].
        right. exists files. split; [exact Hc |]. left. now eexists.
      * destruct Hr as [(_ & -> & Hr) | Hr].
        { left. eexists. split; [exact Hr |]. right. exists files.
          split; [exact Hc |]. left. now eexists. }
        destruct (pipe env (dl ++ [EvSpawn args]) (outputPath env))
          as [| e |] eqn:Hpipe; destruct Hr as (-> & Hr).
        -- left. eexists. split; [exact Hr |]. right. exists files.
           split; [exact Hc |]. now right.
        -- right. split; [exact Hr |]. exists dl, args.
           split; [exact Hdl |]. split; [exact Hsp |].
           left. exists e, files. rewrite Hpipe. auto.
        -- right. split; [exact Hr |]. exists dl, args.
           split; [exact Hdl |]. split; [exact Hsp |].
           right. rewrite Hpipe. auto.
      * destruct Hr as (-> & Hr). left. eexists. split; [exact Hr |].
        right. exists files. split; [exact Hc |]. left. now eexists.
      * destruct Hr as (-> & Hr). left. eexists. split; [exact Hr |].
        right. exists files. split; [exact Hc |]. left. now eexists.
Qed.

(** X11, at a request with one stem whose file stream fails: there is
    no response, and cleanup was called once. *)
Lemma at_most_one_response_per_request_witness :
  responses
    (trace (handle brokenStreamEnv
                   (JObj [(str "stems", JArr [JStr (str "https://x/a.wav")])])
                   []))
  = []
  /\ exists dl args e files,
       pipe brokenStreamEnv (dl ++ [EvSpawn args])
            (outputPath brokenStreamEnv)
       = StreamError e
       /\ cleanups
            (trace (handle brokenStreamEnv
                           (JObj [(str "stems",
                                   JArr [JStr (str "https://x/a.wav")])])
                           []))
          = [files].
Proof.
  destruct (@at_most_one_response_per_request
              brokenStreamEnv
              (JObj [(str "stems", JArr [JStr (str "https://x/a.wav")])])
              [])
    as [(response & Hr & _)
       | (Hr & dl & args & _ & _ & [(e & files & Hp & Hc) | (Hp & _)])].
  - vm_compute in Hr. discriminate Hr.
  - split; [exact Hr |]. exists dl, args, e, files.
    split; [exact Hp | exact Hc].
  - cbv [brokenStreamEnv pipe] in Hp. discriminate Hp.
Defined.

(** X12. The stems are downloaded one at a time in the order of the
    request, each at most once and each to its own path: the calls of
    [downloadFile] are the first pairs of trimmed URL and scratch path,
    and there is none when validation does not pass. *)
Theorem stems_fetched_in_order :
  forall (env : Env) (body : JSValue) (disk0 : list jsstring),
    downloadCalls (trace (handle env body disk0)) = []
    \/ exists stems n,
         getField body (str "stems") = Ok (JArr stems)
         /\ forallb wellFormed stems = true
         /\ downloadCalls (trace (handle env body disk0))
            = firstn n (combine (map trimmedUrl stems)
                                (scratchPaths env (map trimmedUrl stems) 0)).
Proof.
  intros env body disk0.
  destruct (handle_paths env body disk0)
    as [(e & Hh) | [(r & Hh & _)
                   | (stems & volumes & vs & Hs & _ & _ & Hval & Hh)]].
  - left. now rewrite Hh, catchBlock_at_start.
  - left. now rewrite Hh.
  - right. apply validateStems_pushes in Hval. simpl in Hval.
    destruct Hval as (-> & Hw).
    destruct (request_summary env _ volumes disk0 Hh)
      as (pushed & files & unlinks & _ & _ & (n & Hn) & _).
    exists stems, n. auto.
Qed.

(** X13. ffmpeg is started at most once per request, and only after
    every stem was validated and downloaded: the events before the
    start of the process are download events only, among them the call
    of [downloadFile] for every stem in the order of the request and
    the write of every scratch path; the arguments are built from these
    paths in the same order. *)
Theorem ffmpeg_started_once_after_all_downloads :
  forall (env : Env) (body : JSValue) (disk0 : list jsstring)
         (args : list jsstring),
    In (EvSpawn args) (trace (handle env body disk0)) ->
    exists stems volumes dl rest,
      getField body (str "stems") = Ok (JArr stems)
      /\ getField body (str "volumes") = Ok volumes
      /\ forallb wellFormed stems = true
      /\ mixArgs (scratchPaths env (map trimmedUrl stems) 0)
                 (outputPath env) volumes = Ok args
      /\ spawns (trace (handle env body disk0)) = [args]
      /\ trace (handle env body disk0) = dl ++ EvSpawn args :: rest
      /\ Forall isDownloadEvent dl
      /\ downloadCalls dl
         = combine (map trimmedUrl stems)
                   (scratchPaths env (map trimmedUrl stems) 0)
      /\ (forall p, In p (scratchPaths env (map trimmedUrl stems) 0) ->
            In (EvWriteFile p) dl)
      /\ exists more,
           args = flat_map (fun file => [str "-i"; file])
                           (scratchPaths env (map trimmedUrl stems) 0)
                  ++ more.
Proof.
  intros env body disk0 args Hin. apply In_spawns in Hin.
  destruct (handle_paths env body disk0)
    as [(e & Hh) | [(r & Hh & _)
                   | (stems & volumes & vs & Hs & _ & Hv & Hval & Hh)]].
  - rewrite Hh, catchBlock_at_start in Hin. destruct Hin.
  - rewrite Hh in Hin. destruct Hin.
  - apply validateStems_pushes in Hval. simpl in Hval.
    destruct Hval as (-> & Hwf).
    destruct (request_summary env _ volumes disk0 Hh)
      as (pushed & files & ran & _ & _ & _ & _ & _ & _ & _ & Hcase).
    destruct Hcase
      as [(_ & _ & Hsp & _)
         | (-> & _ & _
            & [(e & _ & _ & Hsp & _)
              | (args' & Hargs & Hsp & dl & Hdl & (rest & Ht) & Hw
                 & Hcalls & _)])];
      rewrite Hsp in Hin; try (now destruct Hin).
    destruct Hin as [<- | []].
    exists stems, volumes, dl, rest. repeat split; auto.
    rewrite MixerFacts.mixArgs_unfold in Hargs.
    apply MixerFacts.rbind_Ok in Hargs.
    destruct Hargs as (fc & _ & Heq). inversion Heq. now eexists.
Qed.

(** X13, at a request with one stem in the sample environment. *)
Lemma ffmpeg_started_once_after_all_downloads_witness :
  exists args dl rest,
    trace (handle (sampleEnv [])
                  (JObj [(str "stems",
                          JArr [JStr (str "https://x/a.wav")])])
                  [])
    = dl ++ EvSpawn args :: rest
    /\ In (EvWriteFile (str "/app/temp/id_stem_0.wav")) dl
    /\ exists more,
         args = [str "-i"; str "/app/temp/id_stem_0.wav"] ++ more.
Proof.
  destruct (@ffmpeg_started_once_after_all_downloads
              (sampleEnv [])
              (JObj [(str "stems", JArr [JStr (str "https://x/a.wav")])])
              []
              [str "-i"; str "/app/temp/id_stem_0.wav";
               str "-filter_complex";
               str "[0:a]volume=1[a0];[a0]amix=inputs=1:duration=longest[out]";
               str "-map"; str "[out]"; str "-c:a"; str "mp3";
               str "-b:a"; str "192k"; str "-y";
               str "/app/temp/id_mixed.mp3"])
    as (stems & volumes & dl & rest & Hs & _ & _ & _ & _ & Ht & _ & _
        & Hw & _).
  - vm_compute. do 3 right. left. reflexivity.
  - inversion Hs; subst stems. eexists. exists dl, rest.
    split; [exact Ht |]. split.
    + apply Hw. left. reflexivity.
    + eexists. reflexivity.
Defined.

Lemma trimStart_keeps (c : N) (s : jsstring) :
  isWhiteSpace c = false -> In c s -> In c (trimStart s).
Proof.
  intros Hc. induction s as [| x s IH]; intros Hin; [destruct Hin |].
  simpl. destruct (isWhiteSpace x) eqn:Hx; [| exact Hin].
  destruct Hin as [-> | Hin]; [congruence | now apply IH].
Qed.

(** A string with a unit that is not white space is not blank. *)
Lemma trim_nonblank (c : N) (s : jsstring) :
  isWhiteSpace c = false -> In c s -> trim s <> [].
Proof.
  intros Hc Hin Hblank.
  assert (H : In c (trim s)).
  { unfold trim, trimEnd. rewrite <- in_rev.
    apply trimStart_keeps; [exact Hc |]. rewrite <- in_rev.
    now apply trimStart_keeps. }
  rewrite Hblank in H. destruct H.
Qed.

Lemma sampleEnv_reliable : reliable (sampleEnv []).
Proof.
  constructor; simpl; auto.
  - intros h url. exists 200, (str "OK"), 4. auto.
  - intros a b. apply (trim_nonblank 47).
    + reflexivity.
    + apply in_or_app. right. now left.
Qed.

(** In a reliable environment a download of a URL to a path, neither
    of them blank, returns normally. *)
Lemma downloadFile_reliable env url filepath (s : State) :
  reliable env -> trim url <> [] -> trim filepath <> [] ->
  exists s', downloadFile env url filepath s = (Ok tt, s').
Proof.
  intros Hrel Hurl Hpath.
  unfold downloadFile, bind, emit, history, throw, created. simpl.
  rewrite (eqb_false_iff Hurl), (eqb_false_iff Hpath). simpl.
  destruct (fetch_ok Hrel (trace s ++ [EvDownloadFile url filepath]) url)
    as (status & statusText & n & Hf & Hok).
  rewrite Hf. simpl. rewrite Hok. simpl.
  rewrite (write_ok Hrel). simpl. eexists. reflexivity.
Qed.

Lemma downloadStems_reliable env (validatedStems : list jsstring) :
  reliable env ->
  Forall (fun url => trim url <> []) validatedStems ->
  forall i inputFiles s,
    exists files s1,
      downloadStems env validatedStems i inputFiles s = (Ok files, s1).
Proof.
  intros Hrel Hurls. induction Hurls as [| url rest Hurl _ IH];
    intros i inputFiles s.
  - simpl. now eexists; eexists.
  - rewrite downloadStems_cons. cbv zeta.
    destruct (@downloadFile_reliable env url
                (pathJoin env (tempDir env) (filename (uuidv4 env) i url))
                s Hrel Hurl (path_ok Hrel _ _)) as (s' & Heq).
    rewrite Heq. apply IH.
Qed.

(** X14. In an environment where nothing fails and the file stream of
    the response ends, a request with well-formed stems and printable
    volumes is answered with the mix: the one response is the
    attachment, every stem was downloaded in order,
    ffmpeg ran once on their scratch paths, cleanup was called once on
    these paths and the output path, none of them is on the disk
    afterwards and nothing new is. *)
Theorem reliable_request_is_answered_with_the_mix :
  forall (env : Env) (body : JSValue) (stems : list JSValue)
         (volumes : JSValue) (disk0 : list jsstring),
    reliable env ->
    getField body (str "stems") = Ok (JArr stems) ->
    stems <> [] ->
    getField body (str "volumes") = Ok volumes ->
    forallb wellFormed stems = true ->
    printable volumes (List.length stems) ->
    exists args : list jsstring,
      mixArgs (scratchPaths env (map trimmedUrl stems) 0)
              (outputPath env) volumes = Ok args
      /\ responses (trace (handle env body disk0))
         = [attachment (uuidv4 env) (outputPath env)]
      /\ spawns (trace (handle env body disk0)) = [args]
      /\ cleanups (trace (handle env body disk0))
         = [scratchPaths env (map trimmedUrl stems) 0 ++ [outputPath env]]
      /\ downloadCalls (trace (handle env body disk0))
         = combine (map trimmedUrl stems)
                   (scratchPaths env (map trimmedUrl stems) 0)
      /\ (forall p,
            In p (scratchPaths env (map trimmedUrl stems) 0
                  ++ [outputPath env]) ->
            ~ In p (disk (handle env body disk0)))
      /\ (forall p, In p (disk (handle env body disk0)) -> In p disk0).
Proof.
  intros env body stems volumes disk0 Hrel Hs Hne Hv Hwf Hp.
  pose proof (validateStems_wellFormed (uuidv4 env) stems 0 [] Hwf) as Hval.
  simpl in Hval.
  pose proof (handle_after_validation env body disk0 Hs Hne Hv Hval) as Hh.
  destruct (request_summary env _ volumes disk0 Hh)
    as (pushed & files & ran & _ & _ & _ & Hc & Hu & Hdisk & Hgone
        & Hcase).
  assert (Hnofail : forall f, ~ In (EvUnlink f false)
                                  (trace (handle env body disk0))).
  { intros f Hin. destruct (Hu f false Hin) as (_ & Hfail).
    destruct (Hfail eq_refl) as (h & Hh'). apply Hh'.
    apply (unlink_ok Hrel). }
  assert (Hurls : Forall (fun url => trim url <> [])
                         (map trimmedUrl stems)).
  { apply Forall_forall. intros url Hin. apply in_map_iff in Hin.
    destruct Hin as (stem & <- & Hin). rewrite forallb_forall in Hwf.
    destruct (wellFormed_trimmed stem (Hwf stem Hin)) as (Hn & Ht).
    now rewrite Ht. }
  destruct Hcase
    as [(_ & _ & _ & e & s1 & Hthrew & _)
       | (-> & -> & Hcalls
          & [(e & Hargs & _)
            | (args & Hargs & Hsp & dl & Hdl & (rest & Ht) & _ & _ & Hf)])].
  - destruct (downloadStems_reliable Hrel Hurls 0 []
                {| disk := disk0; trace := []; tempFiles := [] |})
      as (files' & s1' & Heq).
    rewrite Heq in Hthrew. discriminate Hthrew.
  - exfalso.
    assert (Hp' : printable volumes
                    (List.length (scratchPaths env (map trimmedUrl stems) 0))).
    { now rewrite scratchPaths_length, length_map. }
    destruct (MixerFacts.mixArgs_returns _ (outputPath env) Hp')
      as (shown & _ & _ & Hok).
    rewrite Hok in Hargs. discriminate Hargs.
  - exists args. rewrite (ffmpeg_ok Hrel), (pipe_ok Hrel) in Hf.
    destruct Hf as [(Hfalse & _) | (-> & Hr)]; [discriminate Hfalse |].
    repeat split; auto.
    + intros p Hin Hd. destruct (Hgone eq_refl p Hin) as [Hg | Hg];
        [now apply Hg | now apply (Hnofail p)].
    + intros p Hd.
      destruct (Hdisk p Hd) as [Hd0 | [Hd0 | [((h & e & Hl) & _) | (Hd0 & _)]]];
        [exact Hd0 | now apply Hnofail in Hd0 | | discriminate Hd0].
      rewrite (write_ok Hrel) in Hl. discriminate Hl.
Qed.

(** X14, at the request of the specification's scenario: two stems and
    the volumes [1, 0.5] in the sample environment. *)
Lemma reliable_request_is_answered_with_the_mix_witness :
  responses
    (trace (handle (sampleEnv [])
                   (JObj [(str "stems",
                           JArr [JStr (str "https://x/a.wav");
                                 JStr (str "https://x/b.wav")]);
                          (str "volumes",
                           JArr [JNum one; JNum (Dec false 5 (-1))])])
                   []))
  = [attachment (str "id") (str "/app/temp/id_mixed.mp3")].
Proof.
  destruct (@reliable_request_is_answered_with_the_mix
              (sampleEnv [])
              (JObj [(str "stems",
                      JArr [JStr (str "https://x/a.wav");
                            JStr (str "https://x/b.wav")]);
                     (str "volumes",
                      JArr [JNum one; JNum (Dec false 5 (-1))])])
              [JStr (str "https://x/a.wav"); JStr (str "https://x/b.wav")]
              (JArr [JNum one; JNum (Dec false 5 (-1))])
              [])
    as (args & _ & Hr & _).
  - exact sampleEnv_reliable.
  - reflexivity.
  - discriminate.
  - reflexivity.
  - reflexivity.
  - apply (proj1 (MixerFacts.numeric_printable [one; Dec false 5 (-1)] 2)).
  - exact Hr.
Defined.

(** The 400 answers of the handler are JSON bodies. *)
Lemma answer_is_json rid body response :
  response = stemsRequired
  \/ (exists stems,
        getField body (str "stems") = Ok (JArr stems)
        /\ validateStems rid stems 0 [] = Ok (inl response)) ->
  exists fields, response = Json 400 fields.
Proof.
  intros [-> | (stems & _ & Hval)].
  - eexists. reflexivity.
  - apply validateStems_answers in Hval.
    destruct Hval as (k & bad & _ & _ & _ & [-> | (u & ->)]);
      eexists; reflexivity.
Qed.

Lemma failed_not_attachment rid e headers path l :
  In (Attachment headers path) l -> l = [failed rid e] -> False.
Proof.
  intros Hin ->. destruct Hin as [H | []]. unfold failed, json in H.
  discriminate H.
Qed.

(** X15. The mix is sent only after ffmpeg exited with code 0: when a
    request is answered with an attachment, it is the only response, it
    carries the output path of the request, and the process started
    after the downloads closed with exit code 0. *)
Theorem attachment_only_after_exit_code_zero :
  forall (env : Env) (body : JSValue) (disk0 : list jsstring)
         (headers : list (jsstring * jsstring)) (path : jsstring),
    In (Attachment headers path)
       (responses (trace (handle env body disk0))) ->
    Attachment headers path = attachment (uuidv4 env) (outputPath env)
    /\ responses (trace (handle env body disk0)) = [Attachment headers path]
    /\ exists dl args written rest,
         Forall isDownloadEvent dl
         /\ trace (handle env body disk0) = dl ++ EvSpawn args :: rest
         /\ ffmpeg env (dl ++ [EvSpawn args]) args = Closed (Some 0) written.
Proof.
  intros env body disk0 headers path Hin.
  destruct (handle_paths env body disk0)
    as [(e & Hh) | [(r & Hh & Hr)
                   | (stems & volumes & vs & _ & _ & _ & _ & Hh)]].
  - exfalso. rewrite Hh, catchBlock_at_start in Hin.
    simpl in Hin. destruct Hin as [H | []]. unfold failed, json in H.
    discriminate H.
  - exfalso. rewrite Hh in Hin.
    destruct (@answer_is_json _ _ _ Hr) as (fields & ->).
    destruct Hin as [H | []]. discriminate H.
  - destruct (request_summary env vs volumes disk0 Hh)
      as (pushed & files & ran & _ & _ & _ & _ & _ & _ & _ & Hcase).
    destruct Hcase
      as [(_ & _ & _ & e & s1 & _ & Hr)
         | (_ & _ & _
            & [(e & _ & _ & _ & Hr)
              | (args & _ & _ & dl & Hdl & (rest & Ht) & _ & _ & Hr)])];
      try (exfalso; exact (@failed_not_attachment _ _ _ _ _ Hin Hr)).
    destruct (ffmpeg env (dl ++ [EvSpawn args]) args)
      as [e | [[| c] |] written] eqn:Hf;
      try (exfalso; destruct Hr as (_ & Hr);
           exact (@failed_not_attachment _ _ _ _ _ Hin Hr)).
    destruct Hr as [(_ & _ & Hr) | Hr];
      [exfalso; exact (@failed_not_attachment _ _ _ _ _ Hin Hr) |].
    destruct (pipe env (dl ++ [EvSpawn args]) (outputPath env));
      destruct Hr as (_ & Hr);
      try (exfalso; rewrite Hr in Hin; now destruct Hin).
    rewrite Hr in Hin. destruct Hin as [Heq | []].
    split; [now symmetry |]. split; [now rewrite Hr, Heq |].
    exists dl, args, written, rest. auto.
Qed.

(** X15, at a request with one stem in the sample environment. *)
Lemma attachment_only_after_exit_code_zero_witness :
  responses
    (trace (handle (sampleEnv [])
                   (JObj [(str "stems", JArr [JStr (str "https://x/a.wav")])])
                   []))
  = [attachment (str "id") (str "/app/temp/id_mixed.mp3")].
Proof.
  destruct (@attachment_only_after_exit_code_zero
              (sampleEnv [])
              (JObj [(str "stems", JArr [JStr (str "https://x/a.wav")])])
              []
              [(str "Content-Type", str "audio/mpeg");
               (str "Content-Disposition",
                str "attachment; filename=" ++ [34%N] ++ str "mixed_id.mp3"
                    ++ [34%N])]
              (str "/app/temp/id_mixed.mp3"))
    as (_ & Hr & _).
  - vm_compute. left. reflexivity.
  - exact Hr.
Defined.

(** X16. When the process that was started closes with another exit
    code than 0, or with none, the request is answered with the 500
    whose details name the code, and cleanup is called once, on the
    scratch path of every stem of the request and the output path;
    each of these files is gone afterwards unless its deletion
    failed. *)
Theorem ffmpeg_failure_is_reported_with_its_code :
  forall (env : Env) (body : JSValue) (disk0 : list jsstring)
         (args : list jsstring) (code : option nat) (written : bool),
    In (EvSpawn args) (trace (handle env body disk0)) ->
    (forall h, ffmpeg env h args = Closed code written) ->
    code <> Some 0 ->
    exists stems,
      getField body (str "stems") = Ok (JArr stems)
      /\ forallb wellFormed stems = true
      /\ responses (trace (handle env body disk0))
         = [failed (uuidv4 env)
              (Error (str "ffmpeg process exited with code "
                      ++ showCode code))]
      /\ cleanups (trace (handle env body disk0))
         = [scratchPaths env (map trimmedUrl stems) 0 ++ [outputPath env]]
      /\ forall f,
           In f (scratchPaths env (map trimmedUrl stems) 0
                 ++ [outputPath env]) ->
           ~ In f (disk (handle env body disk0))
           \/ In (EvUnlink f false) (trace (handle env body disk0)).
Proof.
  intros env body disk0 args code written Hin Hff Hcode.
  apply In_spawns in Hin.
  destruct (handle_paths env body disk0)
    as [(e & Hh) | [(r & Hh & _)
                   | (stems & volumes & vs & Hs & _ & _ & Hval & Hh)]].
  - rewrite Hh, catchBlock_at_start in Hin. destruct Hin.
  - rewrite Hh in Hin. destruct Hin.
  - apply validateStems_pushes in Hval. simpl in Hval.
    destruct Hval as (-> & Hwf).
    destruct (request_summary env _ volumes disk0 Hh)
      as (pushed & files & ran & _ & _ & _ & Hc & _ & _ & Hgone & Hcase).
    destruct Hcase
      as [(_ & _ & Hsp & _)
         | (-> & -> & _
            & [(e & _ & _ & Hsp & _)
              | (args' & _ & Hsp & dl & _ & _ & _ & _ & Hr)])];
      rewrite Hsp in Hin; try (now destruct Hin).
    destruct Hin as [<- | []].
    rewrite (Hff (dl ++ [EvSpawn args'])) in Hr.
    assert (Hrr : ran = true
                  /\ responses (trace (handle env body disk0))
                     = [failed (uuidv4 env)
                          (Error (str "ffmpeg process exited with code "
                                  ++ showCode code))]).
    { destruct code as [[| c] |]; [now contradiction Hcode | exact Hr ..]. }
    destruct Hrr as (-> & Hresp).
    exists stems. repeat split; auto.
Qed.

(** X16, at a request with one stem and a mixer that exits with 1. *)
Lemma ffmpeg_failure_is_reported_with_its_code_witness :
  responses
    (trace (handle brokenMixerEnv
                   (JObj [(str "stems", JArr [JStr (str "https://x/a.wav")])])
                   []))
  = [failed (str "id")
       (Error (str "ffmpeg process exited with code " ++ showCode (Some 1)))]
  /\ cleanups
       (trace (handle brokenMixerEnv
                      (JObj [(str "stems",
                              JArr [JStr (str "https://x/a.wav")])])
                      []))
     = [[str "/app/temp/id_stem_0.wav"; str "/app/temp/id_mixed.mp3"]].
Proof.
  destruct (@ffmpeg_failure_is_reported_with_its_code
              brokenMixerEnv
              (JObj [(str "stems", JArr [JStr (str "https://x/a.wav")])])
              []
              [str "-i"; str "/app/temp/id_stem_0.wav";
               str "-filter_complex";
               str "[0:a]volume=1[a0];[a0]amix=inputs=1:duration=longest[out]";
               str "-map"; str "[out]"; str "-c:a"; str "mp3";
               str "-b:a"; str "192k"; str "-y";
               str "/app/temp/id_mixed.mp3"]
              (Some 1) false)
    as (stems & Hs & _ & Hr & Hc & _).
  - vm_compute. do 3 right. left. reflexivity.
  - reflexivity.
  - discriminate.
  - inversion Hs; subst stems. split; [exact Hr | exact Hc].
Defined.

(** With [null] for the volumes the default parameter does not apply,
    and the first read of a volume throws. *)
Lemma mixArgs_null (file : jsstring) (rest : list jsstring)
    (outputFile : jsstring) :
  exists msg, mixArgs (file :: rest) outputFile JNull = Throw (TypeError msg).
Proof. eexists. rewrite MixerFacts.mixArgs_unfold. reflexivity. Qed.

(** X17. A request whose [volumes] is [null] never starts ffmpeg: the
    stems are validated and downloaded as usual, and then either a
    download failed and its error is answered, or all stems were
    downloaded and the request is answered with the 500 of a
    TypeError. *)
Theorem null_volumes_fail_after_the_downloads :
  forall (env : Env) (body : JSValue) (stems : list JSValue)
         (disk0 : list jsstring),
    getField body (str "stems") = Ok (JArr stems) ->
    stems <> [] ->
    forallb wellFormed stems = true ->
    getField body (str "volumes") = Ok JNull ->
    spawns (trace (handle env body disk0)) = []
    /\ ((exists msg,
           responses (trace (handle env body disk0))
           = [failed (uuidv4 env) (TypeError msg)]
           /\ downloadCalls (trace (handle env body disk0))
              = combine (map trimmedUrl stems)
                        (scratchPaths env (map trimmedUrl stems) 0))
        \/ (exists e s1,
              downloadStems env (map trimmedUrl stems) 0 []
                {| disk := disk0; trace := []; tempFiles := [] |}
              = (Throw e, s1)
              /\ responses (trace (handle env body disk0))
                 = [failed (uuidv4 env) e])).
Proof.
  intros env body stems disk0 Hs Hne Hwf Hv.
  pose proof (validateStems_wellFormed (uuidv4 env) stems 0 [] Hwf) as Hval.
  simpl in Hval.
  pose proof (handle_after_validation env body disk0 Hs Hne Hv Hval) as Hh.
  destruct (request_summary env _ JNull disk0 Hh)
    as (pushed & files & ran & _ & _ & _ & _ & _ & _ & _ & Hcase).
  assert (Hnull : forall e' args',
            mixArgs (scratchPaths env (map trimmedUrl stems) 0)
                    (outputPath env) JNull = e' ->
            e' = Ok args' -> False).
  { destruct stems as [| stem0 rest]; [contradiction |]. simpl.
    intros e' args' H. destruct (mixArgs_null
                                   (pathJoin env (tempDir env)
                                      (filename (uuidv4 env) 0
                                                (trimmedUrl stem0)))
                                   (scratchPaths env (map trimmedUrl rest) 1)
                                   (outputPath env)) as (msg & Hm).
    rewrite Hm in H. subst e'. discriminate. }
  destruct Hcase
    as [(_ & _ & Hsp & e & s1 & Hthrew & Hr)
       | (-> & _ & Hcalls
          & [(e & Hargs & _ & Hsp & Hr)
            | (args & Hargs & _)])].
  - split; [exact Hsp |]. right. now exists e, s1.
  - split; [exact Hsp |]. left.
    destruct stems as [| stem0 rest]; [contradiction |].
    destruct (mixArgs_null
                (pathJoin env (tempDir env)
                   (filename (uuidv4 env) 0 (trimmedUrl stem0)))
                (scratchPaths env (map trimmedUrl rest) 1)
                (outputPath env)) as (msg & Hm).
    simpl in Hargs. rewrite Hm in Hargs. inversion Hargs; subst e.
    exists msg. split; [exact Hr | exact Hcalls].
  - exfalso. exact (Hnull _ args eq_refl Hargs).
Qed.

(** X17, at a request with one stem in the sample environment. *)
Lemma null_volumes_fail_after_the_downloads_witness :
  spawns
    (trace (handle (sampleEnv [])
                   (JObj [(str "stems", JArr [JStr (str "https://x/a.wav")]);
                          (str "volumes", JNull)])
                   []))
  = [].
Proof.
  destruct (@null_volumes_fail_after_the_downloads
              (sampleEnv [])
              (JObj [(str "stems", JArr [JStr (str "https://x/a.wav")]);
                     (str "volumes", JNull)])
              [JStr (str "https://x/a.wav")]
              [])
    as (Hsp & _).
  - reflexivity.
  - discriminate.
  - reflexivity.
  - reflexivity.
  - exact Hsp.
Defined.

(** X18. Cleanup deletes nothing but the files of its list: a file
    that is not in the list is on the disk afterwards exactly when it
    was before; nothing appears on the disk; and the list of the
    request is left as it was. *)
Theorem cleanup_deletes_only_listed_files :
  forall (env : Env) (files : list jsstring) (s : State) (p : jsstring),
    (In p (disk (snd (cleanup env files s))) -> In p (disk s))
    /\ (~ In p files -> In p (disk s) ->
        In p (disk (snd (cleanup env files s))))
    /\ tempFiles (snd (cleanup env files s)) = tempFiles s.
Proof.
  intros env files s p.
  destruct (cleanup env files s) as [r s'] eqn:Hc.
  apply cleanup_facts in Hc.
  destruct Hc as (_ & Ht & unlinks & _ & Hincl & _ & _ & Hkeep). simpl.
  split; [apply Hincl |]. split; [apply Hkeep | exact Ht].
Qed.

(** X18, at a disk with one scratch file and one other file. *)
Lemma cleanup_deletes_only_listed_files_witness :
  In (str "/keep")
     (disk (snd (cleanup (sampleEnv []) [str "/app/temp/id_stem_0.wav"]
                   {| disk := [str "/app/temp/id_stem_0.wav"; str "/keep"];
                      trace := [];
                      tempFiles := [str "/app/temp/id_stem_0.wav"] |}))).
Proof.
  apply (proj1 (proj2 (@cleanup_deletes_only_listed_files
                         (sampleEnv []) [str "/app/temp/id_stem_0.wav"]
                         {| disk := [str "/app/temp/id_stem_0.wav";
                                     str "/keep"];
                            trace := [];
                            tempFiles := [str "/app/temp/id_stem_0.wav"] |}
                         (str "/keep")))).
  - intros [H | []]. discriminate H.
  - right. left. reflexivity.
Defined.

(** X19. [downloadFile] removes nothing from the disk and adds at most
    its own path, and that only after a GET answered in 200-299 with a
    readable body. It returns normally only when the file is written.
    When it throws, at most one GET was made, and the disk is as it was
    unless the write itself threw and left the file behind. A blank
    URL or a blank path is refused before any GET, with the disk as it
    was. *)
Theorem downloadFile_touches_only_its_path :
  forall (env : Env) (url filepath : jsstring) (s : State),
    (fst (downloadFile env url filepath s) = Ok tt ->
       In filepath (disk (snd (downloadFile env url filepath s)))
       /\ exists status statusText n,
            ok status = true
            /\ trace (snd (downloadFile env url filepath s))
               = trace s
                 ++ [EvDownloadFile url filepath;
                     EvFetch url (Resolved status statusText (Ok n));
                     EvWriteFile filepath])
    /\ (forall p, In p (disk s) ->
          In p (disk (snd (downloadFile env url filepath s))))
    /\ (forall p, In p (disk (snd (downloadFile env url filepath s))) ->
          In p (disk s)
          \/ (p = filepath
              /\ exists status statusText n,
                   ok status = true
                   /\ In (EvFetch url (Resolved status statusText (Ok n)))
                         (trace (snd (downloadFile env url filepath s)))))
    /\ (forall e, fst (downloadFile env url filepath s) = Throw e ->
          (disk (snd (downloadFile env url filepath s)) = disk s
           \/ leftByFailedWrite env filepath)
          /\ exists ev,
               trace (snd (downloadFile env url filepath s))
               = trace s ++ EvDownloadFile url filepath :: ev
               /\ (ev = [] \/ exists outcome, ev = [EvFetch url outcome]))
    /\ (trim url = [] \/ trim filepath = [] ->
          exists e,
            fst (downloadFile env url filepath s) = Throw e
            /\ trace (snd (downloadFile env url filepath s))
               = trace s ++ [EvDownloadFile url filepath]
            /\ disk (snd (downloadFile env url filepath s)) = disk s).
Proof.
  intros env url filepath s.
  assert (Hkeep : forall p, In p (disk s) ->
                    In p (if in_dec jsstring_eq_dec filepath (disk s)
                          then disk s else filepath :: disk s)).
  { intros p Hp. destruct (in_dec jsstring_eq_dec filepath (disk s));
      [exact Hp | now right]. }
  assert (Hnew : forall p,
                   In p (if in_dec jsstring_eq_dec filepath (disk s)
                         then disk s else filepath :: disk s) ->
                   In p (disk s) \/ p = filepath).
  { intros p Hp. destruct (in_dec jsstring_eq_dec filepath (disk s));
      [now left |]. destruct Hp as [<- | Hp]; auto. }
  split; [| split; [| split; [| split]]].
  - intros Hok.
    destruct (downloadFile_cases env url filepath s)
      as [(status & statusText & n & Hs & Hd)
         | [(e & ev & Hd & _)
           | (e & status & statusText & n & h & _ & _ & Hd)]];
      rewrite Hd in *; try discriminate Hok. simpl. split.
    + destruct (in_dec jsstring_eq_dec filepath (disk s)); [| now left].
      assumption.
    + now exists status, statusText, n.
  - intros p Hp.
    destruct (downloadFile_cases env url filepath s)
      as [(status & statusText & n & Hs & Hd)
         | [(e & ev & Hd & _)
           | (e & status & statusText & n & h & _ & _ & Hd)]];
      rewrite Hd; simpl; auto.
  - intros p.
    destruct (downloadFile_cases env url filepath s)
      as [(status & statusText & n & Hs & Hd)
         | [(e & ev & Hd & _)
           | (e & status & statusText & n & h & Hs & _ & Hd)]];
      rewrite Hd; simpl; auto; intros Hp;
      (destruct (Hnew p Hp) as [H | ->]; [now left | right]);
      (split; [reflexivity |]); exists status, statusText, n;
      (split; [exact Hs |]); apply in_or_app; right; simpl; auto.
  - intros e He.
    destruct (downloadFile_cases env url filepath s)
      as [(status & statusText & n & Hs & Hd)
         | [(e' & ev & Hd & Hev)
           | (e' & status & statusText & n & h & Hs & Hl & Hd)]];
      rewrite Hd in *; try discriminate He; simpl.
    + split; [now left | now exists ev].
    + split; [right; now exists h, e' |].
      eexists. split; [reflexivity |]. right. now eexists.
  - intros Hblank.
    unfold downloadFile, bind, emit, history, throw, created. simpl.
    destruct Hblank as [-> | ->].
    + simpl. eexists. repeat split.
    + destruct (eqb (trim url) []); simpl; eexists; repeat split.
Qed.

(** X19, at a URL of white space only. *)
Lemma downloadFile_touches_only_its_path_witness :
  exists e,
    fst (downloadFile (sampleEnv []) (str "  ") (str "/app/temp/a.wav")
           {| disk := []; trace := []; tempFiles := [] |})
    = Throw e
    /\ trace (snd (downloadFile (sampleEnv []) (str "  ")
                     (str "/app/temp/a.wav")
                     {| disk := []; trace := []; tempFiles := [] |}))
       = [] ++ [EvDownloadFile (str "  ") (str "/app/temp/a.wav")]
    /\ disk (snd (downloadFile (sampleEnv []) (str "  ")
                    (str "/app/temp/a.wav")
                    {| disk := []; trace := []; tempFiles := [] |}))
       = [].
Proof.
  apply (proj2 (proj2 (proj2 (proj2
           (@downloadFile_touches_only_its_path
              (sampleEnv []) (str "  ") (str "/app/temp/a.wav")
              {| disk := []; trace := []; tempFiles := [] |}))))).
  left. reflexivity.
Defined.

End RequestFacts.
